(** * The chunk flush engine of the ingester (pkg/ingester/flush.go)

    A shallow embedding of the flush policy, the sweeper, the flush worker
    and the flush executor, together with the properties the specification
    states about them.

    Conventions.
    - Go's [int64] values ([time.Duration] in nanoseconds, [model.Time] in
      milliseconds) are integers of [Z]; every arithmetic operation of the
      source is followed by its two's-complement wrap-around ([wrap64]).
      [model.Fingerprint] is a [uint64].
    - Go's [/] and [%] on integers truncate towards zero: [Z.quot], [Z.rem].
    - A pointer to a series or to a chunk descriptor is modelled by the value
      it points to, stored at its place in the owning map or slice; the code
      is run one goroutine at a time (the sections under [fpLocker] are
      atomic), so no other writer is interleaved.
    - Gauges and counters hold whole numbers far below 2^53, where Go's
      [float64] arithmetic is exact; they are integers of [Z] here. *)

From Stdlib Require Import ZArith Lia List Bool QArith Ascii.
From stdpp Require Import base option list gmap fin_maps strings pretty.

Local Open Scope Z_scope.

(** ** Machine integers *)

(** The value of an [int64] computation: [z] reduced to [-2^63, 2^63). *)
Definition wrap64 (z : Z) : Z := (z + 2 ^ 63) mod 2 ^ 64 - 2 ^ 63.

(** The value of a [uint64] computation: [z] reduced to [0, 2^64). *)
Definition wrapU64 (z : Z) : Z := z mod 2 ^ 64.

Definition int64_range (z : Z) : Prop := - 2 ^ 63 <= z < 2 ^ 63.
Definition uint64_range (z : Z) : Prop := 0 <= z < 2 ^ 64.

(** ** Time (time.Duration and prometheus/common/model.Time) *)

(** [time.Duration]: nanoseconds, [int64]. *)
Definition Duration := Z.

Module time.
Definition Nanosecond : Duration := 1.
Definition Millisecond : Duration := 1000000.
Definition Second : Duration := 1000000000.
End time.

(** [model.Fingerprint]: [uint64]. *)
Abbreviation Fingerprint := Z.

Module model.
(** [model.Time]: milliseconds since the epoch, [int64]. *)
Definition Time := Z.

(** [minimumTick = time.Millisecond]; [second = int64(time.Second / minimumTick)]. *)
Definition minimumTick : Duration := time.Millisecond.
Definition second : Z := Z.quot time.Second minimumTick.

(** [func (t Time) Sub(o Time) time.Duration { return time.Duration(t-o) * minimumTick }] *)
Definition Sub (t o : Time) : Duration := wrap64 (wrap64 (t - o) * minimumTick).

(** [func (t Time) Add(d time.Duration) Time { return t + Time(d/minimumTick) }] *)
Definition Add (t : Time) (d : Duration) : Time := wrap64 (t + Z.quot d minimumTick).

(** [func (t Time) Unix() int64 { return int64(t) / second }] *)
Definition Unix (t : Time) : Z := Z.quot t second.
End model.

(** The conversion [time.Duration(fp)] of a [uint64] fingerprint: the same
    64 bits read as a signed number. *)
Definition Duration_of_Fingerprint (fp : Fingerprint) : Duration := wrap64 fp.

(** ** Data model *)

(** [const ( noFlush = iota; reasonImmediate; ... )] *)
Inductive flushReason : Set :=
  | noFlush
  | reasonImmediate
  | reasonMultipleChunksInSeries
  | reasonAged
  | reasonIdle
  | reasonStale
  | reasonSpreadFlush.

#[global] Instance flushReason_eq_dec : EqDecision flushReason.
Proof. solve_decision. Defined.

(** [func (f flushReason) String() string] *)
Definition flushReason_String (f : flushReason) : string :=
  match f with
  | noFlush => "NoFlush"
  | reasonImmediate => "Immediate"
  | reasonMultipleChunksInSeries => "MultipleChunksInSeries"
  | reasonAged => "Aged"
  | reasonIdle => "Idle"
  | reasonStale => "Stale"
  | reasonSpreadFlush => "Spread"
  end.

(** The encoded payload [C] of a chunk, seen through the three observers the
    flush engine calls on it ([Len], [Size], [Utilization]); [payloadID]
    stands for the opaque bytes. *)
Record Payload := {
  payloadID : Z;
  Len : Z;
  Size : Z;
  Utilization : Q
}.

(** [desc]: one in-memory chunk. *)
Record desc := {
  C : Payload;
  FirstTime : model.Time;
  LastTime : model.Time;
  LastUpdate : model.Time;
  flushed : bool;
  descFlushReason : flushReason  (* the field [flushReason] *)
}.

Definition Labels := list (string * string).

(** [memorySeries]: the chunks of one series, oldest first.
    Modelled from the spec: the declaration of [memorySeries] is not among
    the sources; the data model gives it the ordered [chunkDescs], the label
    set [metric], the [headChunkClosed] flag and a stale marker. *)
Record memorySeries := {
  metric : Labels;
  chunkDescs : list desc;
  headChunkClosed : bool;
  staleMarker : bool
}.

(** Modelled from the spec: [isStale()] reports the stale marker, that the
    last sample is a Prometheus-style stale value. *)
Definition isStale (s : memorySeries) : bool := staleMarker s.

(** The options of [i.cfg] the flush engine reads. *)
Record Config := {
  ConcurrentFlushes : Z;          (* int *)
  FlushOpTimeout : Duration;
  MaxChunkAge : Duration;
  ChunkAgeJitter : Duration;
  MaxChunkIdle : Duration;
  MaxStaleChunkIdle : Duration;
  RetainPeriod : Duration
}.

(** ** Flush policy *)

(** The jitter computed by [shouldFlushChunk]:
    [var jitter time.Duration
     if i.cfg.ChunkAgeJitter != 0 { jitter = time.Duration(fp) % i.cfg.ChunkAgeJitter }] *)
Definition chunkAgeJitter (cfg : Config) (fp : Fingerprint) : Duration :=
  if ChunkAgeJitter cfg =? 0 then 0
  else Z.rem (Duration_of_Fingerprint fp) (ChunkAgeJitter cfg).

(** [func (i *Ingester) shouldFlushChunk(c *desc, fp, lastValueIsStale bool) flushReason];
    [now] is the reading of [model.Now()] in one call, the same in the test
    for Idle and in the test for Stale. *)
Definition shouldFlushChunk (cfg : Config) (now : model.Time)
    (c : desc) (fp : Fingerprint) (lastValueIsStale : bool) : flushReason :=
  if flushed c then noFlush
  else
    let jitter := chunkAgeJitter cfg fp in
    if model.Sub (LastTime c) (FirstTime c) >? wrap64 (MaxChunkAge cfg - jitter)
    then reasonAged
    else if model.Sub now (LastUpdate c) >? MaxChunkIdle cfg
    then reasonIdle
    else if (MaxStaleChunkIdle cfg >? 0) && lastValueIsStale
            && (model.Sub now (LastUpdate c) >? MaxStaleChunkIdle cfg)
    then reasonStale
    else noFlush.

(** [func (i *Ingester) shouldFlushSeries(series *memorySeries, fp, immediate bool) flushReason] *)
Definition shouldFlushSeries (cfg : Config) (now : model.Time)
    (series : memorySeries) (fp : Fingerprint) (immediate : bool) : flushReason :=
  match chunkDescs series with
  | [] => noFlush
  | c0 :: rest =>
      if immediate then reasonImmediate
      else if (1 <? Z.of_nat (length (chunkDescs series))) && negb (flushed c0)
      then
        if decide (descFlushReason c0 <> noFlush) then descFlushReason c0
        else reasonMultipleChunksInSeries
      else shouldFlushChunk cfg now c0 fp (isStale series)
  end.

(** *** The policy as the specification words it *)

(** The decision table of [shouldFlushChunk], for a given jitter: the checks
    flushed, Aged, Idle, Stale in that order. *)
Definition flushChunkTable (jitter : Duration) (cfg : Config) (now : model.Time)
    (c : desc) (stale : bool) : flushReason :=
  if flushed c then noFlush
  else if model.Sub (LastTime c) (FirstTime c) >? wrap64 (MaxChunkAge cfg - jitter)
  then reasonAged
  else if model.Sub now (LastUpdate c) >? MaxChunkIdle cfg then reasonIdle
  else if MaxStaleChunkIdle cfg >? 0
  then if stale
       then if model.Sub now (LastUpdate c) >? MaxStaleChunkIdle cfg
            then reasonStale else noFlush
       else noFlush
  else noFlush.

(** The jitter as the specification states it: [fp mod ChunkAgeJitter] when
    [ChunkAgeJitter > 0], and 0 otherwise. *)
Definition jitterStated (cfg : Config) (fp : Fingerprint) : Duration :=
  if ChunkAgeJitter cfg >? 0 then fp mod ChunkAgeJitter cfg else 0.

(** The decision of [shouldFlushSeries] in the specification's four steps,
    as a relation between a series and a reason. *)
Inductive SeriesFlushSpec (cfg : Config) (now : model.Time)
    (series : memorySeries) (fp : Fingerprint) (immediate : bool) : flushReason -> Prop :=
  | SFS_empty :
      chunkDescs series = [] ->
      SeriesFlushSpec cfg now series fp immediate noFlush
  | SFS_immediate :
      chunkDescs series <> [] -> immediate = true ->
      SeriesFlushSpec cfg now series fp immediate reasonImmediate
  | SFS_recorded c0 :
      immediate = false ->
      chunkDescs series !! 0%nat = Some c0 ->
      (1 < length (chunkDescs series))%nat -> flushed c0 = false ->
      descFlushReason c0 <> noFlush ->
      SeriesFlushSpec cfg now series fp immediate (descFlushReason c0)
  | SFS_multiple c0 :
      immediate = false ->
      chunkDescs series !! 0%nat = Some c0 ->
      (1 < length (chunkDescs series))%nat -> flushed c0 = false ->
      descFlushReason c0 = noFlush ->
      SeriesFlushSpec cfg now series fp immediate reasonMultipleChunksInSeries
  | SFS_chunk c0 :
      immediate = false ->
      chunkDescs series !! 0%nat = Some c0 ->
      ~ ((1 < length (chunkDescs series))%nat /\ flushed c0 = false) ->
      SeriesFlushSpec cfg now series fp immediate
        (shouldFlushChunk cfg now c0 fp (isStale series)).

(** ** Flush ops and the per-shard priority queue *)

(** [flushBackoff = 1 * time.Second]: backoff for retrying 'immediate'
    flushes; it only counts for queue position. *)
Definition flushBackoff : Duration := wrap64 (1 * time.Second).

(** [type flushOp struct { from model.Time; userID string; fp model.Fingerprint; immediate bool }] *)
Record flushOp := {
  op_from : model.Time;
  op_userID : string;
  op_fp : Fingerprint;
  op_immediate : bool
}.

(** [func (o *flushOp) Key() string { return fmt.Sprintf("%s-%d-%v", o.userID, o.fp, o.immediate) }] *)
Definition Key (o : flushOp) : string :=
  (op_userID o +:+ "-" +:+ pretty (op_fp o) +:+ "-"
     +:+ (if op_immediate o then "true" else "false"))%string.

(** [func (o *flushOp) Priority() int64 { return -int64(o.from) }] *)
Definition Priority (o : flushOp) : Z := wrap64 (- op_from o).

(** Modelled from the spec: the priority queue of pkg/util is not among the
    sources. Section 4.2 gives its contract: [Enqueue] does nothing and
    returns false when an op with the same [Key()] is queued, and otherwise
    inserts by descending [Priority()], first-in first-out among equal
    priorities, and returns true; [Dequeue] blocks until an op is there or
    the queue is closed, and returns the op of highest priority, or nil
    from a closed and drained queue; [Close] marks the queue closed. The
    queue is the list of its ops, next to leave first. *)
Record PriorityQueue := {
  pq_items : list flushOp;
  pq_closed : bool
}.

Fixpoint pq_insert (op : flushOp) (l : list flushOp) : list flushOp :=
  match l with
  | [] => [op]
  | x :: l' =>
      if Priority x <? Priority op then op :: x :: l' else x :: pq_insert op l'
  end.

Definition pq_has (k : string) (l : list flushOp) : bool :=
  existsb (fun x => bool_decide (Key x = k)) l.

Definition Enqueue (q : PriorityQueue) (op : flushOp) : PriorityQueue * bool :=
  if pq_has (Key op) (pq_items q) then (q, false)
  else ({| pq_items := pq_insert op (pq_items q); pq_closed := pq_closed q |}, true).

(** What a call of [Dequeue] comes to: it returns an op and leaves the
    queue [q']; it returns nil, the queue being closed and drained; or it
    does not return, the queue being open and empty, and the caller waits
    for an [Enqueue] or a [Close]. *)
Inductive dequeued :=
  | dequeuedOp (op : flushOp) (q' : PriorityQueue)
  | dequeuedNil
  | dequeueWaits.

Definition Dequeue (q : PriorityQueue) : dequeued :=
  match pq_items q with
  | op :: rest => dequeuedOp op {| pq_items := rest; pq_closed := pq_closed q |}
  | [] => if pq_closed q then dequeuedNil else dequeueWaits
  end.

Definition Close (q : PriorityQueue) : PriorityQueue :=
  {| pq_items := pq_items q; pq_closed := true |}.

(** ** The chunk store and the ingester *)

Definition error := string.

(** Modelled from the spec: [chunk.Chunk] of pkg/chunk is not among the
    sources; section 6 gives the wire chunk the fields user, fingerprint,
    labels, encoded payload, first and last time. *)
Record Chunk := {
  wc_userID : string;
  wc_fp : Fingerprint;
  wc_metric : Labels;
  wc_data : Payload;
  wc_from : model.Time;
  wc_through : model.Time
}.

(** [chunk.NewChunk(userID, fp, metric, c, from, through)] *)
Definition NewChunk (userID : string) (fp : Fingerprint) (metric : Labels)
    (c : Payload) (from through : model.Time) : Chunk :=
  {| wc_userID := userID; wc_fp := fp; wc_metric := metric; wc_data := c;
     wc_from := from; wc_through := through |}.

(** The external chunk store: how its [Put] answers a batch, given the
    batches it was sent before, and those batches, oldest first. *)
Record ChunkStore := {
  Put : list (list Chunk) -> list Chunk -> option error;
  putLog : list (list Chunk)
}.

(** [userState]: the series of one tenant by fingerprint. *)
Record userState := {
  fpToSeries : gmap Z memorySeries
}.

(** The metrics of the flush engine. A histogram is the list of its
    observations, oldest first; a counter vector maps the label value to
    the count, absent labels counting 0. [chunkAge] keeps the observed
    duration, which the source converts to seconds. *)
Record Metrics := {
  chunkUtilization : list Q;
  chunkLength : list Z;
  chunkSize : list Z;
  chunksPerUser : gmap string Z;
  chunkSizePerUser : gmap string Z;
  chunkAge : list Duration;
  memoryChunks : Z;
  flushReasons : gmap string Z;
  droppedChunks : Z;
  oldestUnflushedChunkTimestamp : Z
}.

(** The part of [Ingester] the flush engine reads and writes. [limits] is
    [i.limits.MinChunkLength]; [chunkStore = None] is the nil store. *)
Record Ingester := {
  cfg : Config;
  limits : string -> Z;
  chunkStore : option ChunkStore;
  userStates : gmap string userState;
  flushQueues : list PriorityQueue;
  metrics : Metrics
}.

Definition set_userStates (us : gmap string userState) (i : Ingester) : Ingester :=
  {| cfg := cfg i; limits := limits i; chunkStore := chunkStore i;
     userStates := us; flushQueues := flushQueues i; metrics := metrics i |}.

Definition set_flushQueues (qs : list PriorityQueue) (i : Ingester) : Ingester :=
  {| cfg := cfg i; limits := limits i; chunkStore := chunkStore i;
     userStates := userStates i; flushQueues := qs; metrics := metrics i |}.

Definition set_metrics (m : Metrics) (i : Ingester) : Ingester :=
  {| cfg := cfg i; limits := limits i; chunkStore := chunkStore i;
     userStates := userStates i; flushQueues := flushQueues i; metrics := m |}.

Definition set_chunkStore (s : option ChunkStore) (i : Ingester) : Ingester :=
  {| cfg := cfg i; limits := limits i; chunkStore := s;
     userStates := userStates i; flushQueues := flushQueues i; metrics := metrics i |}.

Definition set_memoryChunks (v : Z) (m : Metrics) : Metrics :=
  {| chunkUtilization := chunkUtilization m; chunkLength := chunkLength m;
     chunkSize := chunkSize m; chunksPerUser := chunksPerUser m;
     chunkSizePerUser := chunkSizePerUser m; chunkAge := chunkAge m;
     memoryChunks := v; flushReasons := flushReasons m;
     droppedChunks := droppedChunks m;
     oldestUnflushedChunkTimestamp := oldestUnflushedChunkTimestamp m |}.

Definition set_droppedChunks (v : Z) (m : Metrics) : Metrics :=
  {| chunkUtilization := chunkUtilization m; chunkLength := chunkLength m;
     chunkSize := chunkSize m; chunksPerUser := chunksPerUser m;
     chunkSizePerUser := chunkSizePerUser m; chunkAge := chunkAge m;
     memoryChunks := memoryChunks m; flushReasons := flushReasons m;
     droppedChunks := v;
     oldestUnflushedChunkTimestamp := oldestUnflushedChunkTimestamp m |}.

Definition set_flushReasons (v : gmap string Z) (m : Metrics) : Metrics :=
  {| chunkUtilization := chunkUtilization m; chunkLength := chunkLength m;
     chunkSize := chunkSize m; chunksPerUser := chunksPerUser m;
     chunkSizePerUser := chunkSizePerUser m; chunkAge := chunkAge m;
     memoryChunks := memoryChunks m; flushReasons := v;
     droppedChunks := droppedChunks m;
     oldestUnflushedChunkTimestamp := oldestUnflushedChunkTimestamp m |}.

Definition set_oldestUnflushedChunkTimestamp (v : Z) (m : Metrics) : Metrics :=
  {| chunkUtilization := chunkUtilization m; chunkLength := chunkLength m;
     chunkSize := chunkSize m; chunksPerUser := chunksPerUser m;
     chunkSizePerUser := chunkSizePerUser m; chunkAge := chunkAge m;
     memoryChunks := memoryChunks m; flushReasons := flushReasons m;
     droppedChunks := droppedChunks m;
     oldestUnflushedChunkTimestamp := v |}.

(** [counter.WithLabelValues(l).Add(v)] on a counter vector. *)
Definition counterAdd (l : string) (v : Z) (c : gmap string Z) : gmap string Z :=
  <[l := default 0 (c !! l) + v]> c.

(** The stored-chunk observations of [flushChunks] for one chunk:
    [chunkUtilization.Observe], [chunkLength.Observe], [chunkSize.Observe],
    [sizePerUser.Add(size)], [countPerUser.Inc()], [chunkAge.Observe]. *)
Definition observeStored (userID : string) (now : model.Time) (d : desc)
    (m : Metrics) : Metrics :=
  {| chunkUtilization := chunkUtilization m ++ [Utilization (C d)];
     chunkLength := chunkLength m ++ [Len (C d)];
     chunkSize := chunkSize m ++ [Size (C d)];
     chunksPerUser := counterAdd userID 1 (chunksPerUser m);
     chunkSizePerUser := counterAdd userID (Size (C d)) (chunkSizePerUser m);
     chunkAge := chunkAge m ++ [model.Sub now (FirstTime d)];
     memoryChunks := memoryChunks m; flushReasons := flushReasons m;
     droppedChunks := droppedChunks m;
     oldestUnflushedChunkTimestamp := oldestUnflushedChunkTimestamp m |}.

(** ** Series helpers *)

(** Modelled from the spec: [firstTime()] returns [chunkDescs[0].FirstTime];
    on a series without chunks the index is out of range ([None]). *)
Definition firstTime (s : memorySeries) : option model.Time :=
  FirstTime <$> head (chunkDescs s).

(** Modelled from the spec: [head()] returns the last element of
    [chunkDescs]; out of range on a series without chunks ([None]). *)
Definition seriesHead (s : memorySeries) : option desc := last (chunkDescs s).

(** Modelled from the spec: [firstUnflushedChunkTime()] returns the
    [FirstTime] of the earliest non-flushed chunk, or 0. *)
Fixpoint firstUnflushed (l : list desc) : model.Time :=
  match l with
  | [] => 0
  | c :: rest => if flushed c then firstUnflushed rest else FirstTime c
  end.

Definition firstUnflushedChunkTime (s : memorySeries) : model.Time :=
  firstUnflushed (chunkDescs s).

Definition set_descFlushReason (r : flushReason) (d : desc) : desc :=
  {| C := C d; FirstTime := FirstTime d; LastTime := LastTime d;
     LastUpdate := LastUpdate d; flushed := flushed d; descFlushReason := r |}.

(** Modelled from the spec: [closeHead(reason)] stamps [reason] as the
    [flushReason] of the chunk it closes, the head, and sets
    [headChunkClosed]. *)
Definition closeHead (reason : flushReason) (s : memorySeries) : memorySeries :=
  {| metric := metric s;
     chunkDescs := alter (set_descFlushReason reason)
                     (Nat.pred (length (chunkDescs s))) (chunkDescs s);
     headChunkClosed := true;
     staleMarker := staleMarker s |}.

Definition set_chunkDescs (l : list desc) (s : memorySeries) : memorySeries :=
  {| metric := metric s; chunkDescs := l;
     headChunkClosed := headChunkClosed s; staleMarker := staleMarker s |}.

(** Modelled from the spec: [removeSeries(fp, metric)] removes the series
    from the tenant's [fpToSeries]. *)
Definition removeSeries (fp : Fingerprint) (u : userState) : userState :=
  {| fpToSeries := delete fp (fpToSeries u) |}.

(** A write through the pointer [series]: the series object kept at [fp] in
    the state of [userID] takes the value [s]. *)
Definition writeSeries (userID : string) (fp : Fingerprint) (s : memorySeries)
    (us : gmap string userState) : gmap string userState :=
  alter (fun u => {| fpToSeries := alter (fun _ => s) fp (fpToSeries u) |}) userID us.

(** [userState.removeSeries(fp, series.metric)] through the pointer
    [userState] of the tenant [userID]. *)
Definition dropSeries (userID : string) (fp : Fingerprint)
    (us : gmap string userState) : gmap string userState :=
  alter (removeSeries fp) userID us.

(** ** The sweeper *)

(** [flushQueueIndex := int(uint64(fp) % uint64(i.cfg.ConcurrentFlushes))];
    [None] is the run-time panic of an integer division by zero. *)
Definition flushQueueIndexOf (cfg : Config) (fp : Fingerprint) : option Z :=
  let n := wrapU64 (ConcurrentFlushes cfg) in
  if n =? 0 then None else Some (wrap64 (Z.rem (wrapU64 fp) n)).

(** [i.flushQueues[j]]; [None] is the panic of an index out of range. *)
Definition queueAt (qs : list PriorityQueue) (j : Z) : option PriorityQueue :=
  if j <? 0 then None else qs !! Z.to_nat j.

(** [i.flushQueues[j].Enqueue(op)]: the queues after the call and its result. *)
Definition enqueueAt (qs : list PriorityQueue) (j : Z) (op : flushOp)
    : option (list PriorityQueue * bool) :=
  q ← queueAt qs j;
  let '(q', added) := Enqueue q op in
  Some (<[Z.to_nat j := q']> qs, added).

(** [func (i *Ingester) sweepSeries(userID string, fp, series *memorySeries, immediate bool)];
    [None] is a panic. *)
Definition sweepSeries (i : Ingester) (now : model.Time) (userID : string)
    (fp : Fingerprint) (series : memorySeries) (immediate : bool) : option Ingester :=
  if Z.of_nat (length (chunkDescs series)) <=? 0 then Some i
  else
    firstTime ← firstTime series;
    let flush := shouldFlushSeries (cfg i) now series fp immediate in
    if decide (flush = noFlush) then Some i
    else
      flushQueueIndex ← flushQueueIndexOf (cfg i) fp;
      '(qs, added) ← enqueueAt (flushQueues i) flushQueueIndex
                        {| op_from := firstTime; op_userID := userID;
                           op_fp := fp; op_immediate := immediate |};
      let i1 := set_flushQueues qs i in
      if added : bool
      then Some (set_metrics
                   (set_flushReasons
                      (counterAdd (flushReason_String flush) 1 (flushReasons (metrics i1)))
                      (metrics i1)) i1)
      else Some i1.

(** The test of the loop of [removeFlushedChunks] on the front chunk. *)
Definition reapable (cfg : Config) (now : model.Time) (c : desc) : bool :=
  flushed c && (model.Sub now (LastUpdate c) >? RetainPeriod cfg).

(** The loop of [removeFlushedChunks]: the chunks left and the value of the
    [memoryChunks] gauge, [memoryChunks.Dec()] once per dropped chunk. *)
Fixpoint reapLoop (cfg : Config) (now : model.Time) (l : list desc) (mc : Z)
    : list desc * Z :=
  match l with
  | [] => ([], mc)
  | c :: rest =>
      if reapable cfg now c then reapLoop cfg now rest (mc - 1) else (c :: rest, mc)
  end.

(** [func (i *Ingester) removeFlushedChunks(userState *userState, fp, series *memorySeries)];
    [userID] names the tenant [userState] points to. The result is the
    ingester and the series as the call leaves it. *)
Definition removeFlushedChunks (i : Ingester) (now : model.Time) (userID : string)
    (fp : Fingerprint) (series : memorySeries) : Ingester * memorySeries :=
  let '(l, mc) := reapLoop (cfg i) now (chunkDescs series) (memoryChunks (metrics i)) in
  let series' := set_chunkDescs l series in
  let i1 := set_metrics (set_memoryChunks mc (metrics i))
              (set_userStates (writeSeries userID fp series' (userStates i)) i) in
  if Z.of_nat (length l) =? 0
  then (set_userStates (dropSeries userID fp (userStates i1)) i1, series')
  else (i1, series').

(** The snapshot the two loops of [sweepUsers] range over: [userStates.cp()]
    and, for each tenant, [fpToSeries.iter()]. Go leaves the order of both
    open; here it is the order of [map_to_list], of which the proofs use
    nothing but that every entry occurs once. *)
Definition seriesOf (us : gmap string userState) : list (string * Z * memorySeries) :=
  '(id, state) ← map_to_list us;
  '(fp, series) ← map_to_list (fpToSeries state);
  [(id, fp, series)].

(** The body of the inner loop of [sweepUsers] for one [pair] of the tenant
    [id], with the running value of [oldest]; [clock id fp] is the reading
    of [model.Now()] while the series is locked, the same in [sweepSeries]
    and in [removeFlushedChunks]. *)
Definition sweepPair (immediate : bool) (clock : string -> Fingerprint -> model.Time)
    (acc : Ingester * model.Time) (entry : string * Z * memorySeries)
    : option (Ingester * model.Time) :=
  let '(i, oldest) := acc in
  let '(id, fp, series) := entry in
  i1 ← sweepSeries i (clock id fp) id fp series immediate;
  let '(i2, series') := removeFlushedChunks i1 (clock id fp) id fp series in
  let first := firstUnflushedChunkTime series' in
  if (first >? 0) && ((oldest =? 0) || (first <? oldest))
  then Some (i2, first)
  else Some (i2, oldest).

Fixpoint sweepPairs (immediate : bool) (clock : string -> Fingerprint -> model.Time)
    (entries : list (string * Z * memorySeries)) (acc : Ingester * model.Time)
    : option (Ingester * model.Time) :=
  match entries with
  | [] => Some acc
  | e :: rest =>
      acc' ← sweepPair immediate clock acc e;
      sweepPairs immediate clock rest acc'
  end.

(** [func (i *Ingester) sweepUsers(immediate bool)] *)
Definition sweepUsers (i : Ingester) (clock : string -> Fingerprint -> model.Time)
    (immediate : bool) : option Ingester :=
  match chunkStore i with
  | None => Some i
  | Some _ =>
      '(i', oldest) ← sweepPairs immediate clock (seriesOf (userStates i)) (i, 0);
      Some (set_metrics
              (set_oldestUnflushedChunkTimestamp (model.Unix oldest) (metrics i')) i')
  end.

(** [func (i *Ingester) Flush()]: the sweep, then [Close()] on every flush
    queue. The wait for the workers that follows is not part of the state. *)
Definition Flush (i : Ingester) (clock : string -> Fingerprint -> model.Time)
    : option Ingester :=
  i' ← sweepUsers i clock true;
  Some (set_flushQueues (Close <$> flushQueues i') i').

(** [func (i *Ingester) FlushHandler(w, r)]: the sweep, then the status
    written to the response, [http.StatusNoContent]. *)
Definition FlushHandler (i : Ingester) (clock : string -> Fingerprint -> model.Time)
    : option (Ingester * Z) :=
  i' ← sweepUsers i clock true;
  Some (i', 204).

(** ** The flush executor and the worker *)

(** The marking loop of [flushUserSeries] after a stored batch of [n] chunks:
    [for i := 0; i < len(chunks); i++ { series.chunkDescs[i].flushed = true;
    series.chunkDescs[i].LastUpdate = model.Now() }]. The clock is read
    once for each chunk: [now3 idx] is the reading for [chunkDescs[idx]]. *)
Definition markFlushed (now : model.Time) (d : desc) : desc :=
  {| C := C d; FirstTime := FirstTime d; LastTime := LastTime d;
     LastUpdate := now; flushed := true; descFlushReason := descFlushReason d |}.

Fixpoint markLoop (now3 : nat -> model.Time) (k : nat) (idx : nat) (l : list desc)
    : list desc :=
  match k with
  | O => l
  | S k' => markLoop now3 k' (S idx) (alter (markFlushed (now3 idx)) idx l)
  end.

(** The choice of the chunks to flush and the closing of the head:
    [chunks := series.chunkDescs
     if immediate { series.closeHead(reasonImmediate) }
     else if chunkReason := i.shouldFlushChunk(series.head(), fp, series.isStale());
             chunkReason != noFlush { series.closeHead(chunkReason) }
     else { chunks = chunks[:len(chunks)-1] }].
    The result is the series as the step leaves it and [chunks], whose
    elements are those of the series itself. *)
Definition selectChunks (cfg : Config) (now : model.Time) (series : memorySeries)
    (fp : Fingerprint) (immediate : bool) : option (memorySeries * list desc) :=
  if immediate
  then let s := closeHead reasonImmediate series in Some (s, chunkDescs s)
  else
    h ← seriesHead series;
    let chunkReason := shouldFlushChunk cfg now h fp (isStale series) in
    if decide (chunkReason <> noFlush)
    then let s := closeHead chunkReason series in Some (s, chunkDescs s)
    else Some (series, take (Nat.pred (length (chunkDescs series))) (chunkDescs series)).

(** [chunkLength := 0; for _, c := range chunks { chunkLength += c.C.Len() }] *)
Definition sumLen (chunks : list desc) : Z :=
  fold_left (fun acc c => wrap64 (acc + Len (C c))) chunks 0.

(** The undersize test of [flushUserSeries]. *)
Definition undersize (i : Ingester) (userID : string) (reason : flushReason)
    (series : memorySeries) (chunks : list desc) : bool :=
  (bool_decide (reason = reasonIdle) || bool_decide (reason = reasonStale))
  && headChunkClosed series
  && (limits i userID >? 0)
  && (sumLen chunks <? limits i userID).

(** The undersize drop of [flushUserSeries]: [userState.removeSeries(fp,
    series.metric); memoryChunks.Sub(float64(len(chunks)));
    droppedChunks.Add(float64(len(chunks)))]. *)
Definition dropUndersize (i : Ingester) (userID : string) (fp : Fingerprint)
    (chunks : list desc) : Ingester :=
  let n := Z.of_nat (length chunks) in
  set_metrics
    (set_droppedChunks (droppedChunks (metrics i) + n)
       (set_memoryChunks (memoryChunks (metrics i) - n) (metrics i)))
    (set_userStates (dropSeries userID fp (userStates i)) i).

(** The second locked section of [flushUserSeries], after the store has
    accepted [chunks]: on the immediate path the series is removed and
    [memoryChunks] lowered by [len(chunks)]; otherwise the first
    [len(chunks)] descriptors of the series are marked, each with a
    reading of the clock of its own. *)
Definition afterStored (i : Ingester) (now3 : nat -> model.Time) (userID : string)
    (fp : Fingerprint) (immediate : bool) (series : memorySeries)
    (chunks : list desc) : Ingester :=
  if immediate
  then
    set_metrics
      (set_memoryChunks (memoryChunks (metrics i) - Z.of_nat (length chunks)) (metrics i))
      (set_userStates (dropSeries userID fp (userStates i)) i)
  else
    set_userStates
      (writeSeries userID fp
         (set_chunkDescs (markLoop now3 (length chunks) 0 (chunkDescs series)) series)
         (userStates i)) i.

(** How a turn of the loop of [flushLoop] ends. *)
Inductive turn := turnGoesOn | turnReturns | turnWaits.

(** The readings of [model.Now()] in one invocation of [flushUserSeries],
    in the order of the code: in the re-check of the policy, in the check
    of the head, for each chunk whose age [flushChunks] observes, and for
    each chunk that is marked. *)
Record Readings := {
  atRecheck : model.Time;
  atHead : model.Time;
  atStore : nat -> model.Time;
  atMark : nat -> model.Time
}.

Section Executor.

(** [c.Encode()] of pkg/chunk: the error it returns for a wire chunk, if
    any. The encoding itself is outside the flush engine. *)
Variable Encode : Chunk -> option error.

(** The first loop of [flushChunks]: the wire chunks, or the first error
    of [Encode]. *)
Fixpoint encodeChunks (userID : string) (fp : Fingerprint) (metric : Labels)
    (chunkDescs : list desc) : error + list Chunk :=
  match chunkDescs with
  | [] => inr []
  | chunkDesc :: rest =>
      let c := NewChunk userID fp metric (C chunkDesc)
                 (FirstTime chunkDesc) (LastTime chunkDesc) in
      match Encode c with
      | Some err => inl err
      | None =>
          match encodeChunks userID fp metric rest with
          | inl err => inl err
          | inr wireChunks => inr (c :: wireChunks)
          end
      end
  end.

(** The loop of [flushChunks] over the stored chunks,
    [for _, chunkDesc := range chunkDescs], from index [idx] on: the
    observations of each chunk, with a reading [now2 idx] of [model.Now()]
    of its own for the age of [chunkDescs[idx]]. *)
Fixpoint observeLoop (userID : string) (now2 : nat -> model.Time) (idx : nat)
    (chunkDescs : list desc) (m : Metrics) : Metrics :=
  match chunkDescs with
  | [] => m
  | d :: rest =>
      observeLoop userID now2 (S idx) rest (observeStored userID (now2 idx) d m)
  end.

(** [func (i *Ingester) flushChunks(ctx, userID, fp, metric, chunkDescs) error];
    [now2 idx] is the reading of [model.Now()] for the age of
    [chunkDescs[idx]]. [None] is the panic of a call on the nil store. *)
Definition flushChunks (i : Ingester) (now2 : nat -> model.Time) (userID : string)
    (fp : Fingerprint) (metric : Labels) (chunkDescs : list desc)
    : option (Ingester * option error) :=
  match encodeChunks userID fp metric chunkDescs with
  | inl err => Some (i, Some err)
  | inr wireChunks =>
      store ← chunkStore i;
      let store' := {| Put := Put store; putLog := putLog store ++ [wireChunks] |} in
      let i1 := set_chunkStore (Some store') i in
      match Put store (putLog store) wireChunks with
      | Some err => Some (i1, Some err)
      | None =>
          Some (set_metrics
                  (observeLoop userID now2 0 chunkDescs (metrics i1)) i1, None)
      end
  end.

(** [func (i *Ingester) flushUserSeries(flushQueueIndex int, userID string, fp, immediate bool) error].
    The code reads [model.Now()] in four places, and each has a reading of
    its own: [now] in the re-check [shouldFlushSeries], [now1] in
    [shouldFlushChunk] on the head, [now2 idx] in [flushChunks] for the age
    of [chunks[idx]], and [now3 idx] as the new [LastUpdate] of
    [chunkDescs[idx]]. The test hook
    [preFlushUserSeries] is nil. [None] is a panic. *)
Definition flushUserSeries (i : Ingester) (now now1 : model.Time)
    (now2 now3 : nat -> model.Time)
    (flushQueueIndex : Z) (userID : string) (fp : Fingerprint) (immediate : bool)
    : option (Ingester * option error) :=
  match userStates i !! userID with
  | None => Some (i, None)
  | Some userState =>
    match fpToSeries userState !! fp with
    | None => Some (i, None)
    | Some series =>
      let reason := shouldFlushSeries (cfg i) now series fp immediate in
      if decide (reason = noFlush) then Some (i, None)
      else
        '(series1, chunks) ← selectChunks (cfg i) now1 series fp immediate;
        let i1 := set_userStates (writeSeries userID fp series1 (userStates i)) i in
        if undersize i1 userID reason series1 chunks
        then Some (dropUndersize i1 userID fp chunks, None)
        else if Z.of_nat (length chunks) =? 0 then Some (i1, None)
        else
          '(i2, err) ← flushChunks i1 now2 userID fp (metric series1) chunks;
          match err with
          | Some e => Some (i2, Some e)
          | None => Some (afterStored i2 now3 userID fp immediate series1 chunks, None)
          end
    end
  end.

(** The body of the loop of [flushLoop(j)] for one [Dequeue], and how the
    turn ends: the loop goes on with the next [Dequeue]; the worker
    returns, the queue having given nil; or the worker waits in [Dequeue]
    on its open, empty queue. *)
Definition flushLoopBody (i : Ingester) (now now1 : model.Time)
    (now2 now3 : nat -> model.Time) (j : Z) : option (Ingester * turn) :=
  q ← queueAt (flushQueues i) j;
  match Dequeue q with
  | dequeueWaits => Some (i, turnWaits)
  | dequeuedNil => Some (i, turnReturns)
  | dequeuedOp op q' =>
      let i0 := set_flushQueues (<[Z.to_nat j := q']> (flushQueues i)) i in
      '(i1, err) ← flushUserSeries i0 now now1 now2 now3 j
                     (op_userID op) (op_fp op) (op_immediate op);
      if op_immediate op && bool_decide (err <> None)
      then
        let op' := {| op_from := model.Add (op_from op) flushBackoff;
                      op_userID := op_userID op; op_fp := op_fp op;
                      op_immediate := op_immediate op |} in
        '(qs, _) ← enqueueAt (flushQueues i1) j op';
        Some (set_flushQueues qs i1, turnGoesOn)
      else Some (i1, turnGoesOn)
  end.

(** [flushLoop(j)], for at most [fuel] turns of its loop; [clock k] gives
    the readings of [model.Now()] in turn [k]. The result tells how the
    last turn ended: [turnGoesOn] when the turns allowed are used up. *)
Fixpoint flushLoop (fuel : nat) (clock : nat -> Readings)
    (k : nat) (i : Ingester) (j : Z) : option (Ingester * turn) :=
  match fuel with
  | O => Some (i, turnGoesOn)
  | S fuel' =>
      '(i', t) ← flushLoopBody i (atRecheck (clock k)) (atHead (clock k))
                   (atStore (clock k)) (atMark (clock k)) j;
      match t with
      | turnGoesOn => flushLoop fuel' clock (S k) i' j
      | _ => Some (i', t)
      end
  end.

End Executor.

(** The jitter in closed form: the fingerprint read as a signed 64-bit
    number, and the remainder of Go's [%], which takes the sign of the
    dividend. *)
Definition jitterSigned (cfg : Config) (fp : Fingerprint) : Duration :=
  if ChunkAgeJitter cfg =? 0 then 0
  else Z.rem (if fp <? 2 ^ 63 then fp else fp - 2 ^ 64) (ChunkAgeJitter cfg).

(** ** The notions the properties are stated with *)

(** The series kept for the tenant [id] under the fingerprint [fp]. *)
Definition seriesAt (us : gmap string userState) (id : string) (fp : Z)
    : option memorySeries :=
  u ← us !! id; fpToSeries u !! fp.

(** The condition under which [removeFlushedChunks] drops a front chunk. *)
Definition Reapable (cfg : Config) (now : model.Time) (c : desc) : Prop :=
  flushed c = true /\ model.Sub now (LastUpdate c) > RetainPeriod cfg.

(** The update of [oldest] in the loop of [sweepUsers]. *)
Definition stepOldest (oldest first : model.Time) : model.Time :=
  if (first >? 0) && ((oldest =? 0) || (first <? oldest)) then first else oldest.




(** The chunks [removeFlushedChunks] leaves, and the series it leaves in the
    tenant's map, if any. *)
Definition reapChunks (cfg : Config) (now : model.Time) (l : list desc) : list desc :=
  (reapLoop cfg now l 0).1.

Definition reaped (cfg : Config) (now : model.Time) (s : memorySeries)
    : option memorySeries :=
  if decide (reapChunks cfg now (chunkDescs s) = []) then None
  else Some (set_chunkDescs (reapChunks cfg now (chunkDescs s)) s).

(** The invocation of [flushUserSeries] finds the series, is told to flush
    it, and reaches [flushChunks] with the series as the closing of the head
    left it ([series1]) and the list [chunks], which is not dropped as
    undersize and is not empty. *)
Definition ReachesStore (i : Ingester) (now now1 : model.Time) (userID : string)
    (fp : Fingerprint) (immediate : bool) (series series1 : memorySeries)
    (chunks : list desc) : Prop :=
  seriesAt (userStates i) userID fp = Some series
  /\ shouldFlushSeries (cfg i) now series fp immediate <> noFlush
  /\ selectChunks (cfg i) now1 series fp immediate = Some (series1, chunks)
  /\ undersize (set_userStates (writeSeries userID fp series1 (userStates i)) i)
       userID (shouldFlushSeries (cfg i) now series fp immediate) series1 chunks = false
  /\ chunks <> [].

(** [Encode] of a chunk, or [Put] of the batch, returns the error [e]. *)
Definition StoreFails (Encode : Chunk -> option error) (i : Ingester) (userID : string) (fp : Fingerprint)
    (metric : Labels) (chunks : list desc) (e : error) : Prop :=
  encodeChunks Encode userID fp metric chunks = inl e
  \/ exists wireChunks store,
       encodeChunks Encode userID fp metric chunks = inr wireChunks
       /\ chunkStore i = Some store
       /\ Put store (putLog store) wireChunks = Some e.

(** Every chunk is encoded and [Put] accepts the batch. *)
Definition StoreAccepts (Encode : Chunk -> option error) (i : Ingester) (userID : string) (fp : Fingerprint)
    (metric : Labels) (chunks : list desc) (wireChunks : list Chunk)
    (store : ChunkStore) : Prop :=
  encodeChunks Encode userID fp metric chunks = inr wireChunks
  /\ chunkStore i = Some store
  /\ Put store (putLog store) wireChunks = None.

(** Every op queued on queue [k] has a fingerprint with [fp mod n = k]. *)
Definition ShardedQs (n : Z) (qs : list PriorityQueue) : Prop :=
  forall (k : nat) q op, qs !! k = Some q -> op ∈ pq_items q ->
    Z.of_nat k = op_fp op mod n.

Definition Sharded (i : Ingester) : Prop :=
  ShardedQs (ConcurrentFlushes (cfg i)) (flushQueues i).

(** The decision table of [shouldFlushChunk] in exact arithmetic, every
    duration in nanoseconds. *)
Definition flushChunkExact (jitter : Z) (cfg : Config) (now : model.Time)
    (c : desc) (stale : bool) : flushReason :=
  if flushed c then noFlush
  else if (LastTime c - FirstTime c) * 1000000 >? MaxChunkAge cfg - jitter
  then reasonAged
  else if (now - LastUpdate c) * 1000000 >? MaxChunkIdle cfg then reasonIdle
  else if MaxStaleChunkIdle cfg >? 0
  then if stale
       then if (now - LastUpdate c) * 1000000 >? MaxStaleChunkIdle cfg
            then reasonStale else noFlush
       else noFlush
  else noFlush.

(** The sum of the [Len()] of the chunks, as a number. *)
Definition totalLen (chunks : list desc) : Z :=
  foldr (fun c acc => Len (C c) + acc) 0 chunks.

(** ** Further notions *)

(** The reasons [shouldFlushChunk] can give. *)
Definition chunkReason (r : flushReason) : Prop :=
  r = noFlush \/ r = reasonAged \/ r = reasonIdle \/ r = reasonStale.

(** The characters of a string, first to last. *)
Fixpoint chars (s : string) : list ascii :=
  match s with
  | EmptyString => []
  | String a s' => a :: chars s'
  end.

(** The op [sweepSeries] enqueues for a series. *)
Definition opFor (userID : string) (fp : Fingerprint) (series : memorySeries)
    (immediate : bool) : flushOp :=
  {| op_from := default 0 (firstTime series); op_userID := userID;
     op_fp := fp; op_immediate := immediate |}.

(** Every flush queue holds each key at most once. *)
Definition UniqueKeys (qs : list PriorityQueue) : Prop :=
  forall (k : nat) q, qs !! k = Some q -> NoDup (Key <$> pq_items q).

(** The number of chunks the series of the ingester hold. *)
Definition chunkCount (us : gmap string userState) : nat :=
  sum_list_with (fun e => length (chunkDescs e.2)) (seriesOf us).

(** The metrics of stored and dropped chunks are the same in [m] and [m']. *)
Definition sameStored (m m' : Metrics) : Prop :=
  chunkUtilization m' = chunkUtilization m
  /\ chunkLength m' = chunkLength m
  /\ chunkSize m' = chunkSize m
  /\ chunksPerUser m' = chunksPerUser m
  /\ chunkSizePerUser m' = chunkSizePerUser m
  /\ chunkAge m' = chunkAge m
  /\ droppedChunks m' = droppedChunks m.

(** An op with the key of [op] waits on queue [j]. *)
Definition Queued (qs : list PriorityQueue) (j : Z) (op : flushOp) : Prop :=
  exists q op', queueAt qs j = Some q /\ op' ∈ pq_items q /\ Key op' = Key op.

(** What a chunk descriptor holds apart from its flush reason. *)
Definition descData (d : desc)
    : Payload * model.Time * model.Time * model.Time * bool :=
  (C d, FirstTime d, LastTime d, LastUpdate d, flushed d).

(** The wire chunk [flushChunks] builds for a descriptor. *)
Definition wireOf (userID : string) (fp : Fingerprint) (metric : Labels)
    (d : desc) : Chunk :=
  NewChunk userID fp metric (C d) (FirstTime d) (LastTime d).

(** The sum of the [Size()] of the chunks. *)
Definition totalSize (chunks : list desc) : Z :=
  foldr (fun c acc => Size (C c) + acc) 0 chunks.

(** The store of the ingester is there and answers success to every
    batch. *)
Definition Accepting (i : Ingester) : Prop :=
  exists store, chunkStore i = Some store /\ forall log w, Put store log w = None.

(** No chunk of the series [(id, fp)] is in memory. *)
Definition HoldsNoChunk (us : gmap string userState) (id : string) (fp : Z) : Prop :=
  forall s, seriesAt us id fp = Some s -> chunkDescs s = [].

(** Every series in memory holds a chunk. *)
Definition NoEmptySeries (us : gmap string userState) : Prop :=
  forall id fp s, seriesAt us id fp = Some s -> chunkDescs s <> [].

(** Every queued op has a 64-bit fingerprint. *)
Definition TypedOps (qs : list PriorityQueue) : Prop :=
  forall (k : nat) q op, qs !! k = Some q -> op ∈ pq_items q -> uint64_range (op_fp op).

(** ** Sample data *)

Module Sample.

(** One hour of maximal age, twenty minutes of jitter, five minutes of
    idleness and of retention, four flush queues. *)
Definition config : Config :=
  {| ConcurrentFlushes := 4; FlushOpTimeout := 60000000000;
     MaxChunkAge := 3600000000000; ChunkAgeJitter := 1200000000000;
     MaxChunkIdle := 300000000000; MaxStaleChunkIdle := 120000000000;
     RetainPeriod := 300000000000 |}.

Definition payload (n : Z) : Payload :=
  {| payloadID := n; Len := 50; Size := 512; Utilization := 1 # 2 |}.

(** A chunk of exactly one hour, last written at its last sample. *)
Definition hourChunk : desc :=
  {| C := payload 1; FirstTime := 0; LastTime := 3600000; LastUpdate := 3600000;
     flushed := false; descFlushReason := noFlush |}.

(** A fingerprint with its highest bit set. *)
Definition highFp : Fingerprint := 2 ^ 64 - 1.

(** A store that accepts every batch, and one that refuses every batch. *)
Definition okStore : ChunkStore :=
  {| Put := fun _ _ => None; putLog := [] |}.
Definition downStore : ChunkStore :=
  {| Put := fun _ _ => Some "store unavailable"%string; putLog := [] |}.

Definition noMetrics : Metrics :=
  {| chunkUtilization := []; chunkLength := []; chunkSize := [];
     chunksPerUser := ∅; chunkSizePerUser := ∅; chunkAge := [];
     memoryChunks := 0; flushReasons := ∅; droppedChunks := 0;
     oldestUnflushedChunkTimestamp := 0 |}.

Definition emptyQueue : PriorityQueue := {| pq_items := []; pq_closed := false |}.

(** An open chunk first written at 1.5 s and last at 2.5 s. *)
Definition youngChunk : desc :=
  {| C := payload 2; FirstTime := 1500; LastTime := 2500; LastUpdate := 2500;
     flushed := false; descFlushReason := noFlush |}.

(** A chunk stored long ago. *)
Definition storedChunk : desc :=
  {| C := payload 3; FirstTime := 100; LastTime := 900; LastUpdate := 1000;
     flushed := true; descFlushReason := reasonAged |}.

Definition seriesOfChunks (l : list desc) : memorySeries :=
  {| metric := [("__name__", "up")]%string; chunkDescs := l;
     headChunkClosed := false; staleMarker := false |}.

(** One tenant with the series [s] under fingerprint 7, four empty flush
    queues, [n] chunks in memory and the undersize limit [minLen]. *)
Definition ingesterOf (store : option ChunkStore) (s : memorySeries) (n : Z)
    (minLen : Z) : Ingester :=
  {| cfg := config; limits := fun _ => minLen; chunkStore := store;
     userStates := {[ "u1"%string := {| fpToSeries := {[ 7 := s ]} |} ]};
     flushQueues := replicate 4 emptyQueue;
     metrics := set_memoryChunks n noMetrics |}.

Definition ingester : Ingester :=
  ingesterOf (Some okStore) (seriesOfChunks [youngChunk]) 1 0.

(** The same with the store down. *)
Definition ingesterDown : Ingester :=
  ingesterOf (Some downStore) (seriesOfChunks [youngChunk]) 1 0.


(** Every chunk encodes. *)
Definition encodeOk : Chunk -> option error := fun _ => None.

(** The young chunk once its head is closed for the reason [r]. *)
Definition closedChunk (r : flushReason) : desc := set_descFlushReason r youngChunk.

Definition closedSeries (r : flushReason) : memorySeries :=
  {| metric := [("__name__", "up")]%string; chunkDescs := [closedChunk r];
     headChunkClosed := true; staleMarker := false |}.

(** The wire chunk of the young chunk. *)
Definition wireChunk : Chunk :=
  NewChunk "u1" 7 [("__name__", "up")]%string (payload 2) 1500 2500.

(** A series of a chunk stored long ago and the young chunk. *)
Definition ingesterStored : Ingester :=
  ingesterOf (Some okStore) (seriesOfChunks [storedChunk; youngChunk]) 2 0.

(** The shutdown op for the series, and the ingester with the store down
    and that op waiting on queue 3. *)
Definition shutdownOp : flushOp :=
  {| op_from := 1500; op_userID := "u1"; op_fp := 7; op_immediate := true |}.

Definition shutdownQueue : PriorityQueue :=
  {| pq_items := [shutdownOp]; pq_closed := false |}.

Definition ingesterShutdown : Ingester :=
  set_flushQueues [emptyQueue; emptyQueue; emptyQueue; shutdownQueue] ingesterDown.

(** No store at all. *)
Definition ingesterNoStore : Ingester :=
  ingesterOf None (seriesOfChunks [youngChunk]) 1 0.

Definition clock : string -> Fingerprint -> model.Time := fun _ _ => 3000.

(** The readings of a worker's turn: [now] in both checks of the policy,
    [now2] for every chunk in [flushChunks] and for every chunk that is
    marked. *)
Definition readings (now now2 : model.Time) : Readings :=
  {| atRecheck := now; atHead := now;
     atStore := fun _ => now2; atMark := fun _ => now2 |}.

(** The shutdown queue once [Flush] has closed it. *)
Definition closedShutdownQueue : PriorityQueue :=
  {| pq_items := [shutdownOp]; pq_closed := true |}.


End Sample.

(** * Properties *)

(** ** Machine arithmetic *)

Lemma wrap64_id z : int64_range z -> wrap64 z = z.
Proof.
  unfold int64_range, wrap64. intros Hz.
  rewrite Z.mod_small by lia. lia.
Qed.

Lemma wrap64_range z : int64_range (wrap64 z).
Proof.
  unfold int64_range, wrap64.
  pose proof (Z.mod_pos_bound (z + 2 ^ 63) (2 ^ 64) ltac:(lia)). lia.
Qed.

Lemma wrap64_high z : 2 ^ 63 <= z < 2 ^ 64 -> wrap64 z = z - 2 ^ 64.
Proof.
  unfold wrap64. intros Hz.
  replace (z + 2 ^ 63) with ((z - 2 ^ 63) + 1 * 2 ^ 64) by lia.
  rewrite Z.mod_add by lia. rewrite Z.mod_small by lia. lia.
Qed.

Lemma wrapU64_id z : uint64_range z -> wrapU64 z = z.
Proof. unfold uint64_range, wrapU64. intros Hz. by rewrite Z.mod_small. Qed.

(** A time difference that fits a duration is the difference in
    nanoseconds. *)
Lemma Sub_exact t o :
  int64_range ((t - o) * 1000000) -> model.Sub t o = (t - o) * 1000000.
Proof.
  unfold model.Sub, model.minimumTick, time.Millisecond, int64_range. intros H.
  rewrite (wrap64_id (t - o)) by (unfold int64_range; lia).
  apply wrap64_id. unfold int64_range. lia.
Qed.

(** ** The flush policy *)

Lemma Duration_of_Fingerprint_signed fp :
  uint64_range fp ->
  Duration_of_Fingerprint fp = if fp <? 2 ^ 63 then fp else fp - 2 ^ 64.
Proof.
  unfold uint64_range, Duration_of_Fingerprint. intros Hfp.
  destruct (Z.ltb_spec fp (2 ^ 63)).
  - apply wrap64_id. unfold int64_range. lia.
  - apply wrap64_high. lia.
Qed.

Lemma chunkAgeJitter_signed cfg fp :
  uint64_range fp -> chunkAgeJitter cfg fp = jitterSigned cfg fp.
Proof.
  intros Hfp. unfold chunkAgeJitter, jitterSigned.
  by rewrite Duration_of_Fingerprint_signed.
Qed.

Lemma shouldFlushChunk_flushChunkTable cfg now c fp stale :
  shouldFlushChunk cfg now c fp stale
  = flushChunkTable (chunkAgeJitter cfg fp) cfg now c stale.
Proof.
  unfold shouldFlushChunk, flushChunkTable.
  destruct (flushed c); [done|].
  destruct (_ >? wrap64 _); [done|].
  destruct (model.Sub now (LastUpdate c) >? MaxChunkIdle cfg); [done|].
  destruct (MaxStaleChunkIdle cfg >? 0), stale; simpl; try done.
Qed.

(** Where no duration overflows, the checks of [shouldFlushChunk] are the
    inequalities of the specification read in exact arithmetic. *)
Lemma flushChunkTable_exact jitter cfg now c stale :
  int64_range ((LastTime c - FirstTime c) * 1000000) ->
  int64_range ((now - LastUpdate c) * 1000000) ->
  int64_range (MaxChunkAge cfg - jitter) ->
  flushChunkTable jitter cfg now c stale = flushChunkExact jitter cfg now c stale.
Proof.
  intros Hage Hidle Hmax. unfold flushChunkTable, flushChunkExact.
  rewrite !Sub_exact by done. by rewrite (wrap64_id (MaxChunkAge cfg - jitter)).
Qed.

(** Where the lengths are sample counts, [chunkLength] of the undersize test
    is their sum. *)
Lemma sumLen_exact chunks :
  Forall (fun c => 0 <= Len (C c) < 2 ^ 31) chunks ->
  Z.of_nat (length chunks) < 2 ^ 31 ->
  sumLen chunks = totalLen chunks.
Proof.
  intros Hall Hlen. unfold sumLen.
  assert (forall acc,
             0 <= acc ->
             acc + Z.of_nat (length chunks) * 2 ^ 31 < 2 ^ 63 ->
             fold_left (fun acc c => wrap64 (acc + Len (C c))) chunks acc
             = acc + totalLen chunks) as Hgen.
  { clear Hlen. induction Hall as [|c chunks Hc Hall IH]; intros acc Hacc Hbound; simpl.
    - lia.
    - rewrite wrap64_id by (unfold int64_range; simpl length in Hbound; lia).
      rewrite IH; [lia|lia|]. simpl length in Hbound. lia. }
  rewrite Hgen; [lia|lia|]. nia.
Qed.

(** C1. [shouldFlushSeries] follows the four steps of the specification:
    no chunks gives NoFlush; otherwise [immediate] gives Immediate;
    otherwise more than one chunk with an unflushed oldest chunk gives that
    chunk's recorded [flushReason] when it is set and MultipleChunksInSeries
    when it is not; otherwise the answer is that of [shouldFlushChunk] on
    the oldest chunk with [series.isStale()]. The steps admit one reason
    only, and it is the one the function returns. *)
Theorem shouldFlushSeries_steps cfg now series fp immediate r :
  SeriesFlushSpec cfg now series fp immediate r
  <-> r = shouldFlushSeries cfg now series fp immediate.
Proof.
  unfold shouldFlushSeries. split.
  - intros H. destruct H as [He | Hne Hi | c0 Hi H0 Hlen Hf Hr
                              | c0 Hi H0 Hlen Hf Hr | c0 Hi H0 Hn].
    + by rewrite He.
    + destruct (chunkDescs series); [done|]. by rewrite Hi.
    + destruct (chunkDescs series) as [|c l] eqn:E; [done|].
      simpl in H0. injection H0 as ->. rewrite Hi, Hf. simpl.
      destruct (Z.ltb_spec 1 (Z.of_nat (S (length l)))); [|simpl in *; lia].
      simpl. by destruct (decide _).
    + destruct (chunkDescs series) as [|c l] eqn:E; [done|].
      simpl in H0. injection H0 as ->. rewrite Hi, Hf. simpl.
      destruct (Z.ltb_spec 1 (Z.of_nat (S (length l)))); [|simpl in *; lia].
      simpl. by destruct (decide _).
    + destruct (chunkDescs series) as [|c l] eqn:E; [done|].
      simpl in H0. injection H0 as ->. rewrite Hi.
      destruct (Z.ltb_spec 1 (Z.of_nat (length (c0 :: l)))) as [Hl|Hl];
        destruct (flushed c0) eqn:Hf; simpl; try done.
      exfalso. apply Hn. split; [lia|done].
  - intros ->. destruct (chunkDescs series) as [|c0 l] eqn:E.
    + by apply SFS_empty.
    + destruct immediate eqn:Hi.
      * apply SFS_immediate; [by rewrite E|done].
      * destruct (Z.ltb_spec 1 (Z.of_nat (length (c0 :: l)))) as [Hl|Hl];
          destruct (flushed c0) eqn:Hf; simpl.
        -- apply SFS_chunk with (c0 := c0); [done|by rewrite E|].
           intros [_ ?]. congruence.
        -- destruct (decide (descFlushReason c0 <> noFlush)) as [Hr|Hr].
           ++ apply SFS_recorded; [done|by rewrite E|rewrite E; lia|done|done].
           ++ apply SFS_multiple with (c0 := c0);
                [done|by rewrite E|rewrite E; lia|done|].
              by destruct (decide (descFlushReason c0 = noFlush)).
        -- apply SFS_chunk with (c0 := c0); [done|by rewrite E|].
           intros [? _]. rewrite E in *. lia.
        -- apply SFS_chunk with (c0 := c0); [done|by rewrite E|].
           intros [? _]. rewrite E in *. lia.
Qed.

(** C2, as stated, fails: for a fingerprint at or above 2^63 the jitter of
    the code is not [fp mod ChunkAgeJitter]. A chunk of exactly one hour is
    Aged under the stated jitter and is not flushed by the code. *)
Lemma shouldFlushChunk_stated_jitter_fails :
  shouldFlushChunk Sample.config 3600000 Sample.hourChunk Sample.highFp false
  <> flushChunkTable (jitterStated Sample.config Sample.highFp)
       Sample.config 3600000 Sample.hourChunk false.
Proof. vm_compute. discriminate. Qed.

(** C2, amended. [shouldFlushChunk] returns NoFlush for a flushed chunk and
    otherwise applies, in this order, the checks Aged
    ([LastTime - FirstTime > MaxChunkAge - jitter]), Idle
    ([now - LastUpdate > MaxChunkIdle]) and Stale ([MaxStaleChunkIdle > 0],
    stale, [now - LastUpdate > MaxStaleChunkIdle]), else NoFlush, where the
    jitter is 0 when [ChunkAgeJitter] is 0 and otherwise the remainder,
    truncated towards zero, of the fingerprint read as a signed 64-bit
    number by [ChunkAgeJitter]. For [ChunkAgeJitter > 0] and [fp < 2^63]
    that is [fp mod ChunkAgeJitter]; for [fp >= 2^63] it is zero or
    negative. *)
Theorem shouldFlushChunk_checks cfg now c fp stale :
  uint64_range fp ->
  shouldFlushChunk cfg now c fp stale
    = flushChunkTable (jitterSigned cfg fp) cfg now c stale
  /\ (0 < ChunkAgeJitter cfg -> fp < 2 ^ 63 ->
      jitterSigned cfg fp = jitterStated cfg fp)
  /\ (0 < ChunkAgeJitter cfg -> 2 ^ 63 <= fp -> jitterSigned cfg fp <= 0).
Proof.
  intros Hfp. split; [|split].
  - rewrite shouldFlushChunk_flushChunkTable. by rewrite chunkAgeJitter_signed.
  - intros HJ Hlt. unfold jitterSigned, jitterStated, uint64_range in *.
    destruct (Z.eqb_spec (ChunkAgeJitter cfg) 0); [lia|].
    destruct (Z.gtb_spec (ChunkAgeJitter cfg) 0); [|lia].
    destruct (Z.ltb_spec fp (2 ^ 63)); [|lia].
    apply Z.rem_mod_nonneg; lia.
  - intros HJ Hge. unfold jitterSigned, uint64_range in *.
    destruct (Z.eqb_spec (ChunkAgeJitter cfg) 0); [lia|].
    destruct (Z.ltb_spec fp (2 ^ 63)); [lia|].
    apply Z.rem_nonpos; lia.
Qed.

(** The check of C2 at a fingerprint above 2^63. *)
Lemma shouldFlushChunk_checks_witness :
  shouldFlushChunk Sample.config 3600000 Sample.hourChunk Sample.highFp false
    = flushChunkTable (jitterSigned Sample.config Sample.highFp)
        Sample.config 3600000 Sample.hourChunk false
  /\ (0 < ChunkAgeJitter Sample.config -> Sample.highFp < 2 ^ 63 ->
      jitterSigned Sample.config Sample.highFp = jitterStated Sample.config Sample.highFp)
  /\ (0 < ChunkAgeJitter Sample.config -> 2 ^ 63 <= Sample.highFp ->
      jitterSigned Sample.config Sample.highFp <= 0).
Proof.
  apply (shouldFlushChunk_checks Sample.config 3600000 Sample.hourChunk Sample.highFp false).
  unfold uint64_range, Sample.highFp. lia.
Defined.

(** ** Writes through the series and tenant pointers *)

Lemma writeSeries_lookup userID fp s us u :
  us !! userID = Some u ->
  writeSeries userID fp s us !! userID
  = Some {| fpToSeries := alter (fun _ => s) fp (fpToSeries u) |}.
Proof. intros Hu. unfold writeSeries. by rewrite lookup_alter_eq, Hu. Qed.

Lemma writeSeries_lookup_ne userID fp s us id :
  id <> userID -> writeSeries userID fp s us !! id = us !! id.
Proof. intros Hne. unfold writeSeries. by rewrite lookup_alter_ne. Qed.

Lemma dropSeries_lookup userID fp us u :
  us !! userID = Some u ->
  dropSeries userID fp us !! userID = Some (removeSeries fp u).
Proof. intros Hu. unfold dropSeries. by rewrite lookup_alter_eq, Hu. Qed.

Lemma dropSeries_lookup_ne userID fp us id :
  id <> userID -> dropSeries userID fp us !! id = us !! id.
Proof. intros Hne. unfold dropSeries. by rewrite lookup_alter_ne. Qed.

(** ** The retention reaper *)

Lemma reapable_Reapable cfg now c : reapable cfg now c = true <-> Reapable cfg now c.
Proof.
  unfold reapable, Reapable. rewrite andb_true_iff.
  destruct (Z.gtb_spec (model.Sub now (LastUpdate c)) (RetainPeriod cfg)); split;
    intros [? ?]; split; try done; lia.
Qed.

Lemma reapLoop_prefix cfg now l mc :
  exists removed,
    l = removed ++ (reapLoop cfg now l mc).1
    /\ Forall (Reapable cfg now) removed
    /\ (forall c, head (reapLoop cfg now l mc).1 = Some c -> ~ Reapable cfg now c)
    /\ (reapLoop cfg now l mc).2 = mc - Z.of_nat (length removed).
Proof.
  revert mc. induction l as [|c l IH]; intros mc; simpl.
  - exists []. repeat split; [constructor|done|simpl; lia].
  - destruct (reapable cfg now c) eqn:Hc.
    + destruct (IH (mc - 1)) as (removed & Hl & Hall & Hhd & Hmc).
      exists (c :: removed). repeat split.
      * simpl. by rewrite <- Hl.
      * constructor; [by apply reapable_Reapable|done].
      * done.
      * rewrite Hmc. simpl length. lia.
    + exists []. repeat split; [constructor| |simpl; lia].
      intros c' [= <-]. rewrite <- reapable_Reapable. by rewrite Hc.
Qed.

(** Reaping drops flushed chunks only: the first unflushed chunk stays. *)
Lemma reapLoop_firstUnflushed cfg now l mc :
  firstUnflushed (reapLoop cfg now l mc).1 = firstUnflushed l.
Proof.
  revert mc. induction l as [|c l IH]; intros mc; simpl; [done|].
  destruct (reapable cfg now c) eqn:Hc; [|done].
  rewrite IH. apply andb_true_iff in Hc as [-> _]. done.
Qed.

(** C5. [removeFlushedChunks] removes from the front of [chunkDescs] exactly
    the longest prefix whose chunks all have [flushed = true] and
    [now - LastUpdate > RetainPeriod]: the chunks are the removed prefix
    followed by what is left, every removed chunk satisfies the condition,
    and the first chunk left, if any, does not. [memoryChunks] decreases by
    one per removed chunk. A series left without chunks is removed from its
    userState, any other stays with the chunks left, and no other series is
    touched. So a chunk is evicted only when it is flushed and more than
    [RetainPeriod] lies between its [LastUpdate] and now. *)
Theorem removeFlushedChunks_longest_prefix i now userID fp series u :
  userStates i !! userID = Some u ->
  fpToSeries u !! fp = Some series ->
  exists removed u',
    chunkDescs series = removed ++ chunkDescs (removeFlushedChunks i now userID fp series).2
    /\ Forall (Reapable (cfg i) now) removed
    /\ (forall c, head (chunkDescs (removeFlushedChunks i now userID fp series).2) = Some c ->
        ~ Reapable (cfg i) now c)
    /\ memoryChunks (metrics (removeFlushedChunks i now userID fp series).1)
       = memoryChunks (metrics i) - Z.of_nat (length removed)
    /\ userStates (removeFlushedChunks i now userID fp series).1 !! userID = Some u'
    /\ fpToSeries u' !! fp
       = (if decide (chunkDescs (removeFlushedChunks i now userID fp series).2 = [])
          then None
          else Some (removeFlushedChunks i now userID fp series).2)
    /\ (forall fp', fp' <> fp -> fpToSeries u' !! fp' = fpToSeries u !! fp')
    /\ (forall id, id <> userID ->
        userStates (removeFlushedChunks i now userID fp series).1 !! id = userStates i !! id).
Proof.
  intros Hu Hs. unfold removeFlushedChunks.
  destruct (reapLoop_prefix (cfg i) now (chunkDescs series) (memoryChunks (metrics i)))
    as (removed & Hl & Hall & Hhd & Hmc).
  destruct (reapLoop (cfg i) now (chunkDescs series) (memoryChunks (metrics i)))
    as [l mc] eqn:E. simpl in Hl, Hhd, Hmc.
  exists removed.
  destruct (Z.eqb_spec (Z.of_nat (length l)) 0) as [Hz|Hz]; simpl.
  - assert (l = []) as -> by (destruct l; simpl in *; [done|lia]).
    exists (removeSeries fp
              {| fpToSeries := alter (fun _ => set_chunkDescs [] series) fp (fpToSeries u) |}).
    repeat split; try done.
    + erewrite dropSeries_lookup; [done|]. by apply writeSeries_lookup.
    + simpl. by rewrite lookup_delete_eq.
    + intros fp' Hne. simpl. rewrite lookup_delete_ne by done.
      by rewrite lookup_alter_ne.
    + intros id Hne. rewrite dropSeries_lookup_ne by done.
      by rewrite writeSeries_lookup_ne.
  - assert (l <> []) by (intros ->; simpl in *; lia).
    exists {| fpToSeries := alter (fun _ => set_chunkDescs l series) fp (fpToSeries u) |}.
    repeat split; try done.
    + by apply writeSeries_lookup.
    + simpl. rewrite lookup_alter_eq, Hs. simpl.
      by destruct (decide (l = [])).
    + intros fp' Hne. simpl. by rewrite lookup_alter_ne.
    + intros id Hne. by rewrite writeSeries_lookup_ne.
Qed.

(** ** The series of the ingester *)

Lemma seriesAt_writeSeries userID fp s us id fp' :
  seriesAt (writeSeries userID fp s us) id fp'
  = if decide (id = userID /\ fp' = fp)
    then (fun _ => s) <$> seriesAt us userID fp
    else seriesAt us id fp'.
Proof.
  unfold seriesAt, writeSeries. destruct (decide (id = userID)) as [->|Hid].
  - rewrite lookup_alter_eq. destruct (us !! userID) as [u|]; simpl.
    + destruct (decide (fp' = fp)) as [->|Hfp].
      * rewrite decide_True by done. by rewrite lookup_alter_eq.
      * rewrite decide_False by (intros [? ?]; congruence). by rewrite lookup_alter_ne.
    + by destruct (decide _).
  - rewrite decide_False by (intros [? ?]; congruence). by rewrite lookup_alter_ne.
Qed.

Lemma seriesAt_dropSeries userID fp us id fp' :
  seriesAt (dropSeries userID fp us) id fp'
  = if decide (id = userID /\ fp' = fp) then None else seriesAt us id fp'.
Proof.
  unfold seriesAt, dropSeries. destruct (decide (id = userID)) as [->|Hid].
  - rewrite lookup_alter_eq. destruct (us !! userID) as [u|]; simpl.
    + destruct (decide (fp' = fp)) as [->|Hfp].
      * rewrite decide_True by done. by rewrite lookup_delete_eq.
      * rewrite decide_False by (intros [? ?]; congruence). by rewrite lookup_delete_ne.
    + by destruct (decide _).
  - rewrite decide_False by (intros [? ?]; congruence). by rewrite lookup_alter_ne.
Qed.

Lemma elem_of_seriesOf us id fp s :
  (id, fp, s) ∈ seriesOf us <-> seriesAt us id fp = Some s.
Proof.
  unfold seriesOf, seriesAt. rewrite list_elem_of_bind. split.
  - intros ([id' u] & Hin & Hu). apply elem_of_map_to_list in Hu.
    apply list_elem_of_bind in Hin as ([fp' s'] & Hin & Hs).
    apply elem_of_map_to_list in Hs. apply list_elem_of_singleton in Hin.
    injection Hin as -> -> ->. by rewrite Hu.
  - destruct (us !! id) as [u|] eqn:Hu; simpl; [|done]. intros Hs.
    exists (id, u). split; [|by apply elem_of_map_to_list].
    apply list_elem_of_bind. exists (fp, s).
    split; [by apply list_elem_of_singleton|by apply elem_of_map_to_list].
Qed.

Lemma NoDup_seriesOf_keys us : NoDup ((fun e => e.1) <$> seriesOf us).
Proof.
  apply NoDup_fmap_2_strong.
  - intros [[id fp] s] [[id' fp'] s'] H1 H2 Hk. simpl in Hk.
    injection Hk as <- <-. apply elem_of_seriesOf in H1, H2.
    rewrite H1 in H2. by injection H2 as ->.
  - unfold seriesOf. apply NoDup_bind.
    + intros [id u] [id' u'] [[k fp] s] Hu Hu' H1 H2.
      apply list_elem_of_bind in H1 as ([? ?] & H1 & _).
      apply list_elem_of_bind in H2 as ([? ?] & H2 & _).
      apply list_elem_of_singleton in H1, H2.
      injection H1 as -> _ _. injection H2 as -> _ _.
      apply elem_of_map_to_list in Hu, Hu'. congruence.
    + intros [id u] _. apply NoDup_bind; [| |apply NoDup_map_to_list].
      * intros [fp s] [fp' s'] [[k fq] t] _ _ H1 H2.
        apply list_elem_of_singleton in H1, H2. congruence.
      * intros [fp s] _. apply NoDup_singleton.
    + apply NoDup_map_to_list.
Qed.

(** ** The sweep: a nil store *)

(** C10. With a nil [chunkStore], [sweepUsers] returns at once and leaves
    the ingester as it was: no op is enqueued, no chunk reaped, no series
    removed, the oldest-unflushed gauge not set. So [Flush()] only closes
    the queues, whose contents, like the series and the metrics, stay as
    they were, and the flush handler only answers 204. *)
Theorem sweepUsers_nil_store i clock immediate :
  chunkStore i = None ->
  sweepUsers i clock immediate = Some i
  /\ FlushHandler i clock = Some (i, 204)
  /\ exists i', Flush i clock = Some i'
       /\ userStates i' = userStates i
       /\ metrics i' = metrics i
       /\ pq_items <$> flushQueues i' = pq_items <$> flushQueues i.
Proof.
  intros Hnil.
  assert (forall b, sweepUsers i clock b = Some i) as Hsweep.
  { intros b. unfold sweepUsers. by rewrite Hnil. }
  split; [apply Hsweep|]. split.
  - unfold FlushHandler. by rewrite Hsweep.
  - unfold Flush. rewrite Hsweep. simpl. eexists. split; [done|].
    repeat split. simpl. rewrite <- list_fmap_compose.
    by apply list_fmap_ext.
Qed.

(** ** The sweep: the oldest unflushed chunk *)







Lemma reapLoop_fst cfg now l mc mc' :
  (reapLoop cfg now l mc).1 = (reapLoop cfg now l mc').1.
Proof.
  revert mc mc'. induction l as [|c l IH]; intros mc mc'; simpl; [done|].
  destruct (reapable cfg now c); [apply IH|done].
Qed.




(** *** What one turn of the sweep changes *)

Lemma pq_insert_elem_of op l x : x ∈ pq_insert op l <-> x = op \/ x ∈ l.
Proof.
  induction l as [|y l IH]; simpl.
  - rewrite list_elem_of_singleton. split; [by left|]. intros [?|H]; [done|].
    by apply elem_of_nil in H.
  - destruct (Priority y <? Priority op).
    + by rewrite elem_of_cons.
    + rewrite !elem_of_cons, IH. tauto.
Qed.

Lemma Enqueue_elem_of q op x :
  x ∈ pq_items (Enqueue q op).1 -> x = op \/ x ∈ pq_items q.
Proof.
  unfold Enqueue. destruct (pq_has _ _); simpl; [by right|].
  by rewrite pq_insert_elem_of.
Qed.

Lemma sweepSeries_inv i now userID fp series immediate i' :
  sweepSeries i now userID fp series immediate = Some i' ->
  userStates i' = userStates i /\ cfg i' = cfg i /\ chunkStore i' = chunkStore i
  /\ limits i' = limits i
  /\ memoryChunks (metrics i') = memoryChunks (metrics i)
  /\ (flushQueues i' = flushQueues i
      \/ exists j q op,
           flushQueueIndexOf (cfg i) fp = Some j
           /\ queueAt (flushQueues i) j = Some q
           /\ op_fp op = fp /\ op_userID op = userID /\ op_immediate op = immediate
           /\ firstTime series = Some (op_from op)
           /\ flushQueues i' = <[Z.to_nat j := (Enqueue q op).1]> (flushQueues i)).
Proof.
  unfold sweepSeries. destruct (_ <=? 0); [intros [= <-]; tauto|].
  destruct (firstTime series) as [ft|]; simpl; [|done].
  destruct (decide _); [intros [= <-]; tauto|].
  destruct (flushQueueIndexOf (cfg i) fp) as [j|] eqn:Hj; simpl; [|done].
  unfold enqueueAt. destruct (queueAt (flushQueues i) j) as [q|] eqn:Hq; simpl; [|done].
  destruct (Enqueue q _) as [q' added] eqn:HE. simpl.
  assert (q' = (Enqueue q {| op_from := ft; op_userID := userID; op_fp := fp;
                             op_immediate := immediate |}).1) as Hq'
    by (by rewrite HE).
  destruct added; intros [= <-]; simpl; repeat split; right;
    eexists j, q, _; rewrite Hq'; repeat split; done.
Qed.

Lemma removeFlushedChunks_inv i now userID fp series :
  cfg (removeFlushedChunks i now userID fp series).1 = cfg i
  /\ chunkStore (removeFlushedChunks i now userID fp series).1 = chunkStore i
  /\ limits (removeFlushedChunks i now userID fp series).1 = limits i
  /\ flushQueues (removeFlushedChunks i now userID fp series).1 = flushQueues i
  /\ firstUnflushedChunkTime (removeFlushedChunks i now userID fp series).2
     = firstUnflushedChunkTime series
  /\ (seriesAt (userStates i) userID fp = Some series ->
      forall id fp',
        seriesAt (userStates (removeFlushedChunks i now userID fp series).1) id fp'
        = if decide (id = userID /\ fp' = fp) then reaped (cfg i) now series
          else seriesAt (userStates i) id fp').
Proof.
  unfold removeFlushedChunks.
  pose proof (reapLoop_fst (cfg i) now (chunkDescs series) (memoryChunks (metrics i)) 0) as Hfst.
  pose proof (reapLoop_firstUnflushed (cfg i) now (chunkDescs series)
                (memoryChunks (metrics i))) as Hfu.
  destruct (reapLoop (cfg i) now (chunkDescs series) (memoryChunks (metrics i)))
    as [l mc] eqn:E. simpl in Hfst, Hfu.
  assert (l = reapChunks (cfg i) now (chunkDescs series)) as Hl by done.
  destruct (Z.eqb_spec (Z.of_nat (length l)) 0) as [Hz|Hz]; simpl;
    repeat split; try done.
  - assert (l = []) as Hnil by (destruct l; simpl in *; [done|lia]).
    intros Hs id fp'. rewrite seriesAt_dropSeries.
    destruct (decide _) as [?|Hne].
    + unfold reaped. rewrite <- Hl, Hnil. by rewrite decide_True.
    + rewrite seriesAt_writeSeries. by rewrite decide_False.
  - assert (l <> []) as Hnn by (intros ->; simpl in *; lia).
    intros Hs id fp'. rewrite seriesAt_writeSeries.
    destruct (decide _) as [?|Hne]; [|done].
    rewrite Hs. simpl. unfold reaped. rewrite <- Hl. by rewrite decide_False.
Qed.

Lemma sweepPair_inv immediate clock i o id fp series i' o' :
  sweepPair immediate clock (i, o) (id, fp, series) = Some (i', o') ->
  exists i1,
    sweepSeries i (clock id fp) id fp series immediate = Some i1
    /\ i' = (removeFlushedChunks i1 (clock id fp) id fp series).1
    /\ o' = stepOldest o (firstUnflushedChunkTime series).
Proof.
  unfold sweepPair.
  destruct (sweepSeries i (clock id fp) id fp series immediate) as [i1|]; simpl; [|done].
  pose proof (removeFlushedChunks_inv i1 (clock id fp) id fp series)
    as (_ & _ & _ & _ & Hfu & _).
  destruct (removeFlushedChunks i1 (clock id fp) id fp series) as [i2 s'] eqn:E.
  simpl in Hfu. rewrite Hfu. unfold stepOldest.
  intros H. exists i1. split; [done|]. rewrite E. simpl. revert H.
  destruct ((firstUnflushedChunkTime series >? 0) && _);
    intros [= <- <-]; by split.
Qed.

Lemma sweepPairs_inv immediate clock entries : forall i o i' o',
  NoDup ((fun e => e.1) <$> entries) ->
  (forall id fp s, (id, fp, s) ∈ entries -> seriesAt (userStates i) id fp = Some s) ->
  sweepPairs immediate clock entries (i, o) = Some (i', o') ->
  cfg i' = cfg i /\ chunkStore i' = chunkStore i /\ limits i' = limits i
  /\ o' = fold_left stepOldest ((fun e => firstUnflushedChunkTime e.2) <$> entries) o
  /\ (forall id fp s, (id, fp, s) ∈ entries ->
      seriesAt (userStates i') id fp = reaped (cfg i) (clock id fp) s)
  /\ (forall id fp, (id, fp) ∉ (fun e => e.1) <$> entries ->
      seriesAt (userStates i') id fp = seriesAt (userStates i) id fp).
Proof.
  induction entries as [|[[id fp] series] entries IH]; intros i o i' o' Hnd Hin;
    cbn [sweepPairs].
  - intros [= <- <-]. repeat split; try done.
    intros ??? H. by apply elem_of_nil in H.
  - destruct (sweepPair immediate clock (i, o) (id, fp, series)) as [[i2 o2]|] eqn:Hp;
      [|done]. cbn [mbind option_bind].
    apply sweepPair_inv in Hp as (i1 & Hss & -> & ->).
    apply sweepSeries_inv in Hss as (Hus & Hcfg & Hst & Hlim & _ & _).
    pose proof (removeFlushedChunks_inv i1 (clock id fp) id fp series)
      as (Hcfg2 & Hst2 & Hlim2 & _ & _ & Hat).
    rewrite Hus, Hcfg in Hat.
    specialize (Hat (Hin id fp series ltac:(left))).
    simpl in Hnd. apply NoDup_cons in Hnd as [Hnotin Hnd].
    intros Hrest. apply IH in Hrest as (Hc & Hs & Hl & Ho & Hentries & Hothers); [|done|].
    + repeat split.
      * congruence.
      * congruence.
      * congruence.
      * done.
      * intros id' fp' s' He. apply elem_of_cons in He as [[= -> -> ->]|He].
        -- rewrite Hothers by done. rewrite Hat. by rewrite decide_True.
        -- rewrite (Hentries _ _ _ He). by rewrite Hcfg2, Hcfg.
      * intros id' fp' Hni. rewrite Hothers.
        -- rewrite Hat. rewrite decide_False; [done|].
           intros [-> ->]. apply Hni. simpl. left.
        -- intros ?. apply Hni. simpl. by right.
    + intros id' fp' s' He. rewrite Hat. rewrite decide_False.
      * apply Hin. by right.
      * intros [-> ->]. apply Hnotin.
        apply list_elem_of_fmap. by exists (id, fp, s').
Qed.







(** ** The flush executor *)

Lemma seriesAt_Some us id fp s :
  seriesAt us id fp = Some s <-> exists u, us !! id = Some u /\ fpToSeries u !! fp = Some s.
Proof.
  unfold seriesAt. destruct (us !! id) as [u|]; simpl.
  - split; [by exists u|]. by intros (u' & [= <-] & ?).
  - split; [done|]. by intros (? & ? & _).
Qed.

Lemma selectChunks_closes cfg now series fp immediate series1 chunks :
  selectChunks cfg now series fp immediate = Some (series1, chunks) ->
  (series1 = series \/ exists r, series1 = closeHead r series)
  /\ chunks = take (length chunks) (chunkDescs series1)
  /\ (length chunks <= length (chunkDescs series1))%nat.
Proof.
  unfold selectChunks. destruct immediate.
  - intros [= <- <-]. split; [right; by eexists|].
    split; [by rewrite firstn_all|done].
  - destruct (seriesHead series) as [h|]; simpl; [|done].
    destruct (decide _).
    + intros [= <- <-]. split; [right; by eexists|].
      split; [by rewrite firstn_all|done].
    + intros [= <- <-]. split; [by left|].
      rewrite length_take. split; [|lia].
      f_equal. lia.
Qed.

Lemma fmap_alter_same {A B} (g : A -> B) (f : A -> A) (l : list A) (n : nat) :
  (forall x, g (f x) = g x) -> g <$> alter f n l = g <$> l.
Proof.
  intros Hgf. revert n. induction l as [|x l IH]; intros n; [done|].
  destruct n as [|n]; csimpl; [by rewrite Hgf|]. by rewrite IH.
Qed.

Lemma closeHead_flushed r s :
  flushed <$> chunkDescs (closeHead r s) = flushed <$> chunkDescs s
  /\ LastUpdate <$> chunkDescs (closeHead r s) = LastUpdate <$> chunkDescs s
  /\ length (chunkDescs (closeHead r s)) = length (chunkDescs s).
Proof.
  unfold closeHead. simpl. split; [|split].
  - by apply fmap_alter_same.
  - by apply fmap_alter_same.
  - apply length_alter.
Qed.

Section ExecutorProperties.

Variable Encode : Chunk -> option error.

Lemma encodeChunks_inl userID fp metric chunks e :
  encodeChunks Encode userID fp metric chunks = inl e ->
  exists d, d ∈ chunks
    /\ Encode (NewChunk userID fp metric (C d) (FirstTime d) (LastTime d)) = Some e.
Proof.
  induction chunks as [|d chunks IH]; simpl; [done|].
  destruct (Encode _) as [e'|] eqn:He.
  - intros [= ->]. exists d. split; [left|done].
  - destruct (encodeChunks Encode userID fp metric chunks); [|done].
    intros [= ->]. destruct IH as (d' & ? & ?); [done|].
    exists d'. split; [by right|done].
Qed.

Lemma encodeChunks_inr userID fp metric chunks wireChunks :
  encodeChunks Encode userID fp metric chunks = inr wireChunks ->
  wireChunks
  = (fun d => NewChunk userID fp metric (C d) (FirstTime d) (LastTime d)) <$> chunks.
Proof.
  revert wireChunks. induction chunks as [|d chunks IH]; simpl; intros w.
  - by intros [= <-].
  - destruct (Encode _); [done|].
    destruct (encodeChunks Encode userID fp metric chunks); [done|].
    intros [= <-]. f_equal. by apply IH.
Qed.

Lemma flushChunks_inv i (now : nat -> model.Time) userID fp metric chunks i2 err :
  flushChunks Encode i now userID fp metric chunks = Some (i2, err) ->
  (exists e, encodeChunks Encode userID fp metric chunks = inl e
             /\ err = Some e /\ i2 = i)
  \/ exists wireChunks store,
       encodeChunks Encode userID fp metric chunks = inr wireChunks
       /\ chunkStore i = Some store
       /\ ((exists e, Put store (putLog store) wireChunks = Some e /\ err = Some e
              /\ i2 = set_chunkStore
                        (Some {| Put := Put store;
                                 putLog := putLog store ++ [wireChunks] |}) i)
           \/ (Put store (putLog store) wireChunks = None /\ err = None
               /\ i2 = set_metrics
                         (observeLoop userID now 0 chunks (metrics i))
                         (set_chunkStore
                            (Some {| Put := Put store;
                                     putLog := putLog store ++ [wireChunks] |}) i))).
Proof.
  unfold flushChunks.
  destruct (encodeChunks Encode userID fp metric chunks) as [e|wire] eqn:Henc.
  - intros [= <- <-]. left. by exists e.
  - destruct (chunkStore i) as [store|] eqn:Hst; [|done]. cbn [mbind option_bind].
    destruct (Put store (putLog store) wire) as [e|] eqn:Hput.
    + intros [= <- <-]. right. exists wire, store. repeat split.
      left. by exists e.
    + intros [= <- <-]. right. exists wire, store. repeat split.
      right. by repeat split.
Qed.

(** [flushUserSeries] on the path where the series is found and is to be
    flushed. *)
Lemma flushUserSeries_run i now now1 now2 now3 j userID fp immediate
    series series1 chunks :
  seriesAt (userStates i) userID fp = Some series ->
  shouldFlushSeries (cfg i) now series fp immediate <> noFlush ->
  selectChunks (cfg i) now1 series fp immediate = Some (series1, chunks) ->
  flushUserSeries Encode i now now1 now2 now3 j userID fp immediate
  = let i1 := set_userStates (writeSeries userID fp series1 (userStates i)) i in
    if undersize i1 userID (shouldFlushSeries (cfg i) now series fp immediate)
         series1 chunks
    then Some (dropUndersize i1 userID fp chunks, None)
    else if Z.of_nat (length chunks) =? 0 then Some (i1, None)
    else
      '(i2, err) ← flushChunks Encode i1 now2 userID fp (metric series1) chunks;
      match err with
      | Some e => Some (i2, Some e)
      | None => Some (afterStored i2 now3 userID fp immediate series1 chunks, None)
      end.
Proof.
  intros Hs Hr Hsel. apply seriesAt_Some in Hs as (u & Hu & Hs).
  unfold flushUserSeries. rewrite Hu. cbv beta iota. rewrite Hs. cbv beta iota zeta.
  rewrite decide_False by done. by rewrite Hsel.
Qed.

(** What [flushUserSeries] returns and leaves, by the path it takes. *)
Lemma flushUserSeries_inv i now now1 now2 now3 j userID fp immediate i' err :
  flushUserSeries Encode i now now1 now2 now3 j userID fp immediate = Some (i', err) ->
  (i' = i /\ err = None
   /\ (seriesAt (userStates i) userID fp = None
       \/ exists series, seriesAt (userStates i) userID fp = Some series
            /\ shouldFlushSeries (cfg i) now series fp immediate = noFlush))
  \/ exists series series1 chunks,
       seriesAt (userStates i) userID fp = Some series
       /\ shouldFlushSeries (cfg i) now series fp immediate <> noFlush
       /\ selectChunks (cfg i) now1 series fp immediate = Some (series1, chunks)
       /\ let i1 := set_userStates (writeSeries userID fp series1 (userStates i)) i in
          let reason := shouldFlushSeries (cfg i) now series fp immediate in
          (undersize i1 userID reason series1 chunks = true
           /\ i' = dropUndersize i1 userID fp chunks /\ err = None)
          \/ (undersize i1 userID reason series1 chunks = false
              /\ chunks = [] /\ i' = i1 /\ err = None)
          \/ (undersize i1 userID reason series1 chunks = false
              /\ chunks <> []
              /\ exists i2 err2,
                   flushChunks Encode i1 now2 userID fp (metric series1) chunks
                   = Some (i2, err2)
                   /\ err = err2
                   /\ i' = match err2 with
                           | Some _ => i2
                           | None => afterStored i2 now3 userID fp immediate
                                       series1 chunks
                           end).
Proof.
  intros Hrun.
  destruct (seriesAt (userStates i) userID fp) as [series|] eqn:Hs.
  - destruct (decide (shouldFlushSeries (cfg i) now series fp immediate = noFlush))
      as [Hr|Hr].
    + left. apply seriesAt_Some in Hs as (u & Hu & Hs').
      unfold flushUserSeries in Hrun. rewrite Hu in Hrun. cbv beta iota in Hrun.
      rewrite Hs' in Hrun. cbv beta iota zeta in Hrun.
      rewrite decide_True in Hrun by done. injection Hrun as <- <-.
      repeat split. right. exists series. by split.
    + right. exists series.
      destruct (selectChunks (cfg i) now1 series fp immediate) as [[series1 chunks]|]
        eqn:Hsel.
      * exists series1, chunks. repeat split; try done.
        rewrite (flushUserSeries_run _ _ _ _ _ _ _ _ _ _ _ _ Hs Hr Hsel) in Hrun.
        cbv zeta in Hrun. cbv zeta.
        destruct (undersize _ _ _ _ _).
        { injection Hrun as <- <-. by left. }
        right. destruct (Z.eqb_spec (Z.of_nat (length chunks)) 0) as [Hz|Hz].
        { injection Hrun as <- <-. left. repeat split.
          destruct chunks; simpl in *; [done|lia]. }
        right. split; [done|]. split; [intros ->; simpl in *; lia|].
        destruct (flushChunks Encode _ now2 userID fp (metric series1) chunks)
          as [[i2 err2]|]; [|done].
        cbn [mbind option_bind] in Hrun. exists i2, err2. split; [done|].
        destruct err2; injection Hrun as <- <-; by split.
      * apply seriesAt_Some in Hs as (u & Hu & Hs').
        unfold flushUserSeries in Hrun. rewrite Hu in Hrun. cbv beta iota in Hrun.
        rewrite Hs' in Hrun. cbv beta iota zeta in Hrun.
        rewrite decide_False in Hrun by done. by rewrite Hsel in Hrun.
  - left. unfold flushUserSeries, seriesAt in *.
    destruct (userStates i !! userID) as [u|]; simpl in Hs.
    + rewrite Hs in Hrun. injection Hrun as <- <-. split; [done|]. split; [done|by left].
    + injection Hrun as <- <-. split; [done|]. split; [done|by left].
Qed.

End ExecutorProperties.

(** *** The chunks chosen for a flush *)

Lemma shouldFlushSeries_nonempty cfg now series fp immediate :
  shouldFlushSeries cfg now series fp immediate <> noFlush -> chunkDescs series <> [].
Proof. unfold shouldFlushSeries. by destruct (chunkDescs series). Qed.

(** A later reading of the clock keeps a chunk flushable. *)
Lemma shouldFlushChunk_later cfg now now' c fp stale :
  now <= now' ->
  int64_range ((now - LastUpdate c) * 1000000) ->
  int64_range ((now' - LastUpdate c) * 1000000) ->
  shouldFlushChunk cfg now c fp stale <> noFlush ->
  shouldFlushChunk cfg now' c fp stale <> noFlush.
Proof.
  intros Hle Hr Hr'. unfold shouldFlushChunk.
  destruct (flushed c); [done|].
  destruct (_ >? wrap64 _); [done|].
  rewrite !Sub_exact by done.
  destruct (Z.gtb_spec ((now - LastUpdate c) * 1000000) (MaxChunkIdle cfg)).
  - destruct (Z.gtb_spec ((now' - LastUpdate c) * 1000000) (MaxChunkIdle cfg)); [done|lia].
  - destruct (Z.gtb_spec ((now' - LastUpdate c) * 1000000) (MaxChunkIdle cfg)); [done|].
    destruct (MaxStaleChunkIdle cfg >? 0), stale; simpl; try done.
    destruct (Z.gtb_spec ((now - LastUpdate c) * 1000000) (MaxStaleChunkIdle cfg)); [|done].
    destruct (Z.gtb_spec ((now' - LastUpdate c) * 1000000) (MaxStaleChunkIdle cfg)); [done|lia].
Qed.

(** The choice of the chunks does not fail on a series with a chunk,
    whatever the clock says when the head is checked. *)
Lemma selectChunks_returns cfg now1 series fp immediate :
  chunkDescs series <> [] ->
  exists series1 chunks,
    selectChunks cfg now1 series fp immediate = Some (series1, chunks).
Proof.
  intros Hne. unfold selectChunks. destruct immediate; [by eexists _, _|].
  unfold seriesHead.
  destruct (last (chunkDescs series)) as [h|] eqn:Hlast;
    [|by apply last_None in Hlast].
  cbn [mbind option_bind]. destruct (decide _); by eexists _, _.
Qed.

(** No chunk is chosen only when the series has a single chunk and the
    check of the head, at its own reading of the clock, does not want it
    flushed. *)
Lemma selectChunks_nil cfg now1 series fp immediate series1 :
  chunkDescs series <> [] ->
  selectChunks cfg now1 series fp immediate = Some (series1, []) ->
  immediate = false /\ series1 = series
  /\ exists h, chunkDescs series = [h]
               /\ shouldFlushChunk cfg now1 h fp (isStale series) = noFlush.
Proof.
  intros Hne. unfold selectChunks. destruct immediate.
  - intros [= <- Hnil]. exfalso.
    apply (f_equal length) in Hnil. rewrite length_alter in Hnil.
    by destruct (chunkDescs series).
  - unfold seriesHead.
    destruct (last (chunkDescs series)) as [h|] eqn:Hlast; [|done].
    cbn [mbind option_bind].
    destruct (decide (shouldFlushChunk cfg now1 h fp (isStale series) <> noFlush))
      as [Hc|Hc].
    + intros [= <- Hnil]. exfalso.
      apply (f_equal length) in Hnil. rewrite length_alter in Hnil.
      by destruct (chunkDescs series).
    + intros [= <- Hnil]. split; [done|]. split; [done|].
      destruct (chunkDescs series) as [|c0 l] eqn:E; [done|].
      destruct l as [|c1 l]; [|done].
      simpl in Hlast. injection Hlast as <-. exists c0. split; [done|].
      by destruct (decide (shouldFlushChunk cfg now1 c0 fp (isStale series) = noFlush)).
Qed.

(** When the clock has not gone back between the re-check of the policy
    and the check of the head, a series that is to be flushed has a chunk
    chosen. *)
Lemma selectChunks_nonempty_later cfg now now1 series fp immediate series1 chunks :
  now <= now1 ->
  (forall c0, chunkDescs series !! 0%nat = Some c0 ->
      int64_range ((now - LastUpdate c0) * 1000000)
      /\ int64_range ((now1 - LastUpdate c0) * 1000000)) ->
  shouldFlushSeries cfg now series fp immediate <> noFlush ->
  selectChunks cfg now1 series fp immediate = Some (series1, chunks) ->
  chunks <> [].
Proof.
  intros Hle Hrange Hr Hsel ->.
  apply selectChunks_nil in Hsel as (-> & _ & h & Hh & Hno);
    [|by eapply shouldFlushSeries_nonempty].
  unfold shouldFlushSeries in Hr. rewrite Hh in Hr. cbn in Hr.
  destruct (Hrange h) as [H1 H2]; [by rewrite Hh|].
  by apply (shouldFlushChunk_later cfg now now1 h fp (isStale series) Hle H1 H2).
Qed.

(** *** The marking loop *)

Lemma markLoop_lookup now3 k : forall idx l n,
  markLoop now3 k idx l !! n
  = if decide (idx <= n < idx + k)%nat then markFlushed (now3 n) <$> l !! n else l !! n.
Proof.
  induction k as [|k IH]; intros idx l n; simpl.
  - rewrite decide_False by lia. done.
  - rewrite IH. destruct (decide (n = idx)) as [->|Hne].
    + rewrite decide_False by lia. rewrite decide_True by lia.
      apply list_lookup_alter_eq.
    + rewrite list_lookup_alter_ne by done.
      destruct (decide (S idx <= n < S idx + k)%nat).
      * by rewrite decide_True by lia.
      * by rewrite decide_False by lia.
Qed.

(** The marking loop marks the first [k] descriptors, the one at [n] with
    the reading [now3 n], and leaves the others. *)
Lemma markLoop_prefix now3 k l :
  markLoop now3 k 0 l = imap (fun n => markFlushed (now3 n)) (take k l) ++ drop k l.
Proof.
  apply list_eq. intros n. rewrite markLoop_lookup.
  destruct (decide (0 <= n < 0 + k)%nat) as [Hn|Hn].
  - destruct (decide (n < length l)%nat) as [Hl|Hl].
    + rewrite lookup_app_l by (rewrite length_imap, length_take; lia).
      rewrite list_lookup_imap. by rewrite lookup_take_lt by lia.
    + rewrite (lookup_ge_None_2 l n) by lia. simpl. symmetry.
      apply lookup_ge_None_2.
      rewrite length_app, length_imap, length_take, length_drop. lia.
  - destruct (decide (k <= length l)%nat) as [Hk|Hk].
    + rewrite lookup_app_r by (rewrite length_imap, length_take; lia).
      rewrite length_imap, length_take, lookup_drop. f_equal. lia.
    + rewrite (lookup_ge_None_2 l n) by lia. symmetry.
      apply lookup_ge_None_2.
      rewrite length_app, length_imap, length_take, length_drop. lia.
Qed.

Lemma markLoop_length now3 k l : length (markLoop now3 k 0 l) = length l.
Proof.
  rewrite markLoop_prefix, length_app, length_imap, length_take, length_drop. lia.
Qed.

Lemma observeLoop_frame userID now2 idx chunks m :
  memoryChunks (observeLoop userID now2 idx chunks m) = memoryChunks m
  /\ droppedChunks (observeLoop userID now2 idx chunks m) = droppedChunks m.
Proof.
  revert idx m. induction chunks as [|d chunks IH]; intros idx m; simpl; [done|].
  destruct (IH (S idx) (observeStored userID (now2 idx) d m)) as [-> ->]. done.
Qed.

Section ExecutorClaims.

Variable Encode : Chunk -> option error.

(** C3, amended. When [Encode] of a chunk or [chunkStore.Put] returns an
    error, [flushUserSeries] returns that error and leaves the ingester as
    it was but for the closing of the head made before the store was
    called ([series1] is the series itself, or the series with
    [headChunkClosed] set and the reason stamped on its head): the
    metrics, and so the stored-chunk counters and histograms, are those
    before the call, the flush queues too, no series is removed, every
    other series is untouched, and the chunk descriptors of the series
    have their [flushed] and [LastUpdate] as before. *)
Theorem flushUserSeries_store_error i now now1 now2 now3 j userID fp immediate
    series series1 chunks e :
  ReachesStore i now now1 userID fp immediate series series1 chunks ->
  StoreFails Encode i userID fp (metric series1) chunks e ->
  exists i',
    flushUserSeries Encode i now now1 now2 now3 j userID fp immediate
    = Some (i', Some e)
    /\ metrics i' = metrics i
    /\ flushQueues i' = flushQueues i
    /\ (forall id fp',
        seriesAt (userStates i') id fp'
        = if decide (id = userID /\ fp' = fp) then Some series1
          else seriesAt (userStates i) id fp')
    /\ (series1 = series \/ exists r, series1 = closeHead r series)
    /\ flushed <$> chunkDescs series1 = flushed <$> chunkDescs series
    /\ LastUpdate <$> chunkDescs series1 = LastUpdate <$> chunkDescs series.
Proof.
  intros (Hs & Hr & Hsel & Hu & Hne) Hfail.
  rewrite (flushUserSeries_run Encode _ _ _ now2 now3 j _ _ _ _ _ _ Hs Hr Hsel).
  cbv zeta. rewrite Hu.
  destruct (Z.eqb_spec (Z.of_nat (length chunks)) 0) as [Hz|_];
    [destruct chunks; simpl in *; [done|lia]|].
  assert (forall i2, userStates i2
                     = writeSeries userID fp series1 (userStates i) ->
          forall id fp',
            seriesAt (userStates i2) id fp'
            = if decide (id = userID /\ fp' = fp) then Some series1
              else seriesAt (userStates i) id fp') as Hat.
  { intros i2 -> id fp'. rewrite seriesAt_writeSeries.
    destruct (decide _); [by rewrite Hs|done]. }
  assert (flushed <$> chunkDescs series1 = flushed <$> chunkDescs series
          /\ LastUpdate <$> chunkDescs series1 = LastUpdate <$> chunkDescs series)
    as [Hfl Hlu].
  { destruct (selectChunks_closes _ _ _ _ _ _ _ Hsel) as ([->|[r ->]] & _); [done|].
    destruct (closeHead_flushed r series) as (? & ? & _). done. }
  destruct (selectChunks_closes _ _ _ _ _ _ _ Hsel) as (Hclosed & _).
  unfold flushChunks. destruct Hfail as [Henc|(wire & store & Henc & Hst & Hput)].
  - rewrite Henc. cbn [mbind option_bind]. eexists. split; [done|].
    repeat split; try done. by apply Hat.
  - rewrite Henc. cbn [chunkStore set_userStates]. rewrite Hst.
    cbn [mbind option_bind]. rewrite Hput. eexists. split; [done|].
    repeat split; try done. by apply Hat.
Qed.

(** C4. When every chunk is encoded and [chunkStore.Put] accepts the
    batch, [flushUserSeries] succeeds and the batch is what the store was
    sent. On the immediate path the series is removed from its userState
    and [memoryChunks] lowered by [len(chunks)]. Otherwise the series stays
    with as many chunks as before and [memoryChunks] as it was; [chunks] is
    the front of its descriptors, and exactly these are replaced by their
    marked copies, [flushed = true] and [LastUpdate] the time read for
    the chunk after the store answered ([now3 k] for the chunk at [k]). *)
Theorem flushUserSeries_stored i now now1 now2 now3 j userID fp immediate
    series series1 chunks wireChunks store :
  ReachesStore i now now1 userID fp immediate series series1 chunks ->
  StoreAccepts Encode i userID fp (metric series1) chunks wireChunks store ->
  exists i',
    flushUserSeries Encode i now now1 now2 now3 j userID fp immediate = Some (i', None)
    /\ chunks <> []
    /\ chunkStore i'
       = Some {| Put := Put store; putLog := putLog store ++ [wireChunks] |}
    /\ (immediate = true ->
        seriesAt (userStates i') userID fp = None
        /\ memoryChunks (metrics i')
           = memoryChunks (metrics i) - Z.of_nat (length chunks))
    /\ (immediate = false ->
        exists series2,
          seriesAt (userStates i') userID fp = Some series2
          /\ chunkDescs series1 = chunks ++ drop (length chunks) (chunkDescs series1)
          /\ chunkDescs series2
             = imap (fun k => markFlushed (now3 k)) chunks
               ++ drop (length chunks) (chunkDescs series1)
          /\ (forall k d, (k < length chunks)%nat -> chunkDescs series2 !! k = Some d ->
              flushed d = true /\ LastUpdate d = now3 k)
          /\ length (chunkDescs series2) = length (chunkDescs series)
          /\ memoryChunks (metrics i') = memoryChunks (metrics i)).
Proof.
  intros (Hs & Hr & Hsel & Hu & Hne) (Henc & Hst & Hput).
  destruct (selectChunks_closes _ _ _ _ _ _ _ Hsel) as (Hclosed & Htake & Hle).
  rewrite (flushUserSeries_run Encode _ _ _ now2 now3 j _ _ _ _ _ _ Hs Hr Hsel).
  cbv zeta. rewrite Hu.
  destruct (Z.eqb_spec (Z.of_nat (length chunks)) 0) as [Hz|_];
    [destruct chunks; simpl in *; [done|lia]|].
  unfold flushChunks. rewrite Henc. cbn [chunkStore set_userStates]. rewrite Hst.
  cbn [mbind option_bind]. rewrite Hput.
  eexists. split; [done|]. split; [done|].
  unfold afterStored. destruct immediate.
  - split; [done|]. split; [|done]. intros _. split.
    + cbn [userStates set_metrics set_userStates set_chunkStore].
      rewrite seriesAt_dropSeries. by rewrite decide_True.
    + cbn [metrics set_metrics set_userStates set_chunkStore memoryChunks
           set_memoryChunks].
      by rewrite (proj1 (observeLoop_frame _ _ _ _ _)).
  - split; [done|]. split; [done|]. intros _.
    eexists. split.
    { cbn [userStates set_metrics set_userStates set_chunkStore].
      rewrite seriesAt_writeSeries. rewrite decide_True by done.
      rewrite seriesAt_writeSeries. rewrite decide_True by done.
      by rewrite Hs. }
    cbn [chunkDescs set_chunkDescs]. rewrite markLoop_prefix, <- Htake.
    split; [by rewrite Htake at 1; rewrite take_drop|].
    split; [done|]. split; [|split].
    + intros k d Hk Hd. rewrite lookup_app_l in Hd by (by rewrite length_imap).
      rewrite list_lookup_imap in Hd.
      destruct (chunks !! k); simpl in Hd; [|done]. by injection Hd as <-.
    + rewrite length_app, length_imap, length_drop.
      destruct Hclosed as [->|[r ->]].
      * lia.
      * destruct (closeHead_flushed r series) as (_ & _ & Hlen).
        rewrite Hlen in *. lia.
    + cbn [metrics set_metrics set_userStates set_chunkStore].
      by rewrite (proj1 (observeLoop_frame _ _ _ _ _)).
Qed.


End ExecutorClaims.

(** ** Sharding of the flush queues *)

Lemma ShardedQs_insert n qs k q' :
  ShardedQs n qs ->
  (forall op, op ∈ pq_items q' -> Z.of_nat k = op_fp op mod n) ->
  ShardedQs n (<[k := q']> qs).
Proof.
  intros Hqs Hq' k' q op Hlook Hop.
  apply list_lookup_insert_Some in Hlook as [(<- & <- & _)|(_ & Hlook)].
  - by apply Hq'.
  - by eapply Hqs.
Qed.

Lemma flushQueueIndexOf_mod cfg fp :
  0 < ConcurrentFlushes cfg < 2 ^ 63 ->
  uint64_range fp ->
  flushQueueIndexOf cfg fp = Some (fp mod ConcurrentFlushes cfg).
Proof.
  intros Hn Hfp. unfold flushQueueIndexOf.
  rewrite (wrapU64_id (ConcurrentFlushes cfg)) by (unfold uint64_range; lia).
  rewrite (wrapU64_id fp) by done.
  destruct (Z.eqb_spec (ConcurrentFlushes cfg) 0); [lia|].
  unfold uint64_range in Hfp. rewrite Z.rem_mod_nonneg by lia.
  pose proof (Z.mod_pos_bound fp (ConcurrentFlushes cfg) ltac:(lia)).
  rewrite wrap64_id by (unfold int64_range; lia). done.
Qed.

Lemma queueAt_Some qs j q :
  queueAt qs j = Some q -> 0 <= j /\ qs !! Z.to_nat j = Some q.
Proof. unfold queueAt. destruct (Z.ltb_spec j 0); [done|]. by split. Qed.

(** [sweepSeries] either leaves the queues alone or enqueues one op for
    [fp] on the queue [fp mod ConcurrentFlushes]. *)
Lemma sweepSeries_queue i now userID fp series immediate i' :
  0 < ConcurrentFlushes (cfg i) < 2 ^ 63 ->
  uint64_range fp ->
  sweepSeries i now userID fp series immediate = Some i' ->
  flushQueues i' = flushQueues i
  \/ exists q op,
       op_fp op = fp
       /\ queueAt (flushQueues i) (fp mod ConcurrentFlushes (cfg i)) = Some q
       /\ flushQueues i'
          = <[Z.to_nat (fp mod ConcurrentFlushes (cfg i)) := (Enqueue q op).1]>
              (flushQueues i).
Proof.
  intros Hn Hfp Hrun.
  apply sweepSeries_inv in Hrun
    as (_ & _ & _ & _ & _ & [Hq|(j & q & op & Hj & Hq & Hop & _ & _ & _ & Hqs)]);
    [by left|right].
  rewrite flushQueueIndexOf_mod in Hj by done. injection Hj as <-.
  by exists q, op.
Qed.

Lemma sweepSeries_Sharded i now userID fp series immediate i' :
  0 < ConcurrentFlushes (cfg i) < 2 ^ 63 ->
  uint64_range fp ->
  Sharded i ->
  sweepSeries i now userID fp series immediate = Some i' ->
  Sharded i'.
Proof.
  intros Hn Hfp Hsh Hrun. unfold Sharded in *.
  pose proof (sweepSeries_inv _ _ _ _ _ _ _ Hrun) as (_ & -> & _).
  destruct (sweepSeries_queue _ _ _ _ _ _ _ Hn Hfp Hrun)
    as [->|(q & op & Hop & Hq & ->)]; [done|].
  apply queueAt_Some in Hq as [Hpos Hq].
  apply ShardedQs_insert; [done|].
  intros op' Hin. apply Enqueue_elem_of in Hin as [->|Hin].
  - rewrite Hop. lia.
  - rewrite <- (Hsh _ _ _ Hq Hin). lia.
Qed.

Lemma sweepPairs_Sharded immediate clock entries : forall i o i' o',
  0 < ConcurrentFlushes (cfg i) < 2 ^ 63 ->
  (forall id fp s, (id, fp, s) ∈ entries -> uint64_range fp) ->
  Sharded i ->
  sweepPairs immediate clock entries (i, o) = Some (i', o') ->
  Sharded i'.
Proof.
  induction entries as [|[[id fp] series] entries IH]; intros i o i' o' Hn Hfp Hsh;
    cbn [sweepPairs].
  - by intros [= <- <-].
  - destruct (sweepPair immediate clock (i, o) (id, fp, series)) as [[i2 o2]|] eqn:Hp;
      [|done]. cbn [mbind option_bind].
    apply sweepPair_inv in Hp as (i1 & Hss & -> & ->).
    pose proof (sweepSeries_inv _ _ _ _ _ _ _ Hss) as (_ & Hcfg & _).
    pose proof (removeFlushedChunks_inv i1 (clock id fp) id fp series)
      as (Hcfg2 & _ & _ & Hqs & _).
    apply IH.
    + by rewrite Hcfg2, Hcfg.
    + intros ??? H. eapply Hfp. by right.
    + unfold Sharded. rewrite Hcfg2, Hqs.
      eapply sweepSeries_Sharded; [done| |done|done].
      eapply Hfp. left.
Qed.

Lemma pq_has_false k l : pq_has k l = false <-> k ∉ Key <$> l.
Proof.
  unfold pq_has. induction l as [|x l IH]; simpl.
  - split; [intros _ H; by apply elem_of_nil in H|done].
  - rewrite orb_false_iff, IH, not_elem_of_cons, bool_decide_eq_false. split.
    + intros [H1 H2]. split; [congruence|done].
    + intros [H1 H2]. split; [congruence|done].
Qed.

(** An op that [Dequeue] returns was the first of the queue, and the
    queue is left with the others. *)
Lemma Dequeue_op q op q' :
  Dequeue q = dequeuedOp op q' ->
  pq_items q = op :: pq_items q' /\ pq_closed q' = pq_closed q.
Proof.
  unfold Dequeue. destruct (pq_items q) as [|x l]; [by destruct (pq_closed q)|].
  by intros [= <- <-].
Qed.

Lemma backoff_Add t : model.Add t flushBackoff = wrap64 (t + 1000).
Proof. reflexivity. Qed.

Section WorkerClaims.

Variable Encode : Chunk -> option error.

Lemma flushUserSeries_frame i now now1 now2 now3 j userID fp immediate i' err :
  flushUserSeries Encode i now now1 now2 now3 j userID fp immediate = Some (i', err) ->
  flushQueues i' = flushQueues i /\ cfg i' = cfg i.
Proof.
  intros Hrun. apply flushUserSeries_inv in Hrun
    as [(-> & _)|(series & series1 & chunks & _ & _ & _ & Hcases)]; [done|].
  cbv zeta in Hcases.
  destruct Hcases as [(_ & -> & _)|[(_ & _ & -> & _)|(_ & _ & i2 & err2 & Hfc & _ & ->)]];
    [done|done|].
  apply flushChunks_inv in Hfc
    as [(e & _ & -> & ->)|(w & st & _ & _ & [(e & _ & -> & ->)|(_ & -> & ->)])];
    try done.
  unfold afterStored. by destruct immediate.
Qed.

(** C8. A worker that has dequeued [op] from queue [j] and whose executor
    returns an error goes on with its loop. If [op.immediate] is true,
    [op] goes back on the same queue [j] with [from] a second (1000 ms)
    later and its other fields as they were; a queue holding each key
    once then holds the op again. If [op.immediate] is false, queue [j] is
    left as the dequeue left it, without the op, and the executor's state
    is the worker's. *)
Theorem flushLoop_retry i now now1 now2 now3 j q op q' i1 e :
  queueAt (flushQueues i) j = Some q ->
  Dequeue q = dequeuedOp op q' ->
  flushUserSeries Encode
    (set_flushQueues (<[Z.to_nat j := q']> (flushQueues i)) i)
    now now1 now2 now3 j (op_userID op) (op_fp op) (op_immediate op)
  = Some (i1, Some e) ->
  exists i',
    flushLoopBody Encode i now now1 now2 now3 j = Some (i', turnGoesOn)
    /\ (op_immediate op = true ->
        let op' := {| op_from := wrap64 (op_from op + 1000);
                      op_userID := op_userID op; op_fp := op_fp op;
                      op_immediate := op_immediate op |} in
        flushQueues i' = <[Z.to_nat j := (Enqueue q' op').1]> (flushQueues i)
        /\ (NoDup (Key <$> pq_items q) ->
            exists q'', flushQueues i' !! Z.to_nat j = Some q''
                        /\ op' ∈ pq_items q''))
    /\ (op_immediate op = false ->
        i' = i1
        /\ flushQueues i' = <[Z.to_nat j := q']> (flushQueues i)
        /\ (NoDup (Key <$> pq_items q) -> op ∉ pq_items q')).
Proof.
  intros Hq Hdq Hrun. unfold flushLoopBody. rewrite Hq. cbn [mbind option_bind].
  rewrite Hdq, Hrun. cbn [mbind option_bind].
  pose proof (flushUserSeries_frame _ _ _ _ _ _ _ _ _ _ _ Hrun) as [Hqs _].
  cbn [flushQueues set_flushQueues] in Hqs.
  apply queueAt_Some in Hq as [Hj Hq].
  pose proof (Dequeue_op _ _ _ Hdq) as [Hitems _].
  destruct (op_immediate op) eqn:Himm.
  - rewrite bool_decide_eq_true_2 by done. cbn [andb].
    rewrite backoff_Add. unfold enqueueAt, queueAt.
    destruct (Z.ltb_spec j 0); [lia|]. rewrite Hqs.
    rewrite list_lookup_insert_eq by (by eapply lookup_lt_Some).
    cbn [mbind option_bind].
    destruct (Enqueue q' _) as [q2 added] eqn:HE. cbn [mbind option_bind].
    eexists. split; [done|]. split; [|done]. intros _. cbv zeta.
    cbn [flushQueues set_flushQueues]. rewrite list_insert_insert_eq.
    split; [done|]. intros Hnd.
    exists q2. split; [apply list_lookup_insert_eq; by eapply lookup_lt_Some|].
    rewrite Hitems, fmap_cons in Hnd. apply NoDup_cons in Hnd as [Hnotin _].
    unfold Enqueue in HE.
    change (Key {| op_from := wrap64 (op_from op + 1000); op_userID := op_userID op;
                   op_fp := op_fp op; op_immediate := true |})
      with (Key {| op_from := op_from op; op_userID := op_userID op;
                   op_fp := op_fp op; op_immediate := true |}) in HE.
    assert ({| op_from := op_from op; op_userID := op_userID op;
               op_fp := op_fp op; op_immediate := true |} = op) as Hop
      by (destruct op; simpl in *; by subst).
    rewrite Hop in HE.
    rewrite (proj2 (pq_has_false _ _) Hnotin) in HE.
    injection HE as <- _. simpl. apply pq_insert_elem_of. by left.
  - cbn [andb]. eexists. split; [done|]. split; [done|]. intros _.
    split; [done|]. split; [done|].
    intros Hnd. rewrite Hitems, fmap_cons in Hnd.
    apply NoDup_cons in Hnd as [Hnotin _]. intros Hin. apply Hnotin.
    by apply list_elem_of_fmap_2.
Qed.

Lemma flushLoopBody_Sharded i now now1 now2 now3 j i' b :
  Sharded i -> flushLoopBody Encode i now now1 now2 now3 j = Some (i', b) -> Sharded i'.
Proof.
  intros Hsh. unfold flushLoopBody.
  destruct (queueAt (flushQueues i) j) as [q|] eqn:Hq; [|done].
  cbn [mbind option_bind]. apply queueAt_Some in Hq as [Hj Hq].
  destruct (Dequeue q) as [op q'| |] eqn:Hdq;
    [|by intros [= <- <-]|by intros [= <- <-]].
  pose proof (Dequeue_op _ _ _ Hdq) as [Hitems _].
  destruct (flushUserSeries Encode _ now now1 now2 now3 j (op_userID op) (op_fp op)
              (op_immediate op)) as [[i1 err]|] eqn:Hrun; [|done].
  cbn [mbind option_bind].
  pose proof (flushUserSeries_frame _ _ _ _ _ _ _ _ _ _ _ Hrun) as [Hqs Hcfg].
  cbn [flushQueues set_flushQueues cfg] in Hqs, Hcfg.
  assert (ShardedQs (ConcurrentFlushes (cfg i)) (<[Z.to_nat j := q']> (flushQueues i)))
    as Hsh1.
  { apply ShardedQs_insert; [done|]. intros op' Hin.
    eapply Hsh; [done|]. rewrite Hitems. by right. }
  destruct (op_immediate op && bool_decide (err <> None)).
  - unfold enqueueAt, queueAt. destruct (Z.ltb_spec j 0); [lia|]. rewrite Hqs.
    rewrite list_lookup_insert_eq by (by eapply lookup_lt_Some).
    cbn [mbind option_bind]. destruct (Enqueue q' _) as [q2 added] eqn:HE.
    cbn [mbind option_bind]. intros [= <- <-].
    unfold Sharded. cbn [flushQueues set_flushQueues cfg]. rewrite Hcfg.
    apply ShardedQs_insert; [done|]. intros op' Hin.
    assert (q2 = (Enqueue q'
                    {| op_from := model.Add (op_from op) flushBackoff;
                       op_userID := op_userID op; op_fp := op_fp op;
                       op_immediate := op_immediate op |}).1) as Hq2
      by (by rewrite HE).
    rewrite Hq2 in Hin. apply Enqueue_elem_of in Hin as [->|Hin].
    + simpl. eapply Hsh; [done|]. rewrite Hitems. left.
    + eapply Hsh; [done|]. rewrite Hitems. by right.
  - intros [= <- <-]. unfold Sharded. by rewrite Hcfg, Hqs.
Qed.

(** C9. With a positive number [ConcurrentFlushes] of queues and 64-bit
    fingerprints, [sweepSeries] puts the op it enqueues for [fp] on queue
    [fp mod ConcurrentFlushes], and once every queued op sits on the queue
    of its fingerprint this stays so through a sweep of all users and
    through a turn of a worker, retry included: the op a worker puts back
    returns to the queue it came from, which is that of its
    fingerprint. *)
Theorem flush_ops_sharded i :
  0 < ConcurrentFlushes (cfg i) < 2 ^ 63 ->
  (forall id fp s, seriesAt (userStates i) id fp = Some s -> uint64_range fp) ->
  Sharded i ->
  (forall now userID fp s immediate i',
      uint64_range fp ->
      sweepSeries i now userID fp s immediate = Some i' ->
      flushQueues i' = flushQueues i
      \/ exists q op,
           op_fp op = fp
           /\ queueAt (flushQueues i) (fp mod ConcurrentFlushes (cfg i)) = Some q
           /\ flushQueues i'
              = <[Z.to_nat (fp mod ConcurrentFlushes (cfg i)) := (Enqueue q op).1]>
                  (flushQueues i))
  /\ (forall clock immediate i',
        sweepUsers i clock immediate = Some i' -> Sharded i')
  /\ (forall now now1 now2 now3 j i' b,
        flushLoopBody Encode i now now1 now2 now3 j = Some (i', b) -> Sharded i').
Proof.
  intros Hn Hfp Hsh. split; [|split].
  - intros now userID fp s immediate i' Hr Hrun. by eapply sweepSeries_queue.
  - intros clock immediate i'. unfold sweepUsers.
    destruct (chunkStore i); [|by intros [= <-]].
    destruct (sweepPairs immediate clock (seriesOf (userStates i)) (i, 0))
      as [[i1 oldest]|] eqn:Hrun; [|done].
    cbn [mbind option_bind]. intros [= <-].
    apply sweepPairs_Sharded in Hrun; [done|done| |done].
    intros id fp s Hin. eapply Hfp. by apply elem_of_seriesOf.
  - intros now now1 now2 now3 j i' b. by apply flushLoopBody_Sharded.
Qed.

End WorkerClaims.

(** ** Sample runs *)

(** C3, as stated, fails: a shutdown flush whose [Put] is refused returns
    the error and leaves the head of the series closed, which it was not
    before the call. *)
Lemma flushUserSeries_error_closes_head :
  exists i' s',
    flushUserSeries Sample.encodeOk Sample.ingesterDown 3000 3000 (fun _ => 3001) (fun _ => 3001) 3 "u1" 7 true
    = Some (i', Some "store unavailable"%string)
    /\ seriesAt (userStates Sample.ingesterDown) "u1" 7
       = Some (Sample.seriesOfChunks [Sample.youngChunk])
    /\ headChunkClosed (Sample.seriesOfChunks [Sample.youngChunk]) = false
    /\ seriesAt (userStates i') "u1" 7 = Some s'
    /\ headChunkClosed s' = true
    /\ userStates i' <> userStates Sample.ingesterDown.
Proof.
  eexists _, _. split; [vm_compute; reflexivity|].
  split; [vm_compute; reflexivity|]. split; [reflexivity|].
  split; [vm_compute; reflexivity|]. split; [reflexivity|].
  intros Heq.
  assert (seriesAt (userStates Sample.ingesterDown) "u1" 7
          = Some (Sample.closedSeries reasonImmediate)) as H
    by (rewrite <- Heq; vm_compute; reflexivity).
  vm_compute in H. discriminate H.
Qed.

(** The refused shutdown flush, for C3. *)
Lemma flushUserSeries_store_error_witness :
  ReachesStore Sample.ingesterDown 3000 3000 "u1" 7 true
    (Sample.seriesOfChunks [Sample.youngChunk])
    (Sample.closedSeries reasonImmediate) [Sample.closedChunk reasonImmediate]
  /\ StoreFails Sample.encodeOk Sample.ingesterDown "u1" 7
       (metric (Sample.closedSeries reasonImmediate))
       [Sample.closedChunk reasonImmediate] "store unavailable"%string
  /\ exists i',
       flushUserSeries Sample.encodeOk Sample.ingesterDown 3000 3000 (fun _ => 3001)
         (fun _ => 3001) 3 "u1" 7 true
       = Some (i', Some "store unavailable"%string)
       /\ metrics i' = metrics Sample.ingesterDown.
Proof.
  assert (ReachesStore Sample.ingesterDown 3000 3000 "u1" 7 true
            (Sample.seriesOfChunks [Sample.youngChunk])
            (Sample.closedSeries reasonImmediate) [Sample.closedChunk reasonImmediate])
    as Hreach.
  { unfold ReachesStore. split; [vm_compute; reflexivity|].
    split; [vm_compute; discriminate|]. split; [vm_compute; reflexivity|].
    split; [vm_compute; reflexivity|discriminate]. }
  assert (StoreFails Sample.encodeOk Sample.ingesterDown "u1" 7
            (metric (Sample.closedSeries reasonImmediate))
            [Sample.closedChunk reasonImmediate] "store unavailable"%string)
    as Hfail.
  { right. exists [Sample.wireChunk], Sample.downStore.
    split; [vm_compute; reflexivity|]. split; reflexivity. }
  split; [exact Hreach|]. split; [exact Hfail|].
  destruct (flushUserSeries_store_error Sample.encodeOk Sample.ingesterDown
              3000 3000 (fun _ => 3001) (fun _ => 3001) 3 "u1" 7 true _ _ _ _ Hreach Hfail)
    as (i' & Hrun & Hm & _).
  by exists i'.
Defined.

(** An idle flush that the store accepts, for C4. *)
Lemma flushUserSeries_stored_witness :
  ReachesStore Sample.ingester 500000 500001 "u1" 7 false
    (Sample.seriesOfChunks [Sample.youngChunk])
    (Sample.closedSeries reasonIdle) [Sample.closedChunk reasonIdle]
  /\ StoreAccepts Sample.encodeOk Sample.ingester "u1" 7
       (metric (Sample.closedSeries reasonIdle)) [Sample.closedChunk reasonIdle]
       [Sample.wireChunk] Sample.okStore
  /\ exists i' series2,
       flushUserSeries Sample.encodeOk Sample.ingester 500000 500001 (fun _ => 500100)
         (fun k => 500101 + Z.of_nat k) 3 "u1" 7 false
       = Some (i', None)
       /\ seriesAt (userStates i') "u1" 7 = Some series2
       /\ chunkDescs series2 = [markFlushed 500101 (Sample.closedChunk reasonIdle)].
Proof.
  assert (ReachesStore Sample.ingester 500000 500001 "u1" 7 false
            (Sample.seriesOfChunks [Sample.youngChunk])
            (Sample.closedSeries reasonIdle) [Sample.closedChunk reasonIdle])
    as Hreach.
  { unfold ReachesStore. split; [vm_compute; reflexivity|].
    split; [vm_compute; discriminate|]. split; [vm_compute; reflexivity|].
    split; [vm_compute; reflexivity|discriminate]. }
  assert (StoreAccepts Sample.encodeOk Sample.ingester "u1" 7
            (metric (Sample.closedSeries reasonIdle)) [Sample.closedChunk reasonIdle]
            [Sample.wireChunk] Sample.okStore) as Hacc.
  { split; [vm_compute; reflexivity|]. split; reflexivity. }
  split; [exact Hreach|]. split; [exact Hacc|].
  destruct (flushUserSeries_stored Sample.encodeOk Sample.ingester
              500000 500001 (fun _ => 500100) (fun k => 500101 + Z.of_nat k) 3 "u1" 7 false
              _ _ _ _ _ Hreach Hacc)
    as (i' & Hrun & _ & _ & _ & Hmark).
  destruct (Hmark eq_refl) as (series2 & Hat & _ & Hdescs & _).
  by exists i', series2.
Defined.

(** A reaping sweep, for C5: the stored chunk goes, the young one stays. *)
Lemma removeFlushedChunks_longest_prefix_witness :
  userStates Sample.ingesterStored !! "u1"%string
  = Some {| fpToSeries := {[ 7 := Sample.seriesOfChunks
                                     [Sample.storedChunk; Sample.youngChunk] ]} |}
  /\ exists removed,
       [Sample.storedChunk; Sample.youngChunk]
       = removed ++ chunkDescs
                      (removeFlushedChunks Sample.ingesterStored 500000 "u1" 7
                         (Sample.seriesOfChunks [Sample.storedChunk; Sample.youngChunk])).2
       /\ Forall (Reapable Sample.config 500000) removed.
Proof.
  split; [reflexivity|].
  destruct (removeFlushedChunks_longest_prefix Sample.ingesterStored 500000 "u1" 7
              (Sample.seriesOfChunks [Sample.storedChunk; Sample.youngChunk])
              {| fpToSeries := {[ 7 := Sample.seriesOfChunks
                                         [Sample.storedChunk; Sample.youngChunk] ]} |})
    as (removed & u' & Hsplit & Hall & _).
  - reflexivity.
  - reflexivity.
  - by exists removed.
Defined.



(** A shutdown op whose flush is refused, for C8. *)
Lemma flushLoop_retry_witness :
  queueAt (flushQueues Sample.ingesterShutdown) 3 = Some Sample.shutdownQueue
  /\ Dequeue Sample.shutdownQueue = dequeuedOp Sample.shutdownOp Sample.emptyQueue
  /\ exists i',
       flushLoopBody Sample.encodeOk Sample.ingesterShutdown 3000 3000 (fun _ => 3001)
         (fun _ => 3001) 3
       = Some (i', turnGoesOn)
       /\ flushQueues i' !! 3%nat
          = Some {| pq_items := [{| op_from := 2500; op_userID := "u1"; op_fp := 7;
                                    op_immediate := true |}];
                    pq_closed := false |}.
Proof.
  split; [reflexivity|]. split; [reflexivity|].
  destruct (flushUserSeries Sample.encodeOk
              (set_flushQueues
                 (<[Z.to_nat 3 := Sample.emptyQueue]> (flushQueues Sample.ingesterShutdown))
                 Sample.ingesterShutdown)
              3000 3000 (fun _ => 3001) (fun _ => 3001) 3 "u1" 7 true) as [[i1 [e|]]|] eqn:Hrun;
    [|by vm_compute in Hrun|by vm_compute in Hrun].
  destruct (flushLoop_retry Sample.encodeOk Sample.ingesterShutdown
              3000 3000 (fun _ => 3001) (fun _ => 3001) 3
              Sample.shutdownQueue Sample.shutdownOp Sample.emptyQueue i1 e
              eq_refl eq_refl Hrun) as (i' & Hbody & Himm & _).
  exists i'. split; [exact Hbody|].
  destruct (Himm eq_refl) as [-> _]. reflexivity.
Defined.

(** The sample ingester, for C9. *)
Lemma flush_ops_sharded_witness :
  0 < ConcurrentFlushes (cfg Sample.ingester) < 2 ^ 63
  /\ Sharded Sample.ingester
  /\ forall clock immediate i',
       sweepUsers Sample.ingester clock immediate = Some i' -> Sharded i'.
Proof.
  assert (0 < ConcurrentFlushes (cfg Sample.ingester) < 2 ^ 63) as Hn
    by (simpl; lia).
  assert (Sharded Sample.ingester) as Hsh.
  { intros k q op Hq Hin.
    change (flushQueues Sample.ingester) with (replicate 4 Sample.emptyQueue) in Hq.
    apply lookup_replicate in Hq as [-> _]. by apply elem_of_nil in Hin. }
  split; [exact Hn|]. split; [exact Hsh|].
  apply (flush_ops_sharded Sample.encodeOk Sample.ingester Hn); [|exact Hsh].
  intros id fp s Hs. apply seriesAt_Some in Hs as (u & Hu & Hs).
  simpl in Hu. apply lookup_singleton_Some in Hu as [_ <-].
  simpl in Hs. apply lookup_singleton_Some in Hs as [<- _].
  unfold uint64_range. lia.
Defined.

(** An ingester without a store, for C10. *)
Lemma sweepUsers_nil_store_witness :
  chunkStore Sample.ingesterNoStore = None
  /\ sweepUsers Sample.ingesterNoStore Sample.clock true = Some Sample.ingesterNoStore.
Proof.
  split; [reflexivity|].
  apply (sweepUsers_nil_store Sample.ingesterNoStore Sample.clock true eq_refl).
Defined.

(** * Further properties of the flush engine *)

(** ** The flush policy *)

(** X1. The jitter of [shouldFlushChunk] is smaller in size than
    [ChunkAgeJitter]: the age threshold [MaxChunkAge - jitter] lies strictly
    between [MaxChunkAge - |ChunkAgeJitter|] and
    [MaxChunkAge + |ChunkAgeJitter|], whatever the fingerprint. *)
Theorem chunkAgeJitter_bound cfg fp :
  ChunkAgeJitter cfg <> 0 ->
  Z.abs (chunkAgeJitter cfg fp) < Z.abs (ChunkAgeJitter cfg)
  /\ MaxChunkAge cfg - Z.abs (ChunkAgeJitter cfg)
     < MaxChunkAge cfg - chunkAgeJitter cfg fp
     < MaxChunkAge cfg + Z.abs (ChunkAgeJitter cfg).
Proof.
  intros HJ. unfold chunkAgeJitter.
  destruct (Z.eqb_spec (ChunkAgeJitter cfg) 0); [done|].
  pose proof (Z.rem_bound_abs (Duration_of_Fingerprint fp) (ChunkAgeJitter cfg) HJ).
  lia.
Qed.

Lemma chunkAgeJitter_bound_witness :
  ChunkAgeJitter Sample.config <> 0
  /\ Z.abs (chunkAgeJitter Sample.config Sample.highFp)
     < Z.abs (ChunkAgeJitter Sample.config).
Proof.
  assert (ChunkAgeJitter Sample.config <> 0) as H by (vm_compute; discriminate).
  split; [exact H|]. apply (chunkAgeJitter_bound Sample.config Sample.highFp H).
Defined.

(** X2. [shouldFlushChunk] answers NoFlush, Aged, Idle or Stale and nothing
    else; it answers NoFlush for every flushed chunk, and Stale only when
    [MaxStaleChunkIdle] is above 0 and the last value of the series is
    stale. *)
Theorem shouldFlushChunk_reasons cfg now c fp stale :
  chunkReason (shouldFlushChunk cfg now c fp stale)
  /\ (flushed c = true -> shouldFlushChunk cfg now c fp stale = noFlush)
  /\ (shouldFlushChunk cfg now c fp stale = reasonStale ->
      0 < MaxStaleChunkIdle cfg /\ stale = true).
Proof.
  unfold shouldFlushChunk, chunkReason.
  destruct (flushed c); [by split; [left|split]|].
  destruct (_ >? wrap64 _); [by split; [right; left|split]|].
  destruct (model.Sub now (LastUpdate c) >? MaxChunkIdle cfg);
    [by split; [right; right; left|split]|].
  destruct (Z.gtb_spec (MaxStaleChunkIdle cfg) 0), stale; simpl;
    try (by split; [left|split]).
  destruct (_ >? _); [|by split; [left|split]].
  split; [by right; right; right|]. split; [done|]. intros _. split; [lia|done].
Qed.

(** X3. A series that [shouldFlushSeries] wants flushed has a chunk, and on
    the periodic path ([immediate] false) its oldest chunk is not yet
    flushed: a series whose oldest chunk is flushed is never scheduled by a
    periodic sweep, whatever its other chunks. *)
Theorem shouldFlushSeries_oldest_unflushed cfg now series fp immediate :
  shouldFlushSeries cfg now series fp immediate <> noFlush ->
  chunkDescs series <> []
  /\ (immediate = false ->
      exists c0, chunkDescs series !! 0%nat = Some c0 /\ flushed c0 = false).
Proof.
  unfold shouldFlushSeries. destruct (chunkDescs series) as [|c0 l]; [done|].
  intros Hr. split; [done|]. intros ->. exists c0. split; [done|].
  destruct (flushed c0) eqn:Hf; [|done]. exfalso. apply Hr.
  rewrite andb_false_r. unfold shouldFlushChunk. by rewrite Hf.
Qed.

Lemma shouldFlushSeries_oldest_unflushed_witness :
  shouldFlushSeries Sample.config 500000
    (Sample.seriesOfChunks [Sample.youngChunk]) 7 false <> noFlush
  /\ chunkDescs (Sample.seriesOfChunks [Sample.youngChunk]) <> [].
Proof.
  assert (shouldFlushSeries Sample.config 500000
            (Sample.seriesOfChunks [Sample.youngChunk]) 7 false <> noFlush) as H
    by (vm_compute; discriminate).
  split; [exact H|].
  apply (shouldFlushSeries_oldest_unflushed Sample.config 500000
           (Sample.seriesOfChunks [Sample.youngChunk]) 7 false H).
Defined.

(** X4. Time alone does not take a series off the flush list: when
    [shouldFlushSeries] wants a series flushed at one reading of the clock,
    it wants it flushed at every later reading, as long as the series is
    the same and the time since the last update of its oldest chunk fits a
    duration. So the re-check of the executor agrees with the sweep that
    enqueued the op unless the series changed in between. *)
Theorem shouldFlushSeries_later cfg now now' series fp immediate :
  now <= now' ->
  (forall c0, chunkDescs series !! 0%nat = Some c0 ->
      int64_range ((now - LastUpdate c0) * 1000000)
      /\ int64_range ((now' - LastUpdate c0) * 1000000)) ->
  shouldFlushSeries cfg now series fp immediate <> noFlush ->
  shouldFlushSeries cfg now' series fp immediate <> noFlush.
Proof.
  intros Hle Hrange. unfold shouldFlushSeries.
  destruct (chunkDescs series) as [|c0 l]; [done|].
  destruct immediate; [done|].
  destruct ((1 <? Z.of_nat (length (c0 :: l))) && negb (flushed c0)); [done|].
  destruct (Hrange c0 eq_refl) as [H1 H2]. by apply shouldFlushChunk_later.
Qed.

Lemma shouldFlushSeries_later_witness :
  500000 <= 900000
  /\ shouldFlushSeries Sample.config 500000
       (Sample.seriesOfChunks [Sample.youngChunk]) 7 false <> noFlush
  /\ shouldFlushSeries Sample.config 900000
       (Sample.seriesOfChunks [Sample.youngChunk]) 7 false <> noFlush.
Proof.
  assert (500000 <= 900000) as Hle by lia.
  assert (shouldFlushSeries Sample.config 500000
            (Sample.seriesOfChunks [Sample.youngChunk]) 7 false <> noFlush) as H
    by (vm_compute; discriminate).
  split; [exact Hle|]. split; [exact H|].
  apply (shouldFlushSeries_later Sample.config 500000 900000
           (Sample.seriesOfChunks [Sample.youngChunk]) 7 false Hle); [|exact H].
  intros c0 [= <-]. unfold int64_range. simpl. lia.
Defined.

(** ** Flush ops *)

Lemma chars_app s1 s2 : chars (s1 +:+ s2) = chars s1 ++ chars s2.
Proof. induction s1 as [|a s1 IH]; simpl; [done|]. by rewrite IH. Qed.

Lemma chars_inj s1 s2 : chars s1 = chars s2 -> s1 = s2.
Proof.
  revert s2. induction s1 as [|a s1 IH]; intros [|b s2]; simpl; try done.
  intros [= -> H]. f_equal. by apply IH.
Qed.

Lemma pretty_N_char_not_dash x : pretty_N_char x <> "-"%char.
Proof. unfold pretty_N_char. by repeat case_match. Qed.

Lemma pretty_N_go_no_dash x : forall s,
  "-"%char ∉ chars s -> "-"%char ∉ chars (pretty_N_go x s).
Proof.
  induction (N.lt_wf_0 x) as [x _ IH]; intros s Hs.
  assert (x = 0 \/ 0 < x)%N as [->|Hpos] by lia.
  - by rewrite pretty_N_go_0.
  - rewrite pretty_N_go_step by done. apply IH; [by apply N.div_lt|].
    simpl. apply not_elem_of_cons. split; [|done].
    intros Heq. by apply (pretty_N_char_not_dash (x `mod` 10)%N).
Qed.

(** The decimal form of a fingerprint holds no dash. *)
Lemma pretty_fp_no_dash (fp : Z) : 0 <= fp -> "-"%char ∉ chars (pretty fp).
Proof.
  intros Hfp. destruct fp as [|p|p]; [| |lia].
  - simpl. apply not_elem_of_cons. split; [done|]. apply not_elem_of_nil.
  - unfold pretty, pretty_Z, pretty, pretty_positive, pretty, pretty_N.
    destruct (decide (N.pos p = 0%N)); [done|].
    apply pretty_N_go_no_dash. apply not_elem_of_nil.
Qed.

(** A text is split in one way only at its last dash. *)
Lemma split_last_dash (u1 u2 p1 p2 : list ascii) :
  "-"%char ∉ p1 -> "-"%char ∉ p2 ->
  u1 ++ "-"%char :: p1 = u2 ++ "-"%char :: p2 ->
  u1 = u2 /\ p1 = p2.
Proof.
  intros H1 H2 Heq.
  assert (length p1 = length p2) as Hlen.
  { apply (f_equal reverse) in Heq.
    rewrite !reverse_app, !reverse_cons, <- !app_assoc in Heq. simpl in Heq.
    assert (forall a b x y : list ascii,
               "-"%char ∉ a -> "-"%char ∉ b ->
               a ++ "-"%char :: x = b ++ "-"%char :: y -> length a = length b) as Haux.
    { clear. induction a as [|c a IH]; intros [|d b] x y Ha Hb E; simpl in *.
      - done.
      - injection E as <- _. exfalso. apply Hb. left.
      - injection E as -> _. exfalso. apply Ha. left.
      - injection E as -> E. f_equal.
        apply not_elem_of_cons in Ha as [_ Ha]. apply not_elem_of_cons in Hb as [_ Hb].
        by eapply IH. }
    rewrite <- (length_reverse p1), <- (length_reverse p2).
    eapply Haux; [| |exact Heq]; by rewrite elem_of_reverse. }
  apply app_inj_2 in Heq as [-> [= ->]]; [done|]. simpl. by rewrite Hlen.
Qed.

(** Two ops with the same key are ops of the same series. *)
Lemma Key_fields o1 o2 :
  0 <= op_fp o1 -> 0 <= op_fp o2 ->
  Key o1 = Key o2 ->
  op_userID o1 = op_userID o2 /\ op_fp o1 = op_fp o2
  /\ op_immediate o1 = op_immediate o2.
Proof.
  intros Hfp1 Hfp2 Hkey. apply (f_equal chars) in Hkey. unfold Key in Hkey.
  rewrite !chars_app in Hkey.
  change (chars "-") with ["-"%char] in Hkey.
  assert (op_immediate o1 = op_immediate o2) as Himm.
  { destruct (op_immediate o1), (op_immediate o2); try done; exfalso.
    - change (chars "true") with ([] ++ chars "true") in Hkey.
      change (chars "false") with (["f"%char] ++ chars "alse") in Hkey.
      rewrite !app_assoc in Hkey.
      by apply app_inj_2 in Hkey as [_ Hkey].
    - change (chars "true") with ([] ++ chars "true") in Hkey.
      change (chars "false") with (["f"%char] ++ chars "alse") in Hkey.
      rewrite !app_assoc in Hkey.
      by apply app_inj_2 in Hkey as [_ Hkey]. }
  rewrite Himm in Hkey. rewrite !app_assoc in Hkey.
  apply app_inv_tail in Hkey. apply app_inv_tail in Hkey.
  rewrite <- !app_assoc in Hkey. simpl in Hkey.
  apply split_last_dash in Hkey as [Hu Hp];
    [|by apply pretty_fp_no_dash|by apply pretty_fp_no_dash].
  split; [by apply chars_inj|]. split; [|done].
  apply chars_inj in Hp. by apply (inj pretty) in Hp.
Qed.

(** X5. [Key()] names the series and the kind of flush, and nothing else:
    two ops with 64-bit fingerprints have the same key exactly when they
    have the same user, the same fingerprint and the same [immediate] flag,
    whatever characters the user ids hold and whatever their [from]. *)
Theorem Key_inj o1 o2 :
  0 <= op_fp o1 -> 0 <= op_fp o2 ->
  Key o1 = Key o2
  <-> op_userID o1 = op_userID o2 /\ op_fp o1 = op_fp o2
      /\ op_immediate o1 = op_immediate o2.
Proof.
  intros Hfp1 Hfp2. split; [by apply Key_fields|].
  intros (Hu & Hf & Hi). unfold Key. by rewrite Hu, Hf, Hi.
Qed.

Lemma Key_inj_witness :
  0 <= op_fp Sample.shutdownOp
  /\ Key Sample.shutdownOp
     = Key {| op_from := 2500; op_userID := "u1"; op_fp := 7; op_immediate := true |}.
Proof.
  assert (0 <= op_fp Sample.shutdownOp) as H1 by (simpl; lia).
  assert (0 <= op_fp {| op_from := 2500; op_userID := "u1"; op_fp := 7;
                        op_immediate := true |}) as H2 by (simpl; lia).
  split; [exact H1|].
  apply (proj2 (Key_inj Sample.shutdownOp
                  {| op_from := 2500; op_userID := "u1"; op_fp := 7;
                     op_immediate := true |} H1 H2)).
  repeat split.
Defined.

(** X6. [Priority()] puts older data first: of two ops whose [from] is not
    the least 64-bit number, the one with the earlier [from] has the
    strictly higher priority. At the least number the negation wraps and
    the op gets the least priority, below those of both. *)
Theorem Priority_older_first o1 o2 :
  - 2 ^ 63 < op_from o1 -> op_from o1 < op_from o2 -> op_from o2 < 2 ^ 63 ->
  Priority o2 < Priority o1
  /\ forall o, op_from o = - 2 ^ 63 -> Priority o = - 2 ^ 63 /\ Priority o < Priority o2.
Proof.
  intros H1 Hlt H2. unfold Priority.
  rewrite (wrap64_id (- op_from o1)) by (unfold int64_range; lia).
  rewrite (wrap64_id (- op_from o2)) by (unfold int64_range; lia).
  split; [lia|]. intros o ->. split; [reflexivity|].
  change (wrap64 (- - 2 ^ 63)) with (- 2 ^ 63). lia.
Qed.

Lemma Priority_older_first_witness :
  - 2 ^ 63 < op_from Sample.shutdownOp
  /\ Priority {| op_from := 2500; op_userID := "u1"; op_fp := 7; op_immediate := true |}
     < Priority Sample.shutdownOp.
Proof.
  assert (- 2 ^ 63 < op_from Sample.shutdownOp) as H1 by (simpl; lia).
  split; [exact H1|].
  assert (op_from Sample.shutdownOp < 2500) as Hlt by (simpl; lia).
  assert (2500 < 2 ^ 63) as H2 by lia.
  exact (proj1 (Priority_older_first Sample.shutdownOp
                  {| op_from := 2500; op_userID := "u1"; op_fp := 7;
                     op_immediate := true |} H1 Hlt H2)).
Defined.

(** ** The sweeper and the queues *)

Lemma set_flushQueues_id i : set_flushQueues (flushQueues i) i = i.
Proof. by destruct i. Qed.

Lemma firstTime_Some series :
  chunkDescs series <> [] -> exists ft, firstTime series = Some ft.
Proof.
  unfold firstTime. destruct (chunkDescs series) as [|c l]; [done|]. by eexists.
Qed.

(** X7. [sweepSeries] counts a schedule once: it either leaves the ingester
    exactly as it was (the series has no chunk, the policy says NoFlush, or
    an op with the same key already waits in the queue), or it inserts one
    op for the series, with [from] the first time of the series, into the
    queue of the fingerprint, where no op had its key, and adds one to
    [flushReasons] under the label of the reason. It never changes a series,
    so it does not close the head chunk. *)
Theorem sweepSeries_counts_once i now userID fp series immediate i' :
  sweepSeries i now userID fp series immediate = Some i' ->
  userStates i' = userStates i
  /\ (i' = i
      \/ exists j q ft,
           flushQueueIndexOf (cfg i) fp = Some j
           /\ queueAt (flushQueues i) j = Some q
           /\ firstTime series = Some ft
           /\ let op := {| op_from := ft; op_userID := userID; op_fp := fp;
                           op_immediate := immediate |} in
              (Key op ∉ Key <$> pq_items q)
              /\ i' = set_metrics
                        (set_flushReasons
                           (counterAdd
                              (flushReason_String
                                 (shouldFlushSeries (cfg i) now series fp immediate))
                              1 (flushReasons (metrics i)))
                           (metrics i))
                        (set_flushQueues
                           (<[Z.to_nat j := {| pq_items := pq_insert op (pq_items q);
                                               pq_closed := pq_closed q |}]>
                              (flushQueues i)) i)).
Proof.
  unfold sweepSeries. destruct (_ <=? 0); [intros [= <-]; by split; [|left]|].
  destruct (firstTime series) as [ft|] eqn:Hft; [|done]. cbn [mbind option_bind].
  destruct (decide _); [intros [= <-]; by split; [|left]|].
  destruct (flushQueueIndexOf (cfg i) fp) as [j|] eqn:Hj; [|done].
  cbn [mbind option_bind]. unfold enqueueAt.
  destruct (queueAt (flushQueues i) j) as [q|] eqn:Hq; [|done].
  cbn [mbind option_bind]. unfold Enqueue.
  destruct (pq_has _ (pq_items q)) eqn:Hhas; cbn [mbind option_bind].
  - intros [= <-]. split; [done|]. left.
    apply queueAt_Some in Hq as [_ Hq].
    rewrite list_insert_id by done. apply set_flushQueues_id.
  - intros [= <-]. split; [done|]. right. exists j, q, ft.
    repeat split; try done. by apply pq_has_false.
Qed.

Lemma sweepSeries_counts_once_witness :
  exists i',
    sweepSeries Sample.ingester 500000 "u1" 7
      (Sample.seriesOfChunks [Sample.youngChunk]) false = Some i'
    /\ userStates i' = userStates Sample.ingester.
Proof.
  destruct (sweepSeries Sample.ingester 500000 "u1" 7
              (Sample.seriesOfChunks [Sample.youngChunk]) false) as [i'|] eqn:Hrun;
    [|by vm_compute in Hrun].
  exists i'. split; [done|].
  exact (proj1 (sweepSeries_counts_once Sample.ingester 500000 "u1" 7
                  (Sample.seriesOfChunks [Sample.youngChunk]) false i' Hrun)).
Defined.

(** *** No panic *)

Lemma sweepSeries_total i now userID fp series immediate :
  0 < ConcurrentFlushes (cfg i) < 2 ^ 63 ->
  Z.of_nat (length (flushQueues i)) = ConcurrentFlushes (cfg i) ->
  uint64_range fp ->
  exists i', sweepSeries i now userID fp series immediate = Some i'
             /\ cfg i' = cfg i
             /\ length (flushQueues i') = length (flushQueues i).
Proof.
  intros Hn Hlen Hfp. unfold sweepSeries.
  destruct (Z.leb_spec (Z.of_nat (length (chunkDescs series))) 0) as [|Hpos];
    [by eexists|].
  destruct (firstTime_Some series) as [ft ->];
    [intros Hnil; rewrite Hnil in Hpos; simpl in Hpos; lia|].
  cbn [mbind option_bind]. destruct (decide _); [by eexists|].
  rewrite flushQueueIndexOf_mod by done. cbn [mbind option_bind].
  pose proof (Z.mod_pos_bound fp (ConcurrentFlushes (cfg i)) ltac:(lia)) as Hmod.
  unfold enqueueAt, queueAt. destruct (Z.ltb_spec (fp mod ConcurrentFlushes (cfg i)) 0);
    [lia|].
  destruct (lookup_lt_is_Some_2 (flushQueues i) (Z.to_nat (fp mod ConcurrentFlushes (cfg i))))
    as [q Hq]; [lia|].
  rewrite Hq. cbn [mbind option_bind].
  destruct (Enqueue q _) as [q' added]. cbn [mbind option_bind].
  destruct added; eexists; (split; [done|]); split; try done;
    simpl; by rewrite length_insert.
Qed.

Lemma sweepPairs_total immediate clock entries : forall i o,
  0 < ConcurrentFlushes (cfg i) < 2 ^ 63 ->
  Z.of_nat (length (flushQueues i)) = ConcurrentFlushes (cfg i) ->
  (forall id fp s, (id, fp, s) ∈ entries -> uint64_range fp) ->
  exists r, sweepPairs immediate clock entries (i, o) = Some r.
Proof.
  induction entries as [|[[id fp] series] entries IH]; intros i o Hn Hlen Hfp;
    cbn [sweepPairs]; [by eexists|].
  destruct (sweepSeries_total i (clock id fp) id fp series immediate Hn Hlen)
    as (i1 & Hss & Hcfg & Hlen1); [eapply Hfp; left|].
  unfold sweepPair. rewrite Hss. cbn [mbind option_bind].
  pose proof (removeFlushedChunks_inv i1 (clock id fp) id fp series)
    as (Hcfg2 & _ & _ & Hqs & _).
  destruct (removeFlushedChunks i1 (clock id fp) id fp series) as [i2 s'].
  simpl in Hcfg2, Hqs.
  destruct (_ && _); cbn [mbind option_bind]; apply IH;
    try (by rewrite Hcfg2, Hcfg); try (by rewrite Hqs, Hlen1, Hcfg2, Hcfg);
    intros ??? H; eapply Hfp; by right.
Qed.

(** X8. With as many flush queues as [ConcurrentFlushes], a positive
    number, and 64-bit fingerprints, [sweepUsers] runs to its end: no
    division by zero, no queue index or chunk index out of range, for
    whatever series the tenants hold. *)
Theorem sweepUsers_total i clock immediate :
  0 < ConcurrentFlushes (cfg i) < 2 ^ 63 ->
  Z.of_nat (length (flushQueues i)) = ConcurrentFlushes (cfg i) ->
  (forall id fp s, seriesAt (userStates i) id fp = Some s -> uint64_range fp) ->
  exists i', sweepUsers i clock immediate = Some i'.
Proof.
  intros Hn Hlen Hfp. unfold sweepUsers. destruct (chunkStore i); [|by eexists].
  destruct (sweepPairs_total immediate clock (seriesOf (userStates i)) i 0 Hn Hlen)
    as ([i1 o] & Hrun).
  - intros id fp s Hin. eapply Hfp. by apply elem_of_seriesOf.
  - destruct (sweepPairs immediate clock (seriesOf (userStates i)) (i, 0))
      as [[i1' o']|] eqn:E;
      [|exfalso; pose proof (eq_trans (eq_sym E) Hrun) as H; discriminate H].
    cbn [mbind option_bind]. by eexists.
Qed.

Lemma sample_fingerprints id fp s :
  seriesAt (userStates Sample.ingester) id fp = Some s -> uint64_range fp.
Proof.
  intros Hs. apply seriesAt_Some in Hs as (u & Hu & Hs).
  simpl in Hu. apply lookup_singleton_Some in Hu as [_ <-].
  simpl in Hs. apply lookup_singleton_Some in Hs as [<- _].
  unfold uint64_range. lia.
Qed.

Lemma sweepUsers_total_witness :
  0 < ConcurrentFlushes (cfg Sample.ingester) < 2 ^ 63
  /\ Z.of_nat (length (flushQueues Sample.ingester)) = ConcurrentFlushes (cfg Sample.ingester)
  /\ exists i', sweepUsers Sample.ingester Sample.clock true = Some i'.
Proof.
  assert (0 < ConcurrentFlushes (cfg Sample.ingester) < 2 ^ 63) as Hn by (simpl; lia).
  assert (Z.of_nat (length (flushQueues Sample.ingester))
          = ConcurrentFlushes (cfg Sample.ingester)) as Hlen by reflexivity.
  split; [exact Hn|]. split; [exact Hlen|].
  exact (sweepUsers_total Sample.ingester Sample.clock true Hn Hlen sample_fingerprints).
Defined.

(** *** Keys are queued once *)

Lemma pq_insert_keys op l :
  Key <$> pq_insert op l ≡ₚ Key op :: (Key <$> l).
Proof.
  induction l as [|x l IH]; simpl; [done|].
  destruct (Priority x <? Priority op); simpl; [done|].
  rewrite IH. apply Permutation_swap.
Qed.

Lemma Enqueue_NoDup q op :
  NoDup (Key <$> pq_items q) -> NoDup (Key <$> pq_items (Enqueue q op).1).
Proof.
  intros Hnd. unfold Enqueue. destruct (pq_has _ _) eqn:Hhas; simpl; [done|].
  rewrite pq_insert_keys. apply NoDup_cons. split; [by apply pq_has_false|done].
Qed.

Lemma UniqueKeys_insert (qs : list PriorityQueue) k q' :
  UniqueKeys qs -> NoDup (Key <$> pq_items q') -> UniqueKeys (<[k := q']> qs).
Proof.
  intros Hqs Hq' k' q Hlook.
  apply list_lookup_insert_Some in Hlook as [(_ & <- & _)|(_ & Hlook)]; [done|].
  by eapply Hqs.
Qed.

Lemma sweepSeries_UniqueKeys i now userID fp series immediate i' :
  UniqueKeys (flushQueues i) ->
  sweepSeries i now userID fp series immediate = Some i' ->
  UniqueKeys (flushQueues i').
Proof.
  intros Hu Hrun. apply sweepSeries_inv in Hrun
    as (_ & _ & _ & _ & _ & [->|(j & q & op & _ & Hq & _ & _ & _ & _ & ->)]); [done|].
  apply queueAt_Some in Hq as [_ Hq].
  apply UniqueKeys_insert; [done|]. apply Enqueue_NoDup. by eapply Hu.
Qed.

Lemma sweepPairs_UniqueKeys immediate clock entries : forall i o i' o',
  UniqueKeys (flushQueues i) ->
  sweepPairs immediate clock entries (i, o) = Some (i', o') ->
  UniqueKeys (flushQueues i').
Proof.
  induction entries as [|[[id fp] series] entries IH]; intros i o i' o' Hu;
    cbn [sweepPairs].
  - by intros [= <- <-].
  - destruct (sweepPair immediate clock (i, o) (id, fp, series)) as [[i2 o2]|] eqn:Hp;
      [|done]. cbn [mbind option_bind].
    apply sweepPair_inv in Hp as (i1 & Hss & -> & ->).
    pose proof (removeFlushedChunks_inv i1 (clock id fp) id fp series)
      as (_ & _ & _ & Hqs & _).
    apply IH. rewrite Hqs. by eapply sweepSeries_UniqueKeys.
Qed.

(** X9. No key is queued twice: when every flush queue holds each key at
    most once, it still does after a sweep of all users and after a turn of
    a worker, so however often the sweeper runs a queue never holds more
    ops than there are keys. *)
Theorem queues_keep_unique_keys Encode i :
  UniqueKeys (flushQueues i) ->
  (forall clock immediate i',
      sweepUsers i clock immediate = Some i' -> UniqueKeys (flushQueues i'))
  /\ (forall now now1 now2 now3 j i' b,
        flushLoopBody Encode i now now1 now2 now3 j = Some (i', b) ->
        UniqueKeys (flushQueues i')).
Proof.
  intros Hu. split.
  - intros clock immediate i'. unfold sweepUsers.
    destruct (chunkStore i); [|by intros [= <-]].
    destruct (sweepPairs immediate clock (seriesOf (userStates i)) (i, 0))
      as [[i1 oldest]|] eqn:Hrun; [|done].
    cbn [mbind option_bind]. intros [= <-]. simpl.
    by eapply sweepPairs_UniqueKeys.
  - intros now now1 now2 now3 j i' b. unfold flushLoopBody.
    destruct (queueAt (flushQueues i) j) as [q|] eqn:Hq; [|done].
    cbn [mbind option_bind]. apply queueAt_Some in Hq as [Hj Hq].
    destruct (Dequeue q) as [op q'| |] eqn:Hdq;
      [|by intros [= <- <-]|by intros [= <- <-]].
    pose proof (Dequeue_op _ _ _ Hdq) as [Hitems _].
    assert (NoDup (Key <$> pq_items q')) as Hq'.
    { pose proof (Hu _ _ Hq) as Hnd. rewrite Hitems, fmap_cons in Hnd.
      by apply NoDup_cons in Hnd as [_ ?]. }
    destruct (flushUserSeries Encode _ now now1 now2 now3 j (op_userID op) (op_fp op)
                (op_immediate op)) as [[i1 err]|] eqn:Hrun; [|done].
    cbn [mbind option_bind].
    pose proof (flushUserSeries_frame _ _ _ _ _ _ _ _ _ _ _ _ Hrun) as [Hqs _].
    cbn [flushQueues set_flushQueues] in Hqs.
    destruct (op_immediate op && bool_decide (err <> None)).
    + unfold enqueueAt, queueAt. destruct (Z.ltb_spec j 0); [lia|]. rewrite Hqs.
      rewrite list_lookup_insert_eq by (by eapply lookup_lt_Some).
      cbn [mbind option_bind]. destruct (Enqueue q' _) as [q2 added] eqn:HE.
      cbn [mbind option_bind]. intros [= <- <-]. cbn [flushQueues set_flushQueues].
      apply UniqueKeys_insert; [by apply UniqueKeys_insert|].
      replace q2 with (Enqueue q'
                         {| op_from := model.Add (op_from op) flushBackoff;
                            op_userID := op_userID op; op_fp := op_fp op;
                            op_immediate := op_immediate op |}).1 by (by rewrite HE).
      by apply Enqueue_NoDup.
    + intros [= <- <-]. rewrite Hqs. by apply UniqueKeys_insert.
Qed.

Lemma queues_keep_unique_keys_witness :
  UniqueKeys (flushQueues Sample.ingester)
  /\ forall clock immediate i',
       sweepUsers Sample.ingester clock immediate = Some i' ->
       UniqueKeys (flushQueues i').
Proof.
  assert (UniqueKeys (flushQueues Sample.ingester)) as Hu.
  { intros k q Hq.
    change (flushQueues Sample.ingester) with (replicate 4 Sample.emptyQueue) in Hq.
    apply lookup_replicate in Hq as [-> _]. apply NoDup_nil_2. }
  split; [exact Hu|].
  exact (proj1 (queues_keep_unique_keys Sample.encodeOk Sample.ingester Hu)).
Defined.

(** ** What a sweep does to the series and the gauges *)

Lemma reapChunks_prefix cfg now l :
  exists removed,
    l = removed ++ reapChunks cfg now l
    /\ Forall (Reapable cfg now) removed
    /\ (forall c, head (reapChunks cfg now l) = Some c -> ~ Reapable cfg now c).
Proof.
  destruct (reapLoop_prefix cfg now l 0) as (removed & Hl & Hall & Hhd & _).
  by exists removed.
Qed.

Lemma reaped_Some cfg now s s' :
  reaped cfg now s = Some s' ->
  s' = set_chunkDescs (reapChunks cfg now (chunkDescs s)) s
  /\ chunkDescs s' <> [].
Proof.
  unfold reaped. destruct (decide _) as [|Hne]; [done|]. intros [= <-]. by split.
Qed.

Lemma reaped_None cfg now s :
  reaped cfg now s = None -> reapChunks cfg now (chunkDescs s) = [].
Proof. unfold reaped. by destruct (decide _). Qed.

(** The series after the loop of [sweepUsers] over all of them. *)
Lemma sweepPairs_all immediate clock i o i' o' :
  sweepPairs immediate clock (seriesOf (userStates i)) (i, o) = Some (i', o') ->
  cfg i' = cfg i
  /\ forall id fp,
       seriesAt (userStates i') id fp
       = s ← seriesAt (userStates i) id fp; reaped (cfg i) (clock id fp) s.
Proof.
  intros Hrun.
  apply sweepPairs_inv in Hrun as (Hcfg & _ & _ & _ & Hentries & Hothers);
    [|apply NoDup_seriesOf_keys|by intros ???; apply elem_of_seriesOf].
  split; [done|]. intros id fp.
  destruct (seriesAt (userStates i) id fp) as [s|] eqn:Hs; simpl.
  - apply Hentries. by apply elem_of_seriesOf.
  - rewrite Hothers; [done|].
    intros Hin. apply list_elem_of_fmap in Hin as ([[id' fp'] s] & [= -> ->] & Hin).
    apply elem_of_seriesOf in Hin. congruence.
Qed.

(** X10. A sweep loses no unflushed data and makes up none: every chunk
    that is not flushed is, after [sweepUsers], still in its series; a
    series that is still there has lost only a front of chunks that were
    flushed more than [RetainPeriod] before the reading of the clock, and
    is otherwise as it was; and no series appears that was not there. *)
Theorem sweepUsers_keeps_unflushed i clock immediate i' :
  sweepUsers i clock immediate = Some i' ->
  (forall id fp s,
      seriesAt (userStates i) id fp = Some s ->
      (forall c, c ∈ chunkDescs s -> flushed c = false ->
         exists s', seriesAt (userStates i') id fp = Some s' /\ c ∈ chunkDescs s')
      /\ (forall s',
            seriesAt (userStates i') id fp = Some s' ->
            exists removed,
              chunkDescs s = removed ++ chunkDescs s'
              /\ Forall (Reapable (cfg i) (clock id fp)) removed
              /\ s' = set_chunkDescs (chunkDescs s') s))
  /\ (forall id fp,
        seriesAt (userStates i) id fp = None -> seriesAt (userStates i') id fp = None).
Proof.
  unfold sweepUsers. destruct (chunkStore i) as [store|].
  - destruct (sweepPairs immediate clock (seriesOf (userStates i)) (i, 0))
      as [[i1 oldest]|] eqn:Hrun; [|done].
    cbn [mbind option_bind]. intros [= <-]. cbn [userStates set_metrics].
    apply sweepPairs_all in Hrun as [_ Hat]. split.
    + intros id fp s Hs. specialize (Hat id fp). rewrite Hs in Hat. simpl in Hat.
      destruct (reapChunks_prefix (cfg i) (clock id fp) (chunkDescs s))
        as (removed & Hl & Hall & _).
      split.
      * intros c Hc Hf. rewrite Hl in Hc. apply elem_of_app in Hc as [Hc|Hc].
        { rewrite Forall_forall in Hall. destruct (Hall c Hc) as [Hfl _]. congruence. }
        destruct (reaped (cfg i) (clock id fp) s) as [s'|] eqn:Hr.
        -- exists s'. split; [done|]. apply reaped_Some in Hr as [-> _]. done.
        -- apply reaped_None in Hr. rewrite Hr in Hc. by apply elem_of_nil in Hc.
      * intros s' Hs'. rewrite Hs' in Hat. symmetry in Hat.
        apply reaped_Some in Hat as [-> _]. exists removed. by repeat split.
    + intros id fp Hs. rewrite Hat, Hs. done.
  - intros [= <-]. split; [|done]. intros id fp s Hs. split.
    + intros c Hc _. by exists s.
    + intros s' Hs'. rewrite Hs in Hs'. injection Hs' as <-.
      exists []. split; [done|]. split; [constructor|by destruct s].
Qed.

Lemma sweepUsers_keeps_unflushed_witness :
  exists i' s',
    sweepUsers Sample.ingesterStored (fun _ _ => 500000) false = Some i'
    /\ seriesAt (userStates i') "u1" 7 = Some s'
    /\ Sample.youngChunk ∈ chunkDescs s'.
Proof.
  destruct (sweepUsers Sample.ingesterStored (fun _ _ => 500000) false) as [i'|] eqn:Hrun;
    [|by vm_compute in Hrun].
  destruct (sweepUsers_keeps_unflushed Sample.ingesterStored (fun _ _ => 500000) false i'
              Hrun) as [Hkeep _].
  destruct (Hkeep "u1"%string 7 (Sample.seriesOfChunks [Sample.storedChunk; Sample.youngChunk]))
    as [Hc _]; [vm_compute; reflexivity|].
  destruct (Hc Sample.youngChunk) as (s' & Hs' & Hin); [right; left|reflexivity|].
  by exists i', s'.
Defined.

(** *** The memory gauge *)

Lemma sweepSeries_metrics i now userID fp series immediate i' :
  sweepSeries i now userID fp series immediate = Some i' ->
  sameStored (metrics i) (metrics i')
  /\ memoryChunks (metrics i') = memoryChunks (metrics i).
Proof.
  unfold sweepSeries, sameStored. destruct (_ <=? 0); [by intros [= <-]|].
  destruct (firstTime series) as [ft|]; [|done]. cbn [mbind option_bind].
  destruct (decide _); [by intros [= <-]|].
  destruct (flushQueueIndexOf (cfg i) fp) as [j|]; [|done]. cbn [mbind option_bind].
  destruct (enqueueAt _ _ _) as [[qs added]|]; [|done]. cbn [mbind option_bind].
  by destruct added; intros [= <-].
Qed.

Lemma removeFlushedChunks_metrics i now userID fp series :
  sameStored (metrics i) (metrics (removeFlushedChunks i now userID fp series).1)
  /\ memoryChunks (metrics (removeFlushedChunks i now userID fp series).1)
     + Z.of_nat (length (chunkDescs series))
     = memoryChunks (metrics i)
       + Z.of_nat (length (reapChunks (cfg i) now (chunkDescs series))).
Proof.
  unfold removeFlushedChunks, reapChunks, sameStored.
  destruct (reapLoop_prefix (cfg i) now (chunkDescs series) (memoryChunks (metrics i)))
    as (removed & Hl & _ & _ & Hmc).
  rewrite (reapLoop_fst (cfg i) now (chunkDescs series) 0 (memoryChunks (metrics i))).
  destruct (reapLoop (cfg i) now (chunkDescs series) (memoryChunks (metrics i)))
    as [l mc]. simpl in Hl, Hmc. cbn [fst].
  assert (Z.of_nat (length (chunkDescs series))
          = Z.of_nat (length removed) + Z.of_nat (length l)) as Hlen
    by (rewrite Hl, length_app; lia).
  destruct (Z.of_nat (length l) =? 0); simpl; (split; [done|lia]).
Qed.

Lemma sweepPairs_metrics immediate clock entries : forall i o i' o',
  sweepPairs immediate clock entries (i, o) = Some (i', o') ->
  sameStored (metrics i) (metrics i')
  /\ memoryChunks (metrics i')
     + Z.of_nat (sum_list_with (fun e => length (chunkDescs e.2)) entries)
     = memoryChunks (metrics i)
       + Z.of_nat (sum_list_with
                     (fun e => length (reapChunks (cfg i) (clock e.1.1 e.1.2)
                                         (chunkDescs e.2))) entries).
Proof.
  induction entries as [|[[id fp] series] entries IH]; intros i o i' o';
    cbn [sweepPairs].
  - intros [= <- <-]. simpl. unfold sameStored. by repeat split.
  - destruct (sweepPair immediate clock (i, o) (id, fp, series)) as [[i2 o2]|] eqn:Hp;
      [|done]. cbn [mbind option_bind].
    apply sweepPair_inv in Hp as (i1 & Hss & -> & ->).
    pose proof (sweepSeries_inv _ _ _ _ _ _ _ Hss) as (_ & Hcfg & _).
    apply sweepSeries_metrics in Hss as [Hsame1 Hmc1].
    pose proof (removeFlushedChunks_inv i1 (clock id fp) id fp series) as (Hcfg2 & _).
    pose proof (removeFlushedChunks_metrics i1 (clock id fp) id fp series)
      as [Hsame2 Hmc2].
    intros Hrest. apply IH in Hrest as [Hsame3 Hmc3].
    rewrite Hcfg2, Hcfg in Hmc3. rewrite Hcfg in Hmc2. simpl. split.
    + unfold sameStored in *.
      destruct Hsame1 as (?&?&?&?&?&?&?), Hsame2 as (?&?&?&?&?&?&?),
        Hsame3 as (?&?&?&?&?&?&?).
      repeat split; congruence.
    + rewrite !Nat2Z.inj_add. lia.
Qed.

Lemma omap_keys_NoDup {K A B} (g : K * A -> option (K * B)) (l : list (K * A)) :
  (forall e e', g e = Some e' -> e'.1 = e.1) ->
  NoDup (fst <$> l) -> NoDup (fst <$> omap g l).
Proof.
  intros Hg. induction l as [|e l IH]; simpl; [done|].
  intros Hnd. apply NoDup_cons in Hnd as [Hnotin Hnd].
  destruct (g e) as [e'|] eqn:He; simpl; [|by apply IH].
  apply NoDup_cons. split; [|by apply IH].
  intros Hin. apply Hnotin. apply list_elem_of_fmap in Hin as (x & Hx & Hin).
  apply list_elem_of_omap in Hin as (y & Hy & Hgy).
  apply list_elem_of_fmap. exists y. split; [|done].
  rewrite <- (Hg _ _ He), Hx. by apply Hg.
Qed.

(** The series left by a sweep are the reaped series, in some order. *)
Lemma sweepPairs_seriesOf immediate clock i o i' o' :
  sweepPairs immediate clock (seriesOf (userStates i)) (i, o) = Some (i', o') ->
  seriesOf (userStates i')
  ≡ₚ omap (fun e => (fun s' => (e.1, s')) <$> reaped (cfg i) (clock e.1.1 e.1.2) e.2)
       (seriesOf (userStates i)).
Proof.
  intros Hrun. apply sweepPairs_all in Hrun as [_ Hat].
  apply NoDup_Permutation.
  - eapply NoDup_fmap_1. apply NoDup_seriesOf_keys.
  - eapply (NoDup_fmap_1 fst). apply omap_keys_NoDup; [|apply NoDup_seriesOf_keys].
    intros e e' He. destruct (reaped _ _ _); [|done]. by injection He as <-.
  - intros [[id fp] s']. rewrite elem_of_seriesOf, list_elem_of_omap, Hat. split.
    + destruct (seriesAt (userStates i) id fp) as [s|] eqn:Hs; [|done]. simpl.
      intros Hr. exists (id, fp, s). split; [by apply elem_of_seriesOf|].
      simpl. by rewrite Hr.
    + intros ([[id' fp'] s] & Hin & Hg). simpl in Hg.
      apply elem_of_seriesOf in Hin.
      destruct (reaped (cfg i) (clock id' fp') s) as [s''|] eqn:Hr; [|done].
      injection Hg as -> -> ->. by rewrite Hin.
Qed.

Lemma sum_reaped cfg (clock : string -> Z -> model.Time)
    (l : list (string * Z * memorySeries)) :
  sum_list_with (fun e => length (chunkDescs e.2))
    (omap (fun e => (fun s' => (e.1, s')) <$> reaped cfg (clock e.1.1 e.1.2) e.2) l)
  = sum_list_with
      (fun e => length (reapChunks cfg (clock e.1.1 e.1.2) (chunkDescs e.2))) l.
Proof.
  induction l as [|[[id fp] s] l IH]; [done|]. csimpl.
  destruct (reaped cfg (clock id fp) s) as [s'|] eqn:Hr; csimpl.
  - apply reaped_Some in Hr as [-> _]. csimpl. by rewrite IH.
  - apply reaped_None in Hr. rewrite Hr. csimpl. by rewrite IH.
Qed.

(** X11. A sweep keeps the [memoryChunks] gauge in step with the chunks in
    memory: [sweepUsers] lowers the gauge by exactly the number of chunks
    it takes out of the series, so the difference between the gauge and
    the number of chunks held is the same after the sweep as before; and
    it changes none of the metrics of stored or dropped chunks. *)
Theorem sweepUsers_memoryChunks i clock immediate i' :
  sweepUsers i clock immediate = Some i' ->
  memoryChunks (metrics i') - Z.of_nat (chunkCount (userStates i'))
  = memoryChunks (metrics i) - Z.of_nat (chunkCount (userStates i))
  /\ sameStored (metrics i) (metrics i').
Proof.
  unfold sweepUsers. destruct (chunkStore i) as [store|];
    [|intros [= <-]; split; [done|unfold sameStored; by repeat split]].
  destruct (sweepPairs immediate clock (seriesOf (userStates i)) (i, 0))
    as [[i1 oldest]|] eqn:Hrun; [|done].
  cbn [mbind option_bind]. intros [= <-].
  cbn [userStates metrics set_metrics memoryChunks set_oldestUnflushedChunkTimestamp].
  pose proof (sweepPairs_metrics _ _ _ _ _ _ _ Hrun) as [Hsame Hmc].
  pose proof (sweepPairs_seriesOf _ _ _ _ _ _ Hrun) as Hperm.
  split.
  - unfold chunkCount. rewrite Hperm, sum_reaped. lia.
  - unfold sameStored in *. destruct Hsame as (?&?&?&?&?&?&?). by repeat split.
Qed.

Lemma sweepUsers_memoryChunks_witness :
  exists i',
    sweepUsers Sample.ingesterStored (fun _ _ => 500000) false = Some i'
    /\ memoryChunks (metrics i') - Z.of_nat (chunkCount (userStates i'))
       = memoryChunks (metrics Sample.ingesterStored)
         - Z.of_nat (chunkCount (userStates Sample.ingesterStored)).
Proof.
  destruct (sweepUsers Sample.ingesterStored (fun _ _ => 500000) false) as [i'|] eqn:Hrun;
    [|by vm_compute in Hrun].
  exists i'. split; [done|].
  exact (proj1 (sweepUsers_memoryChunks Sample.ingesterStored (fun _ _ => 500000) false
                  i' Hrun)).
Defined.

(** ** What a sweep schedules *)

Lemma pq_has_true k l : pq_has k l = true -> exists x, x ∈ l /\ Key x = k.
Proof.
  unfold pq_has. induction l as [|x l IH]; simpl; [done|].
  intros H. apply orb_true_iff in H as [H|H].
  - apply bool_decide_eq_true in H. exists x. split; [left|done].
  - destruct (IH H) as (y & Hy & Hk). exists y. split; [by right|done].
Qed.

Lemma Enqueue_keeps q op x :
  x ∈ pq_items q -> x ∈ pq_items (Enqueue q op).1.
Proof.
  intros Hx. unfold Enqueue. destruct (pq_has _ _); simpl; [done|].
  apply pq_insert_elem_of. by right.
Qed.

Lemma Enqueue_has_key q op :
  exists op', op' ∈ pq_items (Enqueue q op).1 /\ Key op' = Key op.
Proof.
  unfold Enqueue. destruct (pq_has _ _) eqn:Hhas; simpl.
  - by apply pq_has_true.
  - exists op. split; [|done]. apply pq_insert_elem_of. by left.
Qed.

Lemma sweepSeries_Queued_keep i now userID fp series immediate i' j op :
  Queued (flushQueues i) j op ->
  sweepSeries i now userID fp series immediate = Some i' ->
  Queued (flushQueues i') j op.
Proof.
  intros (q & op' & Hq & Hin & Hk) Hrun.
  apply sweepSeries_inv in Hrun
    as (_ & _ & _ & _ & _ & [->|(j' & q' & opn & _ & Hq' & _ & _ & _ & _ & ->)]);
    [by exists q, op'|].
  apply queueAt_Some in Hq as [Hj Hq]. apply queueAt_Some in Hq' as [Hj' Hq'].
  unfold Queued, queueAt. destruct (Z.ltb_spec j 0); [lia|].
  destruct (decide (Z.to_nat j' = Z.to_nat j)) as [He|Hne].
  - rewrite He in *. rewrite Hq in Hq'. injection Hq' as <-.
    exists (Enqueue q opn).1, op'.
    split; [apply list_lookup_insert_eq; by eapply lookup_lt_Some|].
    split; [by apply Enqueue_keeps|done].
  - exists q, op'. split; [by rewrite list_lookup_insert_ne|done].
Qed.

Lemma sweepSeries_Queued_new i now userID fp series immediate i' :
  0 < ConcurrentFlushes (cfg i) < 2 ^ 63 ->
  uint64_range fp ->
  shouldFlushSeries (cfg i) now series fp immediate <> noFlush ->
  sweepSeries i now userID fp series immediate = Some i' ->
  Queued (flushQueues i') (fp mod ConcurrentFlushes (cfg i))
    (opFor userID fp series immediate).
Proof.
  intros Hn Hfp Hr. unfold sweepSeries, opFor.
  pose proof (shouldFlushSeries_nonempty _ _ _ _ _ Hr) as Hne.
  destruct (Z.leb_spec (Z.of_nat (length (chunkDescs series))) 0) as [Hz|_];
    [destruct (chunkDescs series); simpl in *; [done|lia]|].
  destruct (firstTime series) as [ft|]; [|done]. cbn [mbind option_bind default].
  rewrite decide_False by done.
  rewrite flushQueueIndexOf_mod by done. cbn [mbind option_bind].
  unfold enqueueAt.
  destruct (queueAt (flushQueues i) (fp mod ConcurrentFlushes (cfg i))) as [q|] eqn:Hq;
    [|done].
  cbn [mbind option_bind].
  destruct (Enqueue_has_key q {| op_from := ft; op_userID := userID; op_fp := fp;
                                 op_immediate := immediate |}) as (op' & Hin & Hk).
  destruct (Enqueue q _) as [q' added]. simpl in Hin.
  cbn [mbind option_bind]. apply queueAt_Some in Hq as [Hj Hq].
  assert (Queued (<[Z.to_nat (fp mod ConcurrentFlushes (cfg i)) := q']> (flushQueues i))
            (fp mod ConcurrentFlushes (cfg i))
            {| op_from := ft; op_userID := userID; op_fp := fp;
               op_immediate := immediate |}) as HQ.
  { exists q', op'. unfold queueAt.
    destruct (Z.ltb_spec (fp mod ConcurrentFlushes (cfg i)) 0); [lia|].
    split; [apply list_lookup_insert_eq; by eapply lookup_lt_Some|done]. }
  by destruct added; intros [= <-].
Qed.

Lemma sweepPairs_Queued_keep immediate clock entries : forall i o i' o' j op,
  Queued (flushQueues i) j op ->
  sweepPairs immediate clock entries (i, o) = Some (i', o') ->
  Queued (flushQueues i') j op.
Proof.
  induction entries as [|[[id fp] series] entries IH]; intros i o i' o' j op HQ;
    cbn [sweepPairs].
  - by intros [= <- <-].
  - destruct (sweepPair immediate clock (i, o) (id, fp, series)) as [[i2 o2]|] eqn:Hp;
      [|done]. cbn [mbind option_bind].
    apply sweepPair_inv in Hp as (i1 & Hss & -> & ->).
    pose proof (removeFlushedChunks_inv i1 (clock id fp) id fp series)
      as (_ & _ & _ & Hqs & _).
    apply IH. rewrite Hqs. by eapply sweepSeries_Queued_keep.
Qed.

Lemma sweepPairs_Queued immediate clock entries : forall i o i' o',
  0 < ConcurrentFlushes (cfg i) < 2 ^ 63 ->
  (forall id fp s, (id, fp, s) ∈ entries -> uint64_range fp) ->
  sweepPairs immediate clock entries (i, o) = Some (i', o') ->
  forall id fp s,
    (id, fp, s) ∈ entries ->
    shouldFlushSeries (cfg i) (clock id fp) s fp immediate <> noFlush ->
    Queued (flushQueues i') (fp mod ConcurrentFlushes (cfg i)) (opFor id fp s immediate).
Proof.
  induction entries as [|[[id fp] series] entries IH]; intros i o i' o' Hn Hfp;
    cbn [sweepPairs].
  - intros _ ??? H. by apply elem_of_nil in H.
  - destruct (sweepPair immediate clock (i, o) (id, fp, series)) as [[i2 o2]|] eqn:Hp;
      [|done]. cbn [mbind option_bind].
    apply sweepPair_inv in Hp as (i1 & Hss & -> & ->).
    pose proof (sweepSeries_inv _ _ _ _ _ _ _ Hss) as (_ & Hcfg & _).
    pose proof (removeFlushedChunks_inv i1 (clock id fp) id fp series)
      as (Hcfg2 & _ & _ & Hqs & _).
    intros Hrest id' fp' s' Hin Hr.
    apply elem_of_cons in Hin as [[= -> -> ->]|Hin].
    + eapply sweepPairs_Queued_keep; [|exact Hrest]. rewrite Hqs.
      eapply sweepSeries_Queued_new; [done| |done|done]. eapply Hfp. left.
    + rewrite <- Hcfg, <- Hcfg2.
      eapply IH; [by rewrite Hcfg2, Hcfg| |exact Hrest|done|by rewrite Hcfg2, Hcfg].
      intros ??? H. eapply Hfp. by right.
Qed.

(** X12. A sweep schedules every series the policy wants flushed: after
    [sweepUsers] with a store, each series for which [shouldFlushSeries]
    gave a reason at its reading of the clock has an op with its key (user,
    fingerprint, [immediate]) waiting on the queue of its fingerprint,
    either the op this sweep enqueued or one already there. With
    [immediate] true that is every series with a chunk, as on shutdown. *)
Theorem sweepUsers_schedules i clock immediate i' :
  0 < ConcurrentFlushes (cfg i) < 2 ^ 63 ->
  (forall id fp s, seriesAt (userStates i) id fp = Some s -> uint64_range fp) ->
  chunkStore i <> None ->
  sweepUsers i clock immediate = Some i' ->
  (forall id fp s,
      seriesAt (userStates i) id fp = Some s ->
      shouldFlushSeries (cfg i) (clock id fp) s fp immediate <> noFlush ->
      Queued (flushQueues i') (fp mod ConcurrentFlushes (cfg i))
        (opFor id fp s immediate))
  /\ (immediate = true ->
      forall id fp s,
        seriesAt (userStates i) id fp = Some s -> chunkDescs s <> [] ->
        Queued (flushQueues i') (fp mod ConcurrentFlushes (cfg i)) (opFor id fp s true)).
Proof.
  intros Hn Hfp Hstore. unfold sweepUsers. destruct (chunkStore i) as [store|]; [|done].
  destruct (sweepPairs immediate clock (seriesOf (userStates i)) (i, 0))
    as [[i1 oldest]|] eqn:Hrun; [|done].
  cbn [mbind option_bind]. intros [= <-]. cbn [flushQueues set_metrics].
  assert (forall id fp s,
             seriesAt (userStates i) id fp = Some s ->
             shouldFlushSeries (cfg i) (clock id fp) s fp immediate <> noFlush ->
             Queued (flushQueues i1) (fp mod ConcurrentFlushes (cfg i))
               (opFor id fp s immediate)) as Hall.
  { intros id fp s Hs Hr.
    eapply sweepPairs_Queued; [done| |exact Hrun| |done].
    - intros ??? Hin. eapply Hfp. by apply elem_of_seriesOf.
    - by apply elem_of_seriesOf. }
  split; [exact Hall|]. intros -> id fp s Hs Hne. apply Hall; [done|].
  unfold shouldFlushSeries. by destruct (chunkDescs s).
Qed.

Lemma sweepUsers_schedules_witness :
  exists i',
    sweepUsers Sample.ingester Sample.clock true = Some i'
    /\ Queued (flushQueues i') (7 mod ConcurrentFlushes (cfg Sample.ingester))
         (opFor "u1" 7 (Sample.seriesOfChunks [Sample.youngChunk]) true).
Proof.
  assert (0 < ConcurrentFlushes (cfg Sample.ingester) < 2 ^ 63) as Hn by (simpl; lia).
  assert (forall id fp s,
             seriesAt (userStates Sample.ingester) id fp = Some s -> uint64_range fp)
    as Hfp.
  { intros id fp s Hs. apply seriesAt_Some in Hs as (u & Hu & Hs).
    simpl in Hu. apply lookup_singleton_Some in Hu as [_ <-].
    simpl in Hs. apply lookup_singleton_Some in Hs as [<- _].
    unfold uint64_range. lia. }
  destruct (sweepUsers Sample.ingester Sample.clock true) as [i'|] eqn:Hrun;
    [|by vm_compute in Hrun].
  exists i'. split; [done|].
  destruct (sweepUsers_schedules Sample.ingester Sample.clock true i' Hn Hfp
              ltac:(done) Hrun) as [_ Himm].
  apply (Himm eq_refl "u1"%string 7 (Sample.seriesOfChunks [Sample.youngChunk]));
    [vm_compute; reflexivity|done].
Defined.

(** ** The reaper run twice *)

Lemma reapLoop_again cfg now l mc mc' :
  reapLoop cfg now (reapLoop cfg now l mc).1 mc' = ((reapLoop cfg now l mc).1, mc').
Proof.
  revert mc. induction l as [|c l IH]; intros mc; simpl; [done|].
  destruct (reapable cfg now c) eqn:Hc; [apply IH|]. simpl. by rewrite Hc.
Qed.

Lemma writeSeries_twice userID fp s us :
  writeSeries userID fp s (writeSeries userID fp s us) = writeSeries userID fp s us.
Proof.
  unfold writeSeries. rewrite alter_alter_eq. apply alter_ext. intros u _. simpl.
  f_equal. by rewrite alter_alter_eq.
Qed.

Lemma writeSeries_dropped userID fp s us :
  writeSeries userID fp s (dropSeries userID fp us) = dropSeries userID fp us.
Proof.
  unfold writeSeries, dropSeries. rewrite alter_alter_eq. apply alter_ext.
  intros u _. unfold removeSeries. simpl. f_equal.
  apply alter_id'. apply lookup_delete_eq.
Qed.

Lemma dropSeries_twice userID fp us :
  dropSeries userID fp (dropSeries userID fp us) = dropSeries userID fp us.
Proof.
  unfold dropSeries. rewrite alter_alter_eq. apply alter_ext. intros u _.
  unfold removeSeries. simpl. f_equal. apply delete_delete_eq.
Qed.

(** X13. [removeFlushedChunks] finishes its work in one call: called again
    at the same reading of the clock on the series it left, it changes
    nothing more, neither the series nor the tenant's map nor the
    [memoryChunks] gauge. *)
Theorem removeFlushedChunks_idempotent i now userID fp series :
  removeFlushedChunks (removeFlushedChunks i now userID fp series).1 now userID fp
    (removeFlushedChunks i now userID fp series).2
  = removeFlushedChunks i now userID fp series.
Proof.
  unfold removeFlushedChunks.
  pose proof (reapLoop_again (cfg i) now (chunkDescs series) (memoryChunks (metrics i)))
    as Hagain.
  destruct (reapLoop (cfg i) now (chunkDescs series) (memoryChunks (metrics i)))
    as [l mc] eqn:E. simpl in Hagain.
  destruct (Z.of_nat (length l) =? 0) eqn:Hz; simpl; rewrite Hagain; simpl;
    rewrite Hz; simpl.
  - change (set_chunkDescs l (set_chunkDescs l series)) with (set_chunkDescs l series).
    f_equal. unfold set_metrics, set_userStates, set_memoryChunks. simpl.
    f_equal. rewrite writeSeries_dropped. apply dropSeries_twice.
  - change (set_chunkDescs l (set_chunkDescs l series)) with (set_chunkDescs l series).
    f_equal. unfold set_metrics, set_userStates, set_memoryChunks. simpl.
    f_equal. apply writeSeries_twice.
Qed.

(** ** The flush executor: which chunks, what the store sees *)

Lemma closeHead_fields r s :
  descData <$> chunkDescs (closeHead r s) = descData <$> chunkDescs s.
Proof. unfold closeHead. simpl. by apply fmap_alter_same. Qed.

(** X14. The executor flushes the oldest chunks first: for a series that
    is to be flushed, the chunks chosen are a front of its descriptors, all
    of them or all but the head. On the immediate path they are all; the
    head is left out only when [shouldFlushChunk], at its own reading of
    the clock, gives no reason to flush it, and then the series is not
    touched. No chunk at all is chosen only for a series of one chunk on
    which the re-check and the check of the head disagree; when the clock
    has not gone back between the two readings, at least one chunk is
    chosen. Closing the head changes no payload, time or flushed mark of
    any chunk. *)
Theorem selectChunks_oldest_first cfg now now1 series fp immediate series1 chunks :
  shouldFlushSeries cfg now series fp immediate <> noFlush ->
  selectChunks cfg now1 series fp immediate = Some (series1, chunks) ->
  descData <$> chunkDescs series1 = descData <$> chunkDescs series
  /\ (chunks = chunkDescs series1
      \/ (immediate = false /\ series1 = series
          /\ chunks = take (Nat.pred (length (chunkDescs series))) (chunkDescs series)
          /\ exists h, last (chunkDescs series) = Some h
                       /\ shouldFlushChunk cfg now1 h fp (isStale series) = noFlush))
  /\ (chunks = [] ->
      immediate = false
      /\ exists h, chunkDescs series = [h]
                   /\ shouldFlushChunk cfg now h fp (isStale series) <> noFlush
                   /\ shouldFlushChunk cfg now1 h fp (isStale series) = noFlush)
  /\ (now <= now1 ->
      (forall c0, chunkDescs series !! 0%nat = Some c0 ->
          int64_range ((now - LastUpdate c0) * 1000000)
          /\ int64_range ((now1 - LastUpdate c0) * 1000000)) ->
      chunks <> []).
Proof.
  intros Hr Hsel.
  pose proof (shouldFlushSeries_nonempty _ _ _ _ _ Hr) as Hne.
  split; [|split; [|split]].
  - destruct (selectChunks_closes _ _ _ _ _ _ _ Hsel) as ([->|[r ->]] & _); [done|].
    apply closeHead_fields.
  - unfold selectChunks in Hsel. destruct immediate.
    + injection Hsel as <- <-. by left.
    + unfold seriesHead in Hsel.
      destruct (last (chunkDescs series)) as [h|] eqn:Hlast; [|done].
      cbn [mbind option_bind] in Hsel.
      destruct (decide (shouldFlushChunk cfg now1 h fp (isStale series) <> noFlush))
        as [Hc|Hc].
      * injection Hsel as <- <-. by left.
      * injection Hsel as <- <-. right. repeat split.
        exists h. split; [done|].
        by destruct (decide (shouldFlushChunk cfg now1 h fp (isStale series) = noFlush)).
  - intros ->. apply selectChunks_nil in Hsel as (-> & _ & h & Hh & Hno); [|done].
    split; [done|]. exists h. split; [done|]. split; [|done].
    unfold shouldFlushSeries in Hr. by rewrite Hh in Hr.
  - intros Hle Hrange. by eapply selectChunks_nonempty_later.
Qed.

Lemma selectChunks_oldest_first_witness :
  shouldFlushSeries Sample.config 500000
    (Sample.seriesOfChunks [Sample.youngChunk]) 7 false <> noFlush
  /\ selectChunks Sample.config 500001 (Sample.seriesOfChunks [Sample.youngChunk]) 7 false
     = Some (Sample.closedSeries reasonIdle, [Sample.closedChunk reasonIdle])
  /\ [Sample.closedChunk reasonIdle] <> [].
Proof.
  assert (shouldFlushSeries Sample.config 500000
            (Sample.seriesOfChunks [Sample.youngChunk]) 7 false <> noFlush) as Hr
    by (vm_compute; discriminate).
  assert (selectChunks Sample.config 500001
            (Sample.seriesOfChunks [Sample.youngChunk]) 7 false
          = Some (Sample.closedSeries reasonIdle, [Sample.closedChunk reasonIdle])) as Hsel
    by (vm_compute; reflexivity).
  split; [exact Hr|]. split; [exact Hsel|].
  apply (proj2 (proj2 (proj2 (selectChunks_oldest_first Sample.config 500000 500001
                                (Sample.seriesOfChunks [Sample.youngChunk]) 7 false _ _
                                Hr Hsel)))).
  - lia.
  - intros c0 [= <-]. unfold int64_range. simpl. lia.
Defined.

Lemma encodeChunks_first_error Encode userID fp metric chunks e :
  encodeChunks Encode userID fp metric chunks = inl e ->
  exists before d after,
    chunks = before ++ d :: after
    /\ Forall (fun c => Encode (wireOf userID fp metric c) = None) before
    /\ Encode (wireOf userID fp metric d) = Some e.
Proof.
  induction chunks as [|d chunks IH]; simpl; [done|].
  destruct (Encode _) as [e'|] eqn:He.
  - intros [= ->]. exists [], d, chunks. by repeat split.
  - destruct (encodeChunks Encode userID fp metric chunks); [|done].
    intros [= ->]. destruct IH as (before & d' & after & -> & Hall & Hd); [done|].
    exists (d :: before), d', after. repeat split; [by constructor|done].
Qed.

Lemma encodeChunks_all Encode userID fp metric chunks wireChunks :
  encodeChunks Encode userID fp metric chunks = inr wireChunks ->
  wireChunks = wireOf userID fp metric <$> chunks
  /\ Forall (fun c => Encode (wireOf userID fp metric c) = None) chunks.
Proof.
  revert wireChunks. induction chunks as [|d chunks IH]; simpl; intros w.
  - intros [= <-]. by split.
  - destruct (Encode _) eqn:He; [done|].
    destruct (encodeChunks Encode userID fp metric chunks); [done|].
    intros [= <-]. destruct (IH _ eq_refl) as [-> Hall]. split; [done|by constructor].
Qed.

(** X15. [flushChunks] talks to the store at most once. If some chunk fails
    to encode, it returns the error of the first such chunk and the
    ingester and the store are as before: [Put] is not called. Otherwise
    [Put] is called once, with one wire chunk per descriptor, in order,
    carrying the user, fingerprint, labels, payload and first and last
    time, and what [Put] answers is what [flushChunks] returns. *)
Theorem flushChunks_store Encode i now userID fp metric chunks store i2 err :
  chunkStore i = Some store ->
  flushChunks Encode i now userID fp metric chunks = Some (i2, err) ->
  (i2 = i
   /\ exists before d after e,
        chunks = before ++ d :: after
        /\ Forall (fun c => Encode (wireOf userID fp metric c) = None) before
        /\ Encode (wireOf userID fp metric d) = Some e
        /\ err = Some e)
  \/ (Forall (fun c => Encode (wireOf userID fp metric c) = None) chunks
      /\ err = Put store (putLog store) (wireOf userID fp metric <$> chunks)
      /\ chunkStore i2
         = Some {| Put := Put store;
                   putLog := putLog store ++ [wireOf userID fp metric <$> chunks] |}).
Proof.
  intros Hst Hrun. apply flushChunks_inv in Hrun
    as [(e & Henc & -> & ->)
       |(w & st & Henc & Hst' & [(e & Hput & -> & ->)|(Hput & -> & ->)])].
  - left. split; [done|].
    apply encodeChunks_first_error in Henc as (before & d & after & ? & ? & ?).
    by exists before, d, after, e.
  - right. rewrite Hst in Hst'. injection Hst' as <-.
    apply encodeChunks_all in Henc as [-> Hall]. by repeat split.
  - right. rewrite Hst in Hst'. injection Hst' as <-.
    apply encodeChunks_all in Henc as [-> Hall]. by repeat split.
Qed.

Lemma flushChunks_store_witness :
  chunkStore Sample.ingester = Some Sample.okStore
  /\ exists i2,
       flushChunks Sample.encodeOk Sample.ingester (fun _ => 500100) "u1" 7
         [("__name__", "up")]%string [Sample.youngChunk] = Some (i2, None)
       /\ chunkStore i2
          = Some {| Put := Put Sample.okStore; putLog := [[Sample.wireChunk]] |}.
Proof.
  split; [reflexivity|].
  destruct (flushChunks Sample.encodeOk Sample.ingester (fun _ => 500100) "u1" 7
              [("__name__", "up")]%string [Sample.youngChunk]) as [[i2 err]|] eqn:Hrun;
    [|by vm_compute in Hrun].
  destruct (flushChunks_store Sample.encodeOk Sample.ingester (fun _ => 500100) "u1" 7
              [("__name__", "up")]%string [Sample.youngChunk] Sample.okStore i2 err
              eq_refl Hrun) as [(_ & ? & ? & ? & ? & _ & _ & He & _)|(_ & -> & Hst)].
  - exfalso. discriminate He.
  - exists i2. split; [reflexivity|exact Hst].
Defined.

(** *** The stored-chunk metrics *)

Lemma counterAdd_lookup l v c u :
  default 0 (counterAdd l v c !! u)
  = default 0 (c !! u) + (if decide (u = l) then v else 0).
Proof.
  unfold counterAdd. destruct (decide (u = l)) as [->|Hne].
  - by rewrite lookup_insert_eq.
  - rewrite lookup_insert_ne by done. lia.
Qed.

Lemma observeLoop_metrics userID (now2 : nat -> model.Time) chunks : forall idx m,
  let m' := observeLoop userID now2 idx chunks m in
  chunkUtilization m' = chunkUtilization m ++ ((fun d => Utilization (C d)) <$> chunks)
  /\ chunkLength m' = chunkLength m ++ ((fun d => Len (C d)) <$> chunks)
  /\ chunkSize m' = chunkSize m ++ ((fun d => Size (C d)) <$> chunks)
  /\ chunkAge m'
     = chunkAge m
       ++ imap (fun k d => model.Sub (now2 (idx + k)%nat) (FirstTime d)) chunks
  /\ (forall u,
        default 0 (chunksPerUser m' !! u)
        = default 0 (chunksPerUser m !! u)
          + (if decide (u = userID) then Z.of_nat (length chunks) else 0))
  /\ (forall u,
        default 0 (chunkSizePerUser m' !! u)
        = default 0 (chunkSizePerUser m !! u)
          + (if decide (u = userID) then totalSize chunks else 0))
  /\ memoryChunks m' = memoryChunks m
  /\ droppedChunks m' = droppedChunks m
  /\ flushReasons m' = flushReasons m
  /\ oldestUnflushedChunkTimestamp m' = oldestUnflushedChunkTimestamp m.
Proof.
  induction chunks as [|d chunks IH]; intros idx m; cbn zeta.
  - simpl. rewrite !app_nil_r. repeat split; try done;
      intros u; destruct (decide _); lia.
  - cbn [observeLoop].
    destruct (IH (S idx) (observeStored userID (now2 idx) d m))
      as (-> & -> & -> & -> & Hc & Hs & -> & -> & -> & ->).
    cbn [observeStored chunkUtilization chunkLength chunkSize chunkAge memoryChunks
         droppedChunks flushReasons oldestUnflushedChunkTimestamp fmap list_fmap].
    rewrite imap_cons, Nat.add_0_r.
    rewrite (imap_ext (_ ∘ S)
               (fun k d0 => model.Sub (now2 (S idx + k)%nat) (FirstTime d0)) chunks)
      by (intros k d0 _; cbn [compose]; by rewrite Nat.add_succ_r).
    rewrite <- !app_assoc. repeat split; try done.
    + intros u. rewrite Hc. cbn [chunksPerUser observeStored].
      rewrite counterAdd_lookup. cbn [length]. destruct (decide _); lia.
    + intros u. rewrite Hs. cbn [chunkSizePerUser observeStored].
      rewrite counterAdd_lookup. cbn [totalSize foldr]. fold (totalSize chunks).
      destruct (decide _); lia.
Qed.

(** X16. [flushChunks] records its statistics only for a batch the store
    accepted: on an error no metric changes; on success the tenant's
    [chunks_stored_total] goes up by the number of chunks and its
    [chunk_stored_bytes_total] by their sizes, the four histograms get one
    observation per chunk, in order, the age of a chunk being taken at the
    reading of the clock for that chunk, and the counters of other tenants
    and all other metrics stay as they were. *)
Theorem flushChunks_metrics Encode i (now : nat -> model.Time) userID fp metric
    chunks i2 err :
  flushChunks Encode i now userID fp metric chunks = Some (i2, err) ->
  (err <> None -> metrics i2 = metrics i)
  /\ (err = None ->
      (forall u,
          default 0 (chunksPerUser (metrics i2) !! u)
          = default 0 (chunksPerUser (metrics i) !! u)
            + (if decide (u = userID) then Z.of_nat (length chunks) else 0))
      /\ (forall u,
            default 0 (chunkSizePerUser (metrics i2) !! u)
            = default 0 (chunkSizePerUser (metrics i) !! u)
              + (if decide (u = userID) then totalSize chunks else 0))
      /\ chunkUtilization (metrics i2)
         = chunkUtilization (metrics i) ++ ((fun d => Utilization (C d)) <$> chunks)
      /\ chunkLength (metrics i2)
         = chunkLength (metrics i) ++ ((fun d => Len (C d)) <$> chunks)
      /\ chunkSize (metrics i2)
         = chunkSize (metrics i) ++ ((fun d => Size (C d)) <$> chunks)
      /\ chunkAge (metrics i2)
         = chunkAge (metrics i)
           ++ imap (fun k d => model.Sub (now k) (FirstTime d)) chunks
      /\ memoryChunks (metrics i2) = memoryChunks (metrics i)
      /\ droppedChunks (metrics i2) = droppedChunks (metrics i)
      /\ flushReasons (metrics i2) = flushReasons (metrics i)
      /\ oldestUnflushedChunkTimestamp (metrics i2)
         = oldestUnflushedChunkTimestamp (metrics i)).
Proof.
  intros Hrun. apply flushChunks_inv in Hrun
    as [(e & Henc & -> & ->)
       |(w & st & Henc & Hst' & [(e & Hput & -> & ->)|(Hput & -> & ->)])].
  - split; [done|]. intros H. discriminate H.
  - split; [done|]. intros H. discriminate H.
  - split; [done|]. intros _. cbn [metrics set_metrics set_chunkStore].
    destruct (observeLoop_metrics userID now chunks 0%nat (metrics i))
      as (? & ? & ? & ? & ? & ? & ? & ? & ? & ?).
    by repeat split.
Qed.

Lemma flushChunks_metrics_witness :
  exists i2,
    flushChunks Sample.encodeOk Sample.ingester (fun _ => 500100) "u1" 7
      [("__name__", "up")]%string [Sample.youngChunk] = Some (i2, None)
    /\ default 0 (chunksPerUser (metrics i2) !! "u1"%string) = 1.
Proof.
  destruct (flushChunks Sample.encodeOk Sample.ingester (fun _ => 500100) "u1" 7
              [("__name__", "up")]%string [Sample.youngChunk]) as [[i2 [e|]]|] eqn:Hrun;
    [by vm_compute in Hrun| |by vm_compute in Hrun].
  exists i2. split; [reflexivity|].
  destruct (flushChunks_metrics Sample.encodeOk Sample.ingester (fun _ => 500100) "u1" 7
              [("__name__", "up")]%string [Sample.youngChunk] i2 None Hrun)
    as [_ Hok].
  destruct (Hok eq_refl) as (Hc & _). rewrite Hc. reflexivity.
Defined.

(** ** The flush executor: errors, panics, reach *)

(** X17. [flushUserSeries] fails only through the store: an error it
    returns is the error of [Encode] on a chunk or of [Put] on the batch of
    an invocation that reached the store. A tenant or a series that is not
    there, and a series the policy no longer wants flushed, give success
    and leave the ingester exactly as it was. *)
Theorem flushUserSeries_error_source Encode i now now1 now2 now3 j userID fp
    immediate :
  (forall i' e,
      flushUserSeries Encode i now now1 now2 now3 j userID fp immediate
      = Some (i', Some e) ->
      exists series series1 chunks,
        ReachesStore i now now1 userID fp immediate series series1 chunks
        /\ StoreFails Encode i userID fp (metric series1) chunks e)
  /\ (seriesAt (userStates i) userID fp = None ->
      flushUserSeries Encode i now now1 now2 now3 j userID fp immediate
      = Some (i, None))
  /\ (forall series,
        seriesAt (userStates i) userID fp = Some series ->
        shouldFlushSeries (cfg i) now series fp immediate = noFlush ->
        flushUserSeries Encode i now now1 now2 now3 j userID fp immediate
        = Some (i, None)).
Proof.
  split; [|split].
  - intros i' e Hrun. apply flushUserSeries_inv in Hrun
      as [(_ & He & _)|(series & series1 & chunks & Hs & Hr & Hsel & Hcases)];
      [done|].
    cbv zeta in Hcases.
    destruct Hcases as [(_ & _ & He)|[(_ & _ & _ & He)|(Hu & Hne & i2 & err2 & Hfc & <- & _)]];
      [done|done|].
    exists series, series1, chunks. split; [done|].
    apply flushChunks_inv in Hfc
      as [(e' & Henc & [= ->] & _)
         |(w & st & Henc & Hst & [(e' & Hput & [= ->] & _)|(_ & He & _)])].
    + by left.
    + right. by exists w, st.
    + done.
  - intros Hs. unfold flushUserSeries, seriesAt in *.
    destruct (userStates i !! userID) as [u|]; simpl in Hs; [|done]. by rewrite Hs.
  - intros series Hs Hr. apply seriesAt_Some in Hs as (u & Hu & Hs).
    unfold flushUserSeries. rewrite Hu. cbv beta iota. rewrite Hs. cbv beta iota zeta.
    by rewrite decide_True.
Qed.

(** With a store the executor returns, whatever it is asked. *)
Lemma flushUserSeries_returns Encode i now now1 now2 now3 j userID fp immediate :
  chunkStore i <> None ->
  exists i' err,
    flushUserSeries Encode i now now1 now2 now3 j userID fp immediate = Some (i', err).
Proof.
  intros Hstore.
  destruct (seriesAt (userStates i) userID fp) as [series|] eqn:Hs.
  - destruct (decide (shouldFlushSeries (cfg i) now series fp immediate = noFlush))
      as [Hr|Hr].
    + apply seriesAt_Some in Hs as (u & Hu & Hs).
      unfold flushUserSeries. rewrite Hu. cbv beta iota. rewrite Hs. cbv beta iota zeta.
      rewrite decide_True by done. by eexists _, _.
    + destruct (selectChunks_returns (cfg i) now1 series fp immediate)
        as (series1 & chunks & Hsel); [by eapply shouldFlushSeries_nonempty|].
      rewrite (flushUserSeries_run Encode _ _ _ now2 now3 j _ _ _ _ _ _ Hs Hr Hsel).
      cbv zeta. destruct (undersize _ _ _ _ _); [by eexists _, _|].
      destruct (_ =? 0); [by eexists _, _|].
      unfold flushChunks. destruct (encodeChunks _ _ _ _ _) as [e|w].
      * cbn [mbind option_bind]. by eexists _, _.
      * cbn [chunkStore set_userStates].
        destruct (chunkStore i) as [store|]; [|done]. cbn [mbind option_bind].
        destruct (Put store (putLog store) w); cbn [mbind option_bind]; by eexists _, _.
  - unfold flushUserSeries, seriesAt in *.
    destruct (userStates i !! userID) as [u|]; simpl in Hs; [|by eexists _, _].
    rewrite Hs. by eexists _, _.
Qed.

(** X18. With a store, a turn of a worker never panics. [flushUserSeries]
    returns for every ingester, tenant, fingerprint and flag: the head of a
    series is asked for only when the series has a chunk. And on a queue
    index in range the body of [flushLoop] comes to its end without a
    panic, with or without an op to put back (the loop goes on, the worker
    returns, or it waits in [Dequeue]), and leaves as many queues as there
    were. *)
Theorem worker_never_panics Encode i now now1 now2 now3 j :
  chunkStore i <> None ->
  (forall userID fp immediate,
      exists i' err,
        flushUserSeries Encode i now now1 now2 now3 j userID fp immediate
        = Some (i', err))
  /\ (forall q, queueAt (flushQueues i) j = Some q ->
        exists i' b, flushLoopBody Encode i now now1 now2 now3 j = Some (i', b)
                     /\ length (flushQueues i') = length (flushQueues i)).
Proof.
  intros Hstore. split; [intros; by apply flushUserSeries_returns|].
  intros q Hq. unfold flushLoopBody. rewrite Hq. cbn [mbind option_bind].
  destruct (Dequeue q) as [op q'| |]; [|by eexists _, _|by eexists _, _].
  destruct (flushUserSeries_returns Encode
              (set_flushQueues (<[Z.to_nat j := q']> (flushQueues i)) i)
              now now1 now2 now3 j (op_userID op) (op_fp op) (op_immediate op) Hstore)
    as (i1 & err & Hrun).
  rewrite Hrun. cbn [mbind option_bind].
  pose proof (flushUserSeries_frame _ _ _ _ _ _ _ _ _ _ _ _ Hrun) as [Hqs _].
  cbn [flushQueues set_flushQueues] in Hqs.
  destruct (op_immediate op && bool_decide (err <> None)).
  - apply queueAt_Some in Hq as [Hj Hq].
    unfold enqueueAt, queueAt. destruct (Z.ltb_spec j 0); [lia|]. rewrite Hqs.
    rewrite list_lookup_insert_eq by (by eapply lookup_lt_Some).
    cbn [mbind option_bind]. destruct (Enqueue q' _) as [q2 added].
    cbn [mbind option_bind]. eexists _, _. split; [done|].
    cbn [flushQueues set_flushQueues]. by rewrite !length_insert.
  - eexists _, _. split; [done|]. by rewrite Hqs, length_insert.
Qed.

Lemma worker_never_panics_witness :
  chunkStore Sample.ingesterShutdown <> None
  /\ queueAt (flushQueues Sample.ingesterShutdown) 3 = Some Sample.shutdownQueue
  /\ exists i' b,
       flushLoopBody Sample.encodeOk Sample.ingesterShutdown 3000 3000 (fun _ => 3001)
         (fun _ => 3001) 3 = Some (i', b)
       /\ length (flushQueues i') = length (flushQueues Sample.ingesterShutdown).
Proof.
  assert (chunkStore Sample.ingesterShutdown <> None) as H by done.
  assert (queueAt (flushQueues Sample.ingesterShutdown) 3 = Some Sample.shutdownQueue)
    as Hq by reflexivity.
  split; [exact H|]. split; [exact Hq|].
  exact (proj2 (worker_never_panics Sample.encodeOk Sample.ingesterShutdown
                  3000 3000 (fun _ => 3001) (fun _ => 3001) 3 H) Sample.shutdownQueue Hq).
Defined.

(** X19. [flushUserSeries] reaches one series only: whatever it returns, the
    series of other tenants and the series of the same tenant under other
    fingerprints are as they were, and so are the flush queues, the
    configuration, the [flushReasons] counter and the oldest-unflushed
    gauge. *)
Theorem flushUserSeries_local Encode i now now1 now2 now3 j userID fp immediate
    i' err :
  flushUserSeries Encode i now now1 now2 now3 j userID fp immediate = Some (i', err) ->
  (forall id fp', ~ (id = userID /\ fp' = fp) ->
      seriesAt (userStates i') id fp' = seriesAt (userStates i) id fp')
  /\ flushQueues i' = flushQueues i
  /\ cfg i' = cfg i
  /\ limits i' = limits i
  /\ flushReasons (metrics i') = flushReasons (metrics i)
  /\ oldestUnflushedChunkTimestamp (metrics i')
     = oldestUnflushedChunkTimestamp (metrics i).
Proof.
  intros Hrun. apply flushUserSeries_inv in Hrun
    as [(-> & _)|(series & series1 & chunks & Hs & Hr & Hsel & Hcases)]; [done|].
  cbv zeta in Hcases.
  assert (forall us id fp', ~ (id = userID /\ fp' = fp) ->
            us = writeSeries userID fp series1 (userStates i)
            \/ us = dropSeries userID fp (writeSeries userID fp series1 (userStates i)) ->
            seriesAt us id fp' = seriesAt (userStates i) id fp') as Hother.
  { intros us id fp' Hne [-> | ->].
    - rewrite seriesAt_writeSeries. by rewrite decide_False.
    - rewrite seriesAt_dropSeries, decide_False by done.
      rewrite seriesAt_writeSeries. by rewrite decide_False. }
  destruct Hcases as [(_ & -> & _)|[(_ & _ & -> & _)|(_ & _ & i2 & err2 & Hfc & _ & ->)]].
  - split; [|done]. intros id fp' Hne. apply Hother; [done|by right].
  - split; [|done]. intros id fp' Hne. apply Hother; [done|by left].
  - apply flushChunks_inv in Hfc
      as [(e & _ & -> & ->)|(w & st & _ & _ & [(e & _ & -> & ->)|(_ & -> & ->)])].
    + split; [|done]. intros id fp' Hne. apply Hother; [done|by left].
    + split; [|done]. intros id fp' Hne. apply Hother; [done|by left].
    + destruct (observeLoop_metrics userID now2 chunks 0%nat (metrics i))
        as (_ & _ & _ & _ & _ & _ & _ & _ & Hfr & Hold).
      unfold afterStored. destruct immediate.
      * split; [|by repeat split].
        intros id fp' Hne. cbn [userStates set_metrics set_userStates set_chunkStore].
        apply Hother; [done|by right].
      * split; [|by repeat split].
        intros id fp' Hne. cbn [userStates set_metrics set_userStates set_chunkStore].
        rewrite seriesAt_writeSeries, decide_False by done.
        apply Hother; [done|by left].
Qed.

Lemma flushUserSeries_local_witness :
  exists i' err,
    flushUserSeries Sample.encodeOk Sample.ingester 500000 500001 (fun _ => 500100)
      (fun _ => 500100) 3 "u1" 7 false
    = Some (i', err)
    /\ flushQueues i' = flushQueues Sample.ingester.
Proof.
  destruct (flushUserSeries Sample.encodeOk Sample.ingester 500000 500001 (fun _ => 500100)
              (fun _ => 500100) 3 "u1" 7 false)
    as [[i' err]|] eqn:Hrun; [|by vm_compute in Hrun].
  exists i', err. split; [done|].
  exact (proj1 (proj2 (flushUserSeries_local Sample.encodeOk Sample.ingester
                         500000 500001 (fun _ => 500100) (fun _ => 500100) 3 "u1" 7 false
                         i' err Hrun))).
Defined.

(** ** A flushed chunk and the reaper *)

Lemma reapable_markFlushed cfg t now d :
  reapable cfg t (markFlushed now d) = (model.Sub t now >? RetainPeriod cfg).
Proof. done. Qed.

(** The reaper removes a front of chunks that all pass its test, and goes
    on behind them. *)
Lemma reapLoop_front cfg t front rest mc :
  Forall (fun d => reapable cfg t d = true) front ->
  reapLoop cfg t (front ++ rest) mc
  = reapLoop cfg t rest (mc - Z.of_nat (length front)).
Proof.
  intros Hall. revert mc. induction Hall as [|d front Hd _ IH]; intros mc.
  - simpl. f_equal. lia.
  - cbn [app reapLoop]. rewrite Hd, IH. f_equal. simpl length. lia.
Qed.

(** The chunk at [m] of a series whose first [k] chunks were marked. *)
Lemma markLoop_marked now3 k descs m :
  (m < k <= length descs)%nat ->
  exists d, descs !! m = Some d
            /\ markLoop now3 k 0 descs !! m = Some (markFlushed (now3 m) d).
Proof.
  intros Hm. destruct (lookup_lt_is_Some_2 descs m) as [d Hd]; [lia|].
  exists d. split; [done|]. rewrite markLoop_lookup, decide_True by lia.
  by rewrite Hd.
Qed.

(** X21. A flushed chunk stays in memory for the retain period, counted
    from its own stamp. After the executor has marked the first [k] chunks
    of a series, the chunk at [n] with the reading [now3 n] of the clock,
    a reaper that reads a clock [t] removes the marked chunks from the
    front for as long as [t - now3 n] is above [RetainPeriod]: it stops at
    the first marked chunk [m] for which it is not, having removed the [m]
    chunks before it and lowered [memoryChunks] by [m] (nothing at all
    when [m] is 0); and when it is above [RetainPeriod] for all [k], it
    removes the [k] marked chunks, lowers [memoryChunks] by [k], and goes
    on with the chunks behind them. *)
Theorem marked_chunks_retained cfg t now3 (k : nat) descs mc :
  (0 < k <= length descs)%nat ->
  (forall m, (m < k)%nat ->
      (forall n, (n < m)%nat -> model.Sub t (now3 n) > RetainPeriod cfg) ->
      ~ model.Sub t (now3 m) > RetainPeriod cfg ->
      reapLoop cfg t (markLoop now3 k 0 descs) mc
      = (drop m (markLoop now3 k 0 descs), mc - Z.of_nat m))
  /\ ((forall n, (n < k)%nat -> model.Sub t (now3 n) > RetainPeriod cfg) ->
      reapLoop cfg t (markLoop now3 k 0 descs) mc
      = reapLoop cfg t (drop k descs) (mc - Z.of_nat k)).
Proof.
  intros Hk.
  assert (forall m, (m <= k)%nat ->
            (forall n, (n < m)%nat -> model.Sub t (now3 n) > RetainPeriod cfg) ->
            Forall (fun d => reapable cfg t d = true)
              (take m (markLoop now3 k 0 descs))) as Hfront.
  { intros m Hm Hold. apply Forall_lookup_2. intros n d Hn.
    assert (n < m)%nat as Hnm.
    { apply lookup_lt_Some in Hn. rewrite length_take in Hn. lia. }
    rewrite lookup_take_lt in Hn by done.
    destruct (markLoop_marked now3 k descs n) as (d0 & _ & Hd0); [lia|].
    rewrite Hd0 in Hn. injection Hn as <-. rewrite reapable_markFlushed.
    specialize (Hold n Hnm).
    destruct (Z.gtb_spec (model.Sub t (now3 n)) (RetainPeriod cfg)); [done|lia]. }
  split.
  - intros m Hm Hold Hyoung.
    rewrite <- (take_drop m (markLoop now3 k 0 descs)) at 1.
    rewrite reapLoop_front by (apply Hfront; [lia|done]).
    rewrite length_take, markLoop_length, Nat.min_l by lia.
    destruct (markLoop_marked now3 k descs m) as (d & _ & Hd); [lia|].
    rewrite (drop_S _ _ _ Hd). cbn [reapLoop]. rewrite reapable_markFlushed.
    by destruct (Z.gtb_spec (model.Sub t (now3 m)) (RetainPeriod cfg)); [lia|].
  - intros Hold.
    assert (drop k (markLoop now3 k 0 descs) = drop k descs) as Hrest.
    { rewrite markLoop_prefix.
      rewrite drop_app_length'; [done|]. rewrite length_imap, length_take. lia. }
    rewrite <- (take_drop k (markLoop now3 k 0 descs)) at 1.
    rewrite reapLoop_front by (apply Hfront; [lia|done]).
    rewrite length_take, markLoop_length, Nat.min_l by lia.
    by rewrite Hrest.
Qed.

(** Two chunks stamped a millisecond apart and a reaper that comes when
    the retain period of the first is over and that of the second is not:
    it removes one chunk, not both. *)
Lemma marked_chunks_retained_witness :
  (0 < 2 <= length [Sample.storedChunk; Sample.youngChunk])%nat
  /\ reapLoop Sample.config 800101
       (markLoop (fun n => 500100 + Z.of_nat n) 2 0
          [Sample.storedChunk; Sample.youngChunk]) 2
     = ([markFlushed 500101 Sample.youngChunk], 1).
Proof.
  assert (0 < 2 <= length [Sample.storedChunk; Sample.youngChunk])%nat as Hk
    by (simpl; lia).
  split; [exact Hk|].
  rewrite (proj1 (marked_chunks_retained Sample.config 800101
                    (fun n => 500100 + Z.of_nat n) 2
                    [Sample.storedChunk; Sample.youngChunk] 2 Hk) 1%nat).
  - reflexivity.
  - lia.
  - intros n Hn. assert (n = 0%nat) as -> by lia. vm_compute. reflexivity.
  - vm_compute. discriminate.
Defined.

(** ** Shutdown: the immediate path with a working store *)

Lemma wireOf_closeHead userID fp r s :
  wireOf userID fp (metric (closeHead r s)) <$> chunkDescs (closeHead r s)
  = wireOf userID fp (metric s) <$> chunkDescs s.
Proof. unfold closeHead. simpl. by apply fmap_alter_same. Qed.

Lemma encodeChunks_ok Encode userID fp metric chunks :
  Forall (fun w => Encode w = None) (wireOf userID fp metric <$> chunks) ->
  encodeChunks Encode userID fp metric chunks = inr (wireOf userID fp metric <$> chunks).
Proof.
  induction chunks as [|d chunks IH]; csimpl; [done|].
  intros H. apply Forall_cons in H as [Hd Hall].
  unfold wireOf in Hd at 1. rewrite Hd. by rewrite IH.
Qed.

Lemma shouldFlushSeries_immediate cfg now series fp :
  chunkDescs series <> [] -> shouldFlushSeries cfg now series fp true = reasonImmediate.
Proof. unfold shouldFlushSeries. by destruct (chunkDescs series). Qed.

(** The immediate path when every chunk encodes and the store accepts. *)
Lemma flushUserSeries_immediate_run Encode i now now1 now2 now3 j userID fp
    series store :
  seriesAt (userStates i) userID fp = Some series ->
  chunkDescs series <> [] ->
  chunkStore i = Some store ->
  Forall (fun w => Encode w = None) (wireOf userID fp (metric series) <$> chunkDescs series) ->
  Put store (putLog store) (wireOf userID fp (metric series) <$> chunkDescs series) = None ->
  exists i',
    flushUserSeries Encode i now now1 now2 now3 j userID fp true = Some (i', None)
    /\ userStates i'
       = dropSeries userID fp
           (writeSeries userID fp (closeHead reasonImmediate series) (userStates i))
    /\ memoryChunks (metrics i')
       = memoryChunks (metrics i) - Z.of_nat (length (chunkDescs series))
    /\ chunkStore i'
       = Some {| Put := Put store;
                 putLog := putLog store
                           ++ [wireOf userID fp (metric series) <$> chunkDescs series] |}
    /\ flushQueues i' = flushQueues i /\ cfg i' = cfg i.
Proof.
  intros Hs Hne Hst Henc Hput.
  assert (shouldFlushSeries (cfg i) now series fp true <> noFlush) as Hr
    by (by rewrite shouldFlushSeries_immediate).
  rewrite (flushUserSeries_run Encode i now now1 now2 now3 j userID fp true series
             (closeHead reasonImmediate series)
             (chunkDescs (closeHead reasonImmediate series)) Hs Hr eq_refl).
  cbv zeta. rewrite shouldFlushSeries_immediate by done.
  unfold undersize. simpl bool_decide. cbn [orb andb].
  destruct (closeHead_flushed reasonImmediate series) as (_ & _ & Hlen).
  destruct (Z.eqb_spec (Z.of_nat (length (chunkDescs (closeHead reasonImmediate series)))) 0)
    as [Hz|_]; [rewrite Hlen in Hz; destruct (chunkDescs series); simpl in *; [done|lia]|].
  unfold flushChunks. rewrite encodeChunks_ok by (by rewrite wireOf_closeHead).
  rewrite wireOf_closeHead. cbn [chunkStore set_userStates]. rewrite Hst.
  cbn [mbind option_bind]. rewrite Hput. cbn [mbind option_bind].
  eexists. split; [done|]. unfold afterStored.
  cbn [userStates metrics set_metrics set_userStates set_chunkStore set_memoryChunks
       memoryChunks chunkStore flushQueues cfg].
  destruct (observeLoop_frame userID now2 0
              (chunkDescs (closeHead reasonImmediate series)) (metrics i)) as [-> _].
  by rewrite Hlen.
Qed.

(** X22. On the immediate path with a working store a series leaves memory
    whole: when every chunk of the series encodes and [Put] accepts the
    batch, [flushUserSeries] with [immediate] true succeeds, sends every
    chunk of the series in one [Put] (flushed chunks included, oldest
    first), removes the series from the tenant's map and lowers
    [memoryChunks] by the number of its chunks. *)
Theorem flushUserSeries_immediate Encode i now now1 now2 now3 j userID fp
    series store :
  seriesAt (userStates i) userID fp = Some series ->
  chunkDescs series <> [] ->
  chunkStore i = Some store ->
  Forall (fun d => Encode (wireOf userID fp (metric series) d) = None) (chunkDescs series) ->
  Put store (putLog store) (wireOf userID fp (metric series) <$> chunkDescs series) = None ->
  exists i',
    flushUserSeries Encode i now now1 now2 now3 j userID fp true = Some (i', None)
    /\ seriesAt (userStates i') userID fp = None
    /\ memoryChunks (metrics i')
       = memoryChunks (metrics i) - Z.of_nat (length (chunkDescs series))
    /\ chunkStore i'
       = Some {| Put := Put store;
                 putLog := putLog store
                           ++ [wireOf userID fp (metric series) <$> chunkDescs series] |}.
Proof.
  intros Hs Hne Hst Henc Hput.
  destruct (flushUserSeries_immediate_run Encode i now now1 now2 now3 j userID fp
              series store Hs Hne Hst) as (i' & Hrun & Hus & Hmc & Hstore & _);
    [|done|].
  { by apply Forall_fmap. }
  exists i'. split; [done|]. split; [|done].
  rewrite Hus, seriesAt_dropSeries. by rewrite decide_True.
Qed.

Lemma flushUserSeries_immediate_witness :
  exists i',
    flushUserSeries Sample.encodeOk Sample.ingester 3000 3000 (fun _ => 3001)
      (fun _ => 3001) 3 "u1" 7 true
    = Some (i', None)
    /\ seriesAt (userStates i') "u1" 7 = None
    /\ memoryChunks (metrics i') = 0.
Proof.
  destruct (flushUserSeries_immediate Sample.encodeOk Sample.ingester
              3000 3000 (fun _ => 3001) (fun _ => 3001) 3
              "u1" 7 (Sample.seriesOfChunks [Sample.youngChunk]) Sample.okStore)
    as (i' & Hrun & Hgone & Hmc & _).
  - reflexivity.
  - discriminate.
  - reflexivity.
  - repeat constructor.
  - reflexivity.
  - exists i'. split; [exact Hrun|]. split; [exact Hgone|]. exact Hmc.
Defined.

(** *** A worker that drains its queue *)

Lemma NoEmpty_gone us id fp :
  NoEmptySeries us -> HoldsNoChunk us id fp -> seriesAt us id fp = None.
Proof.
  intros Hne Hno. destruct (seriesAt us id fp) as [s|] eqn:Hs; [|done].
  exfalso. by apply (Hne id fp s Hs), Hno.
Qed.

(** One invocation of the executor with every chunk encoding and a store
    that accepts: no error, and what it leaves. *)
Lemma flushUserSeries_accepting Encode i now now1 now2 now3 j userID fp immediate :
  (forall c, Encode c = None) -> Accepting i ->
  exists i',
    flushUserSeries Encode i now now1 now2 now3 j userID fp immediate = Some (i', None)
    /\ Accepting i'
    /\ (forall id fp', seriesAt (userStates i) id fp' = None ->
                       seriesAt (userStates i') id fp' = None)
    /\ (forall id fp', HoldsNoChunk (userStates i) id fp' ->
                       HoldsNoChunk (userStates i') id fp')
    /\ (NoEmptySeries (userStates i) -> NoEmptySeries (userStates i'))
    /\ (immediate = true -> HoldsNoChunk (userStates i') userID fp).
Proof.
  intros Henc (store & Hst & Hput).
  destruct (flushUserSeries_returns Encode i now now1 now2 now3 j userID fp immediate)
    as (i' & err & Hrun); [by rewrite Hst|].
  pose proof Hrun as Hinv. apply flushUserSeries_inv in Hinv
    as [(-> & -> & Hwhy)|(series & series1 & chunks & Hs & Hr & Hsel & Hcases)].
  { exists i. split; [done|]. split; [by exists store|]. repeat split; try done.
    intros -> s Hs. destruct Hwhy as [Hnone|(series & Hs' & Hr)]; [congruence|].
    rewrite Hs in Hs'. injection Hs' as <-.
    destruct (chunkDescs s) eqn:Hc; [done|].
    rewrite shouldFlushSeries_immediate in Hr by (by rewrite Hc). done. }
  cbv zeta in Hcases.
  pose proof (shouldFlushSeries_nonempty _ _ _ _ _ Hr) as Hne.
  pose proof (selectChunks_closes _ _ _ _ _ _ _ Hsel) as (Hs1 & _ & _).
  assert (length (chunkDescs series1) = length (chunkDescs series)) as Hlen1.
  { destruct Hs1 as [->|(r & ->)]; [done|]. apply closeHead_flushed. }
  assert (forall us' : gmap string userState,
             (forall id fp', ~ (id = userID /\ fp' = fp) ->
                 seriesAt us' id fp' = seriesAt (userStates i) id fp') ->
             (seriesAt us' userID fp = None
              \/ exists s', seriesAt us' userID fp = Some s'
                            /\ length (chunkDescs s') = length (chunkDescs series)
                            /\ immediate = false) ->
             (forall id fp', seriesAt (userStates i) id fp' = None ->
                             seriesAt us' id fp' = None)
             /\ (forall id fp', HoldsNoChunk (userStates i) id fp' ->
                                HoldsNoChunk us' id fp')
             /\ (NoEmptySeries (userStates i) -> NoEmptySeries us')
             /\ (immediate = true -> HoldsNoChunk us' userID fp)) as Hframe.
  { intros us' Hother Hsame. repeat split.
    - intros id fp' Hnone. destruct (decide (id = userID /\ fp' = fp)) as [[-> ->]|Hd];
        [congruence|]. by rewrite Hother.
    - intros id fp' Hno s' Hs'.
      destruct (decide (id = userID /\ fp' = fp)) as [[-> ->]|Hd].
      + exfalso. by apply Hne, Hno.
      + apply Hno. by rewrite <- Hother.
    - intros Hall id fp' s' Hs'.
      destruct (decide (id = userID /\ fp' = fp)) as [[-> ->]|Hd].
      + destruct Hsame as [Hnone|(s'' & Hs'' & Hl & _)]; [congruence|].
        rewrite Hs' in Hs''. injection Hs'' as <-. intros Hnil.
        rewrite Hnil in Hl. destruct (chunkDescs series); [done|discriminate Hl].
      + eapply Hall. by rewrite <- Hother.
    - intros -> s' Hs'. destruct Hsame as [Hnone|(s'' & _ & _ & ?)]; [congruence|done]. }
  assert (forall id fp', ~ (id = userID /\ fp' = fp) ->
            seriesAt (writeSeries userID fp series1 (userStates i)) id fp'
            = seriesAt (userStates i) id fp') as Hw.
  { intros id fp' Hd. rewrite seriesAt_writeSeries. by rewrite decide_False. }
  assert (forall us, (forall id fp', ~ (id = userID /\ fp' = fp) ->
              seriesAt us id fp' = seriesAt (userStates i) id fp') ->
            (forall id fp', ~ (id = userID /\ fp' = fp) ->
              seriesAt (dropSeries userID fp us) id fp' = seriesAt (userStates i) id fp')
            /\ seriesAt (dropSeries userID fp us) userID fp = None) as Hd.
  { intros us Hus. split.
    - intros id fp' Hd. rewrite seriesAt_dropSeries, decide_False by done. by apply Hus.
    - rewrite seriesAt_dropSeries. by rewrite decide_True. }
  destruct Hcases
    as [(_ & -> & ->)|[(_ & -> & -> & ->)|(_ & _ & i2 & err2 & Hfc & -> & ->)]].
  - exists (dropUndersize (set_userStates (writeSeries userID fp series1 (userStates i)) i)
              userID fp chunks).
    split; [done|]. split; [by exists store|].
    destruct (Hd _ Hw) as [Hd1 Hd2]. apply Hframe; [exact Hd1|by left].
  - apply selectChunks_nil in Hsel as (-> & -> & _); [|done].
    eexists. split; [done|]. split; [by exists store|].
    cbn [userStates set_userStates]. apply Hframe; [exact Hw|].
    right. exists series. split; [|done].
    rewrite seriesAt_writeSeries, decide_True by done. by rewrite Hs.
  - apply flushChunks_inv in Hfc
      as [(e & Hin & _)|(w & st & _ & Hst' & [(e & Hp & _)|(_ & -> & ->)])].
    + apply encodeChunks_inl in Hin as (d & _ & He). by rewrite Henc in He.
    + cbn [chunkStore set_userStates] in Hst'. rewrite Hst in Hst'.
      injection Hst' as <-. by rewrite Hput in Hp.
    + cbn [chunkStore set_userStates] in Hst'. rewrite Hst in Hst'.
      injection Hst' as <-.
      eexists. split; [done|]. split.
      { unfold afterStored. destruct immediate; eexists; split; [done|done|done|done]. }
      unfold afterStored. destruct immediate;
        cbn [userStates set_userStates set_metrics set_chunkStore].
      * destruct (Hd _ Hw) as [Hd1 Hd2]. apply Hframe; [exact Hd1|by left].
      * apply Hframe.
        -- intros id fp' Hne'. rewrite seriesAt_writeSeries, decide_False by done.
           by apply Hw.
        -- right. eexists. split.
           ++ rewrite seriesAt_writeSeries, decide_True by done.
              rewrite seriesAt_writeSeries, decide_True by done. by rewrite Hs.
           ++ split; [|done]. cbn [chunkDescs set_chunkDescs].
              by rewrite markLoop_length.
Qed.

(** A turn of the worker on a queue that holds an op, under the same
    conditions. *)
Lemma flushLoopBody_accepting Encode i now now1 now2 now3 j q op rest :
  (forall c, Encode c = None) -> Accepting i ->
  queueAt (flushQueues i) j = Some q ->
  pq_items q = op :: rest ->
  exists i',
    flushLoopBody Encode i now now1 now2 now3 j = Some (i', turnGoesOn)
    /\ Accepting i'
    /\ flushQueues i'
       = <[Z.to_nat j := {| pq_items := rest; pq_closed := pq_closed q |}]> (flushQueues i)
    /\ (forall id fp', seriesAt (userStates i) id fp' = None ->
                       seriesAt (userStates i') id fp' = None)
    /\ (forall id fp', HoldsNoChunk (userStates i) id fp' ->
                       HoldsNoChunk (userStates i') id fp')
    /\ (NoEmptySeries (userStates i) -> NoEmptySeries (userStates i'))
    /\ (op_immediate op = true -> HoldsNoChunk (userStates i') (op_userID op) (op_fp op)).
Proof.
  intros Henc Hacc Hq Hitems. unfold flushLoopBody. rewrite Hq. cbn [mbind option_bind].
  unfold Dequeue. rewrite Hitems.
  destruct (flushUserSeries_accepting Encode
              (set_flushQueues
                 (<[Z.to_nat j := {| pq_items := rest; pq_closed := pq_closed q |}]>
                    (flushQueues i)) i)
              now now1 now2 now3 j (op_userID op) (op_fp op) (op_immediate op) Henc)
    as (i' & Hrun & Hacc' & Hnone & Hno & Hall & Himm); [exact Hacc|].
  rewrite Hrun. cbn [mbind option_bind].
  rewrite bool_decide_eq_false_2 by (intros H; by apply H).
  rewrite andb_false_r. exists i'. split; [done|]. split; [done|].
  pose proof (flushUserSeries_frame _ _ _ _ _ _ _ _ _ _ _ _ Hrun) as [Hqs _].
  by repeat split.
Qed.

(** The loop of the worker on a queue of [length l] ops: it ends at the
    [Dequeue] on the drained queue, where the worker returns if the queue
    is closed and waits if it is open. *)
Lemma flushLoop_accepting Encode clock j (l : list flushOp) : forall i k q,
  (forall c, Encode c = None) -> Accepting i ->
  queueAt (flushQueues i) j = Some q ->
  pq_items q = l ->
  exists i',
    (forall extra,
        flushLoop Encode (S (length l) + extra) clock k i j
        = Some (i', if pq_closed q then turnReturns else turnWaits))
    /\ Accepting i'
    /\ flushQueues i'
       = <[Z.to_nat j := {| pq_items := []; pq_closed := pq_closed q |}]> (flushQueues i)
    /\ (forall id fp', seriesAt (userStates i) id fp' = None ->
                       seriesAt (userStates i') id fp' = None)
    /\ (forall id fp', HoldsNoChunk (userStates i) id fp' ->
                       HoldsNoChunk (userStates i') id fp')
    /\ (NoEmptySeries (userStates i) -> NoEmptySeries (userStates i'))
    /\ (forall op, op ∈ l -> op_immediate op = true ->
                   HoldsNoChunk (userStates i') (op_userID op) (op_fp op)).
Proof.
  induction l as [|op rest IH]; intros i k q Henc Hacc Hq Hitems.
  - exists i. split.
    { intros n. cbn [length Nat.add flushLoop]. unfold flushLoopBody. rewrite Hq.
      cbn [mbind option_bind]. unfold Dequeue. rewrite Hitems.
      by destruct (pq_closed q). }
    split; [done|]. split.
    { apply queueAt_Some in Hq as [_ Hq]. symmetry. apply list_insert_id.
      rewrite Hq. f_equal. destruct q. simpl in *. by rewrite Hitems. }
    repeat split; try done. intros op H. by apply elem_of_nil in H.
  - destruct (flushLoopBody_accepting Encode i (atRecheck (clock k)) (atHead (clock k))
                (atStore (clock k)) (atMark (clock k)) j q op rest Henc Hacc Hq Hitems)
      as (i1 & Hbody & Hacc1 & Hqs1 & Hnone1 & Hno1 & Hall1 & Himm1).
    pose proof (queueAt_Some _ _ _ Hq) as [Hj Hlook].
    assert (queueAt (flushQueues i1) j
            = Some {| pq_items := rest; pq_closed := pq_closed q |}) as Hq1.
    { unfold queueAt. destruct (Z.ltb_spec j 0); [lia|]. rewrite Hqs1.
      apply list_lookup_insert_eq. by eapply lookup_lt_Some. }
    destruct (IH i1 (S k) _ Henc Hacc1 Hq1 eq_refl)
      as (i' & Hrun & Hacc' & Hqs' & Hnone' & Hno' & Hall' & Himm').
    cbn [pq_closed] in Hrun, Hqs'.
    exists i'. split.
    { intros n. change (S (length (op :: rest)) + n)%nat
        with (S (S (length rest) + n)).
      cbn [flushLoop]. rewrite Hbody. cbn [mbind option_bind]. apply Hrun. }
    split; [done|]. split.
    { rewrite Hqs', Hqs1. by rewrite list_insert_insert_eq. }
    split; [by intros ???; apply Hnone', Hnone1|].
    split; [by intros ???; apply Hno', Hno1|].
    split; [by intros ?; apply Hall', Hall1|].
    intros op' Hin Himm. apply elem_of_cons in Hin as [->|Hin].
    + by apply Hno', Himm1.
    + by apply Himm'.
Qed.

(** X23. With a store that accepts every batch and chunks that all encode,
    a worker drains its queue without an error: after one turn per waiting
    op its queue is empty and nothing was put back, whatever the clock
    reads. At the next [Dequeue] the worker returns if the queue is closed
    and waits there if it is open, however many turns it is allowed. The
    other queues are as they were, the store still accepts, and every
    series that had an immediate op waiting holds no chunk in memory any
    more. *)
Theorem flushLoop_drains Encode clock k i j q :
  (forall c, Encode c = None) ->
  Accepting i ->
  queueAt (flushQueues i) j = Some q ->
  exists i',
    (forall extra,
        flushLoop Encode (S (length (pq_items q)) + extra) clock k i j
        = Some (i', if pq_closed q then turnReturns else turnWaits))
    /\ flushQueues i'
       = <[Z.to_nat j := {| pq_items := []; pq_closed := pq_closed q |}]> (flushQueues i)
    /\ Accepting i'
    /\ forall op, op ∈ pq_items q -> op_immediate op = true ->
         HoldsNoChunk (userStates i') (op_userID op) (op_fp op).
Proof.
  intros Henc Hacc Hq.
  destruct (flushLoop_accepting Encode clock j (pq_items q) i k q Henc Hacc Hq eq_refl)
    as (i' & Hrun & Hacc' & Hqs & _ & _ & _ & Himm).
  by exists i'.
Qed.

(** A closed queue with the shutdown op: the worker flushes the series and
    returns. *)
Lemma flushLoop_drains_witness :
  exists i',
    flushLoop Sample.encodeOk 2 (fun _ => Sample.readings 3000 3001) 0
      (set_flushQueues [Sample.emptyQueue; Sample.emptyQueue; Sample.emptyQueue;
                        Sample.closedShutdownQueue] Sample.ingester) 3
    = Some (i', turnReturns)
    /\ flushQueues i'
       = [Sample.emptyQueue; Sample.emptyQueue; Sample.emptyQueue;
          {| pq_items := []; pq_closed := true |}]
    /\ HoldsNoChunk (userStates i') "u1" 7.
Proof.
  destruct (flushLoop_drains Sample.encodeOk (fun _ => Sample.readings 3000 3001) 0
              (set_flushQueues [Sample.emptyQueue; Sample.emptyQueue; Sample.emptyQueue;
                                Sample.closedShutdownQueue] Sample.ingester) 3
              Sample.closedShutdownQueue)
    as (i' & Hrun & Hqs & _ & Hgone).
  - reflexivity.
  - exists Sample.okStore. split; reflexivity.
  - reflexivity.
  - exists i'. split; [exact (Hrun 0%nat)|]. split; [exact Hqs|].
    apply (Hgone Sample.shutdownOp); [left|reflexivity].
Defined.

(** *** The shutdown sweep and the worker after it *)

Lemma sweepSeries_TypedOps i now userID fp series immediate i' :
  uint64_range fp ->
  TypedOps (flushQueues i) ->
  sweepSeries i now userID fp series immediate = Some i' ->
  TypedOps (flushQueues i').
Proof.
  intros Hfp Hty Hrun.
  apply sweepSeries_inv in Hrun
    as (_ & _ & _ & _ & _ & [->|(j & q & op & _ & Hq & Hop & _ & _ & _ & ->)]); [done|].
  apply queueAt_Some in Hq as [_ Hq].
  intros k q' op' Hlook Hin.
  apply list_lookup_insert_Some in Hlook as [(<- & <- & _)|(_ & Hlook)].
  - apply Enqueue_elem_of in Hin as [->|Hin]; [by rewrite Hop|by eapply Hty].
  - by eapply Hty.
Qed.

Lemma sweepPairs_TypedOps immediate clock entries : forall i o i' o',
  (forall id fp s, (id, fp, s) ∈ entries -> uint64_range fp) ->
  TypedOps (flushQueues i) ->
  sweepPairs immediate clock entries (i, o) = Some (i', o') ->
  TypedOps (flushQueues i').
Proof.
  induction entries as [|[[id fp] series] entries IH]; intros i o i' o' Hfp Hty;
    cbn [sweepPairs].
  - by intros [= <- <-].
  - destruct (sweepPair immediate clock (i, o) (id, fp, series)) as [[i2 o2]|] eqn:Hp;
      [|done]. cbn [mbind option_bind].
    apply sweepPair_inv in Hp as (i1 & Hss & -> & ->).
    pose proof (removeFlushedChunks_inv i1 (clock id fp) id fp series)
      as (_ & _ & _ & Hqs & _).
    apply IH.
    + intros ??? H. eapply Hfp. by right.
    + rewrite Hqs. eapply sweepSeries_TypedOps; [|done|done]. eapply Hfp. left.
Qed.

Lemma reaped_nonempty cfg now s s' :
  reaped cfg now s = Some s' -> chunkDescs s <> [] /\ chunkDescs s' <> [].
Proof.
  intros Hr. apply reaped_Some in Hr as [-> Hne]. split; [|done].
  intros Hnil. apply Hne. cbn [chunkDescs set_chunkDescs]. by rewrite Hnil.
Qed.

(** X24. Shutdown leaves no series behind. After [Flush] (the sweep with
    [immediate] true, then [Close] on every queue) on an ingester whose
    store accepts every batch and whose chunks all encode, every queue is
    closed, and the worker of a queue [j] that then drains it ends its
    loop on the nil of the closed queue with no series of its shard left
    in memory: for every tenant and every fingerprint with
    [fp mod ConcurrentFlushes = j] the series is gone, whether it held
    flushed chunks, unflushed chunks or an open head. *)
Theorem Flush_then_drain Encode i sclock wclock k i1 j q :
  0 < ConcurrentFlushes (cfg i) < 2 ^ 63 ->
  (forall id fp s, seriesAt (userStates i) id fp = Some s -> uint64_range fp) ->
  TypedOps (flushQueues i) ->
  (forall c, Encode c = None) ->
  Accepting i ->
  Flush i sclock = Some i1 ->
  queueAt (flushQueues i1) j = Some q ->
  pq_closed q = true
  /\ exists i2,
       (forall extra,
           flushLoop Encode (S (length (pq_items q)) + extra) wclock k i1 j
           = Some (i2, turnReturns))
       /\ (exists q2, queueAt (flushQueues i2) j = Some q2
                      /\ pq_items q2 = [] /\ pq_closed q2 = true)
       /\ forall id fp,
            fp mod ConcurrentFlushes (cfg i) = j ->
            seriesAt (userStates i2) id fp = None.
Proof.
  intros Hn Hfp Hty Henc Hacc Hflush Hq.
  pose proof Hacc as (store & Hst & Hput).
  unfold Flush, sweepUsers in Hflush. rewrite Hst in Hflush.
  destruct (sweepPairs true sclock (seriesOf (userStates i)) (i, 0))
    as [[i0 oldest]|] eqn:Hrun; [|done].
  cbn [mbind option_bind] in Hflush. injection Hflush as <-.
  cbn [flushQueues set_flushQueues set_metrics] in Hq.
  pose proof (sweepPairs_all _ _ _ _ _ _ Hrun) as [Hcfg Hat].
  pose proof (sweepPairs_inv _ _ _ _ _ _ _ (NoDup_seriesOf_keys _)
                (fun id fp s H => proj1 (elem_of_seriesOf _ id fp s) H) Hrun)
    as (_ & Hst0 & _).
  assert (TypedOps (flushQueues i0)) as Hty0.
  { eapply sweepPairs_TypedOps; [|exact Hty|exact Hrun].
    intros id fp s Hin. eapply Hfp. by apply elem_of_seriesOf. }
  apply queueAt_Some in Hq as [Hj Hq].
  apply list_lookup_fmap_Some in Hq as (q0 & -> & Hq0).
  split; [done|].
  set (i1 := set_flushQueues (Close <$> flushQueues i0)
               (set_metrics
                  (set_oldestUnflushedChunkTimestamp (model.Unix oldest) (metrics i0)) i0)).
  assert (Accepting i1) as Hacc1.
  { exists store. split; [|done]. unfold i1. cbn [chunkStore set_flushQueues set_metrics].
    by rewrite Hst0. }
  assert (queueAt (flushQueues i1) j = Some (Close q0)) as Hq1.
  { unfold queueAt. destruct (Z.ltb_spec j 0); [lia|]. unfold i1.
    cbn [flushQueues set_flushQueues]. by rewrite list_lookup_fmap, Hq0. }
  destruct (flushLoop_accepting Encode wclock j (pq_items (Close q0)) i1 k (Close q0)
              Henc Hacc1 Hq1 eq_refl)
    as (i2 & Hany & _ & Hqs2 & Hnone & Hno & Hall & Himm).
  exists i2. split; [exact Hany|]. split.
  { exists {| pq_items := []; pq_closed := pq_closed (Close q0) |}.
    split; [|done]. unfold queueAt. destruct (Z.ltb_spec j 0); [lia|]. rewrite Hqs2.
    apply list_lookup_insert_eq. apply queueAt_Some in Hq1 as [_ Hq1].
    by eapply lookup_lt_Some. }
  assert (NoEmptySeries (userStates i1)) as Hne1.
  { intros id fp s' Hs'. unfold i1 in Hs'.
    cbn [userStates set_flushQueues set_metrics] in Hs'. rewrite Hat in Hs'.
    destruct (seriesAt (userStates i) id fp) as [s|]; [|done]. simpl in Hs'.
    by apply reaped_nonempty in Hs' as [_ ?]. }
  intros id fp Hmod.
  destruct (seriesAt (userStates i1) id fp) as [s'|] eqn:Hs'; [|by apply Hnone].
  apply NoEmpty_gone; [by apply Hall|].
  unfold i1 in Hs'. cbn [userStates set_flushQueues set_metrics] in Hs'.
  rewrite Hat in Hs'.
  destruct (seriesAt (userStates i) id fp) as [s|] eqn:Hs; [|done]. simpl in Hs'.
  apply reaped_nonempty in Hs' as [Hne _].
  assert (Queued (flushQueues i0) (fp mod ConcurrentFlushes (cfg i)) (opFor id fp s true))
    as (q' & op' & Hq' & Hin & Hkey).
  { eapply sweepPairs_Queued; [done| |exact Hrun| |].
    - intros id' fp' s0 H. eapply Hfp. by apply elem_of_seriesOf.
    - by apply elem_of_seriesOf.
    - by rewrite shouldFlushSeries_immediate. }
  rewrite Hmod in Hq'. apply queueAt_Some in Hq' as [_ Hq'].
  rewrite Hq0 in Hq'. injection Hq' as <-.
  apply Key_fields in Hkey as (Hu & Hf & Hi).
  - cbn [opFor op_userID op_fp op_immediate] in Hu, Hf, Hi.
    rewrite <- Hu, <- Hf. by apply Himm.
  - by apply (Hty0 _ _ _ Hq0 Hin).
  - cbn [opFor op_fp]. by apply (Hfp id fp s).
Qed.

Lemma Flush_then_drain_witness :
  exists i1 i2,
    Flush Sample.ingester Sample.clock = Some i1
    /\ flushLoop Sample.encodeOk 2 (fun _ => Sample.readings 3000 3001) 0 i1 3
       = Some (i2, turnReturns)
    /\ seriesAt (userStates i2) "u1" 7 = None.
Proof.
  destruct (Flush Sample.ingester Sample.clock) as [i1|] eqn:Hflush;
    [|by vm_compute in Hflush].
  assert (queueAt (flushQueues i1) 3
          = Some {| pq_items := [Sample.shutdownOp]; pq_closed := true |}) as Hq.
  { vm_compute in Hflush. injection Hflush as <-. reflexivity. }
  destruct (Flush_then_drain Sample.encodeOk Sample.ingester Sample.clock
              (fun _ => Sample.readings 3000 3001) 0%nat i1 3 _
              ltac:(simpl; lia) sample_fingerprints
              ltac:(intros k q op Hk Hin; apply lookup_replicate in Hk as [-> _];
                    by apply elem_of_nil in Hin)
              ltac:(reflexivity)
              ltac:(exists Sample.okStore; split; reflexivity)
              Hflush Hq)
    as (_ & i2 & Hrun & _ & Hgone).
  exists i1, i2. split; [reflexivity|]. split; [exact (Hrun 0%nat)|].
  apply Hgone. reflexivity.
Defined.
